(** * PQC auto-selector orchestrator: a model of [server.js]

    The orchestrator is a Fastify service with two routes.  [POST /select/ake]
    picks a signature scheme, generates a Kyber keypair, obtains a signature
    over the public key through a chain of signing strategies, has the
    signature backend verify and encapsulate, decapsulates on the Kyber
    backend and compares the two shared secrets.

    The model follows the source function by function.  JavaScript values are
    an inductive type, the [async] code is written in a monad that threads
    the log of outgoing HTTP calls and carries thrown errors, and the
    backends are an arbitrary function from the calls made so far and the
    next call to its outcome, together with the order in which two requests
    in flight settle. *)

From Stdlib Require Import String Ascii List Bool ZArith QArith Qround Lia Lqa.
From Stdlib Require Import DecimalString.
Import ListNotations.

#[local] Set Warnings "-register-all".

Close Scope Q_scope.
Open Scope list_scope.
Open Scope string_scope.

(** ** JavaScript numbers

    A Number is NaN, an infinity, or a finite binary64 value.  Finite values
    are kept as the rational they denote: every finite double is a rational,
    and the only operations the server applies to numbers ([<], [<=],
    [Math.round], [Math.min], [Math.max], [===]) are exact on doubles.  The
    two zeros are the one rational [0]; the server never tells them apart. *)

Inductive number : Type :=
| NaN
| PosInf
| NegInf
| Fin (q : Q).

(** [a < b] of the language; with a NaN operand the comparison is undefined
    and every relational operator yields [false]. *)
Definition num_ltb (a b : number) : bool :=
  match a, b with
  | NaN, _ | _, NaN => false
  | PosInf, _ => false
  | _, NegInf => false
  | NegInf, _ => true
  | Fin _, PosInf => true
  | Fin x, Fin y => match (x ?= y)%Q with Lt => true | _ => false end
  end.

Definition num_isNaN (a : number) : bool :=
  match a with NaN => true | _ => false end.

(** [a > b] is [b < a]; [a <= b] is "not [b < a]", except that it is [false]
    when either side is NaN. *)
Definition num_gtb (a b : number) : bool := num_ltb b a.

Definition num_leb (a b : number) : bool :=
  negb (num_isNaN a) && negb (num_isNaN b) && negb (num_ltb b a).

(** [===] on two Numbers. *)
Definition num_eqb (a b : number) : bool :=
  match a, b with
  | PosInf, PosInf | NegInf, NegInf => true
  | Fin x, Fin y => Qeq_bool x y
  | _, _ => false
  end.

Definition ofZ (z : Z) : number := Fin (inject_Z z).

(** [Math.round]: the nearest integer, ties towards plus infinity. *)
Definition Math_round (q : Q) : Z := Qfloor (q + (1 # 2)).

(** ** Strings

    A string is its sequence of code units; [ascii] holds the units below
    256, which covers every string literal of the server. *)

Definition code (c : ascii) : N := N_of_ascii c.

Definition inRange (lo hi c : ascii) : bool :=
  (code lo <=? code c)%N && (code c <=? code hi)%N.

Fixpoint memberOf (c : ascii) (cs : string) : bool :=
  match cs with
  | EmptyString => false
  | String d rest => Ascii.eqb c d || memberOf c rest
  end.

(** White space and line terminators, as [String.prototype.trim] strips them:
    TAB, LF, VT, FF, CR, SP and NBSP. *)
Definition isWhiteSpace (c : ascii) : bool :=
  existsb (N.eqb (code c)) [9; 10; 11; 12; 13; 32; 160]%N.

Fixpoint trimStart (s : string) : string :=
  match s with
  | EmptyString => EmptyString
  | String c rest => if isWhiteSpace c then trimStart rest else s
  end.

Fixpoint trimEnd (s : string) : string :=
  match s with
  | EmptyString => EmptyString
  | String c rest =>
      match trimEnd rest with
      | EmptyString => if isWhiteSpace c then EmptyString else String c EmptyString
      | kept => String c kept
      end
  end.

Definition trim (s : string) : string := trimEnd (trimStart s).

(** [toLowerCase] on one code unit: A-Z, and the Latin-1 capitals U+00C0 to
    U+00DE without the multiplication sign U+00D7. *)
Definition lowerChar (c : ascii) : ascii :=
  let n := code c in
  if ((65 <=? n) && (n <=? 90))%N then ascii_of_N (n + 32)
  else if ((192 <=? n) && (n <=? 222) && negb (n =? 215))%N then ascii_of_N (n + 32)
  else c.

Fixpoint toLowerCase (s : string) : string :=
  match s with
  | EmptyString => EmptyString
  | String c rest => String (lowerChar c) (toLowerCase rest)
  end.

(** [stripPrefix p s] is the rest of [s] after the prefix [p], if [s] starts
    with [p]. *)
Fixpoint stripPrefix (p s : string) : option string :=
  match p, s with
  | EmptyString, _ => Some s
  | String a p', String b s' => if Ascii.eqb a b then stripPrefix p' s' else None
  | String _ _, EmptyString => None
  end.

Definition startsWith (s p : string) : bool :=
  match stripPrefix p s with Some _ => true | None => false end.

(** [s.includes(p)]. *)
Fixpoint includes (s p : string) : bool :=
  startsWith s p ||
  match s with
  | EmptyString => false
  | String _ rest => includes rest p
  end.

Fixpoint take (n : nat) (s : string) : string :=
  match n, s with
  | S k, String c rest => String c (take k rest)
  | _, _ => EmptyString
  end.

(** The part of [s] that was consumed when [rest] is what remains of it. *)
Definition consumed (s rest : string) : string :=
  take (String.length s - String.length rest) s.

(** ** The regular expressions of [deriveRotationAlgorithm]

    A backtracking matcher for the operators the two patterns use: literals,
    character classes, sequence, alternation, the greedy [?] and capturing
    groups.  [matchHere] tries a pattern at the start of [s] and hands what
    remains, with the captures so far, to the continuation [k]; a failure of
    the continuation makes the matcher try its next choice. *)

Inductive regex : Type :=
| RLit (l : string)
| RSet (members : string)
| RRange (lo hi : ascii)
| RSeq (r1 r2 : regex)
| RAlt (r1 r2 : regex)
| ROpt (r : regex)
| RGroup (n : nat) (r : regex).

Definition captures : Type := list (nat * string).

Fixpoint matchHere {A : Type} (r : regex) (s : string) (caps : captures)
    (k : string -> captures -> option A) : option A :=
  match r with
  | RLit l =>
      match stripPrefix l s with
      | Some rest => k rest caps
      | None => None
      end
  | RSet members =>
      match s with
      | String c rest => if memberOf c members then k rest caps else None
      | EmptyString => None
      end
  | RRange lo hi =>
      match s with
      | String c rest => if inRange lo hi c then k rest caps else None
      | EmptyString => None
      end
  | RSeq r1 r2 => matchHere r1 s caps (fun s1 c1 => matchHere r2 s1 c1 k)
  | RAlt r1 r2 =>
      match matchHere r1 s caps k with
      | Some m => Some m
      | None => matchHere r2 s caps k
      end
  | ROpt r1 =>
      match matchHere r1 s caps k with
      | Some m => Some m
      | None => k s caps
      end
  | RGroup n r1 =>
      matchHere r1 s caps (fun s1 c1 => k s1 ((n, consumed s s1) :: c1))
  end.

(** [s.match(r)] for a pattern without the [g] flag: the leftmost position at
    which the pattern matches, with its captures. *)
Fixpoint regexMatch (r : regex) (s : string) : option captures :=
  match matchHere r s [] (fun _ caps => Some caps) with
  | Some caps => Some caps
  | None =>
      match s with
      | String _ rest => regexMatch r rest
      | EmptyString => None
      end
  end.

Fixpoint group (n : nat) (caps : captures) : string :=
  match caps with
  | [] => EmptyString
  | (m, text) :: rest => if Nat.eqb n m then text else group n rest
  end.

(** [/(falcon|dilithium)[-_ ]?l?([1-5])/] *)
Definition explicitPattern : regex :=
  RSeq (RGroup 1 (RAlt (RLit "falcon") (RLit "dilithium")))
    (RSeq (ROpt (RSet "-_ "))
      (RSeq (ROpt (RLit "l"))
        (RGroup 2 (RRange "1" "5")))).

(** [/([1-5])/] *)
Definition numericPattern : regex := RGroup 1 (RRange "1" "5").

(** ** JavaScript values

    The values that reach the server are parsed JSON (request and response
    bodies) and what the server builds from them.  An object is the list of
    its own properties, with distinct keys. *)

Inductive value : Type :=
| VUndefined
| VNull
| VBool (b : bool)
| VNum (n : number)
| VStr (s : string)
| VArr (items : list value)
| VObj (fields : list (string * value)).

(** The two conversions between numbers and strings are the language's
    [Number::toString] and [StringToNumber].  The model computes them where
    the result does not depend on the binary64 representation: an integer
    of magnitude at most [2^53] prints as its decimal digits, and a string
    of decimal digits denoting at most [2^53] converts to that integer.
    Everywhere else they are the two functions of a [Runtime], about which
    nothing is assumed. *)
Record Runtime : Type := {
  numberToString_other : Q -> string;
  stringToNumber_other : string -> number
}.

Definition integerToString (z : Z) : string :=
  NilZero.string_of_int (Z.to_int z).

Definition isInteger (q : Q) : bool := (Qnum q mod Zpos (Qden q) =? 0)%Z.

Definition digitValue (c : ascii) : option Z :=
  if inRange "0" "9" c then Some (Z.of_N (code c) - 48)%Z else None.

Fixpoint decimalDigits (acc : Z) (s : string) : option Z :=
  match s with
  | EmptyString => Some acc
  | String c rest =>
      match digitValue c with
      | Some d => decimalDigits (10 * acc + d)%Z rest
      | None => None
      end
  end.

Definition isNullish (v : value) : bool :=
  match v with VUndefined | VNull => true | _ => false end.

Definition isUndefined (v : value) : bool :=
  match v with VUndefined => true | _ => false end.

Definition isBoolean (v : value) : bool :=
  match v with VBool _ => true | _ => false end.

(** [ToBoolean]: what [!v], [v || w] and [v ? a : b] test. *)
Definition ToBoolean (v : value) : bool :=
  match v with
  | VUndefined | VNull => false
  | VBool b => b
  | VNum NaN => false
  | VNum (Fin q) => negb (Qeq_bool q 0)
  | VNum _ => true
  | VStr s => negb (s =? "")
  | VArr _ | VObj _ => true
  end.

(** [a || b] and [a ?? b].  A chain [a || b || c] is written
    [or_ a (or_ b c)]: either nesting yields the first truthy operand, or
    the last one. *)
Definition or_ (a b : value) : value := if ToBoolean a then a else b.
Definition nullish_ (a b : value) : value := if isNullish a then b else a.

(** [a === b] for values of which at most one is an object of a given
    parse: two objects or arrays that come out of different [JSON.parse]
    calls are different objects, and [===] on objects is identity.  The
    server compares only a value with a string literal, and the fields of
    two different response bodies. *)
Definition strictEq (a b : value) : bool :=
  match a, b with
  | VUndefined, VUndefined => true
  | VNull, VNull => true
  | VBool x, VBool y => Bool.eqb x y
  | VNum x, VNum y => num_eqb x y
  | VStr x, VStr y => (x =? y)
  | _, _ => false
  end.

Fixpoint lookup (name : string) (fields : list (string * value)) : value :=
  match fields with
  | [] => VUndefined
  | (k, v) :: rest => if (k =? name) then v else lookup name rest
  end.

(** [v.name] for a value [v] that is neither [null] nor [undefined].  Of the
    property names the server reads, only [length] is defined on a prototype
    (of strings and arrays); every other name is an own property or absent. *)
Definition prop (v : value) (name : string) : value :=
  match v with
  | VObj fields => lookup name fields
  | VStr s =>
      if (name =? "length") then VNum (ofZ (Z.of_nat (String.length s))) else VUndefined
  | VArr items =>
      if (name =? "length") then VNum (ofZ (Z.of_nat (List.length items))) else VUndefined
  | _ => VUndefined
  end.

(** [v?.name] *)
Definition optProp (v : value) (name : string) : value :=
  if isNullish v then VUndefined else prop v name.

(** The object has a property of its own with this name. *)
Definition hasOwn (name : string) (fields : list (string * value)) : bool :=
  existsb (fun field => fst field =? name) fields.

Section Conversions.

Variable rt : Runtime.

Definition numberToString (n : number) : string :=
  match n with
  | NaN => "NaN"
  | PosInf => "Infinity"
  | NegInf => "-Infinity"
  | Fin q =>
      if isInteger q && (Z.abs (Qfloor q) <=? 2 ^ 53)%Z
      then integerToString (Qfloor q)
      else numberToString_other rt q
  end.

Definition stringToNumber (s : string) : number :=
  match s with
  | EmptyString => ofZ 0
  | _ =>
      match decimalDigits 0 s with
      | Some n => if (n <=? 2 ^ 53)%Z then ofZ n else stringToNumber_other rt s
      | None => stringToNumber_other rt s
      end
  end.

(** [ToString], which throws a TypeError where it is [None].

    An array prints through [Array.prototype.join]: its elements joined with
    commas, [null] and [undefined] elements printed as nothing, the others
    converted in turn.  An object is converted by [toString] and then
    [valueOf], whichever is callable and returns a primitive.  The own
    properties of a parsed object are data, never functions: an object
    with a property of its own named [toString] hides
    [Object.prototype.toString], its [valueOf] (its own, or the inherited
    one that returns the object) gives no primitive either, and the
    conversion throws.  Every other object prints as ["[object Object]"]. *)
Fixpoint ToString (v : value) : option string :=
  match v with
  | VUndefined => Some "undefined"
  | VNull => Some "null"
  | VBool true => Some "true"
  | VBool false => Some "false"
  | VNum n => Some (numberToString n)
  | VStr s => Some s
  | VArr items =>
      (fix join (l : list value) : option string :=
         match l with
         | [] => Some ""
         | x :: rest =>
             match (match x with VUndefined | VNull => Some "" | _ => ToString x end) with
             | None => None
             | Some first =>
                 match rest with
                 | [] => Some first
                 | _ =>
                     match join rest with
                     | Some others => Some (first ++ "," ++ others)
                     | None => None
                     end
                 end
             end
         end) items
  | VObj fields => if hasOwn "toString" fields then None else Some "[object Object]"
  end.

(** [ToNumber], which throws a TypeError where it is [None].  An array or
    an object is first converted to a primitive, by [valueOf] and then
    [toString]: [valueOf] gives none, so the primitive is the string of
    [ToString], or the conversion throws as [ToString] does. *)
Definition ToNumber (v : value) : option number :=
  match v with
  | VUndefined => Some NaN
  | VNull => Some (ofZ 0)
  | VBool true => Some (ofZ 1)
  | VBool false => Some (ofZ 0)
  | VNum n => Some n
  | VStr s => Some (stringToNumber s)
  | VArr _ | VObj _ => option_map stringToNumber (ToString v)
  end.

(** The global [isNaN(v)], and [v > n], [v <= n] against a Number [n]:
    the relational operators compare numerically unless both operands are
    strings.  Each converts [v] and throws if the conversion does. *)
Definition isNaN (v : value) : option bool := option_map num_isNaN (ToNumber v).
Definition gt_num (v : value) (n : number) : option bool :=
  option_map (fun x => num_gtb x n) (ToNumber v).
Definition le_num (v : value) (n : number) : option bool :=
  option_map (fun x => num_leb x n) (ToNumber v).

End Conversions.

(** ** Errors *)

Record JsError : Type := mkError { errName : string; errMessage : string }.

Definition Error_ (message : string) : JsError := mkError "Error" message.

(** Reading a property of [null] or [undefined]. *)
Definition TypeError_read (v : value) (name : string) : JsError :=
  mkError "TypeError"
    ("Cannot read properties of " ++
     (match v with VNull => "null" | _ => "undefined" end) ++
     " (reading '" ++ name ++ "')").

(** A conversion to a primitive that found none. *)
Definition TypeError_convert : JsError :=
  mkError "TypeError" "Cannot convert object to primitive value".

(** [e?.message || String(e)] for an error object. *)
Definition detailOf (e : JsError) : string :=
  if (errMessage e =? "") then errName e else errMessage e.

(** ** [deriveRotationAlgorithm] and [isSignatureVerificationError] *)

Inductive Scheme : Type := Dilithium | Falcon.

Definition schemeName (s : Scheme) : string :=
  match s with Dilithium => "dilithium" | Falcon => "falcon" end.

Definition deriveRotationAlgorithm (scheme : Scheme) (levelHint : value) : string :=
  let defaultAlg :=
    match scheme with Dilithium => "dilithium-l3" | Falcon => "falcon-l5" end in
  match levelHint with
  | VNum (Fin q) =>
      let lvl := Z.min 5 (Z.max 1 (Math_round q)) in
      schemeName scheme ++ "-l" ++ integerToString lvl
  | VStr s =>
      let normalized := toLowerCase (trim s) in
      match regexMatch explicitPattern normalized with
      | Some explicit => group 1 explicit ++ "-l" ++ group 2 explicit
      | None =>
          match regexMatch numericPattern normalized with
          | Some numeric => schemeName scheme ++ "-l" ++ group 1 numeric
          | None => defaultAlg
          end
      end
  | _ => defaultAlg
  end.

Definition isSignatureVerificationError (err : JsError) : bool :=
  let msg := toLowerCase (errMessage err) in
  includes msg "signature_verification_failed"
  || includes msg "signature verification failed"
  || includes msg "signature mismatch"
  || includes msg "invalid signature".

(** [encodeURIComponent]: the unreserved characters stay, every other code
    unit is written as the percent-escaped bytes of its UTF-8 encoding. *)
Definition hexDigit (n : N) : ascii :=
  if (n <? 10)%N then ascii_of_N (48 + n) else ascii_of_N (55 + n).

Definition percentByte (n : N) : string :=
  String "%" (String (hexDigit (n / 16)) (String (hexDigit (n mod 16)) EmptyString)).

Definition isUnreserved (c : ascii) : bool :=
  inRange "A" "Z" c || inRange "a" "z" c || inRange "0" "9" c || memberOf c "-_.!~*'()".

Fixpoint encodeURIComponent (s : string) : string :=
  match s with
  | EmptyString => EmptyString
  | String c rest =>
      (if isUnreserved c then String c EmptyString
       else if (code c <? 128)%N then percentByte (code c)
       else percentByte (192 + code c / 64) ++ percentByte (128 + code c mod 64))
      ++ encodeURIComponent rest
  end.

(** ** The network

    One outgoing HTTP exchange is a [Call]; the reply to it is decided by
    the [World], which sees the calls made before.  Where two requests are
    in flight at once, the [World] also decides which of them settles
    first.  [fetch] either resolves
    with a response, once the status line and headers have arrived, or
    rejects.  A response that [fetch] resolves with is a final one: interim
    1xx responses are consumed by the HTTP client, so its status is at
    least 200.  The body is read afterwards and reading can fail too (the
    abort timer of [getJSON]/[postJSON] spans both steps). *)

Inductive Method : Type := GET | POST.

Record Call : Type := mkCall {
  method : Method;
  url : string;
  sent : option value
}.

(** A body text, by what [JSON.parse] makes of it: the empty text, a text
    that parses to [j], or a text that [JSON.parse] rejects with a
    SyntaxError carrying [parseError]. *)
Inductive ResponseText : Type :=
| EmptyText
| JsonText (j : value)
| OtherText (raw : string) (parseError : string).

Inductive ResponseBody : Type :=
| Delivered (txt : ResponseText)
| Interrupted (e : JsError).

Record Response : Type := mkResponse {
  status : Z;
  body : ResponseBody;
  status_final : (200 <=? status)%Z = true
}.

Inductive FailureKind : Type := TransportError | MalformedResponse | Timeout.

Inductive Outcome : Type :=
| Responded (r : Response)
| Failed (kind : FailureKind) (e : JsError).

Definition Trace : Type := list Call.

(** [reply world t c] is the outcome of the call [c] made after the calls
    [t]; [settlesFirst world t a b] tells, of the requests [a] and [b] in
    flight after the calls [t], whether [a] settles before [b]. *)
Record World : Type := mkWorld {
  reply :> Trace -> Call -> Outcome;
  settlesFirst : Trace -> Call -> Call -> bool
}.

(** ** The monad of [async] code: a log of calls, and thrown errors *)

Inductive completion (A : Type) : Type :=
| Normal (a : A)
| Thrown (e : JsError).

Arguments Normal {A} a.
Arguments Thrown {A} e.

Definition M (A : Type) : Type := Trace -> completion A * Trace.

Definition ret {A : Type} (a : A) : M A := fun t => (Normal a, t).

Definition throw {A : Type} (e : JsError) : M A := fun t => (Thrown e, t).

Definition bind {A B : Type} (m : M A) (k : A -> M B) : M B :=
  fun t =>
    match m t with
    | (Normal a, t1) => k a t1
    | (Thrown e, t1) => (Thrown e, t1)
    end.

(** [try { m } catch (e) { h e }] *)
Definition tryCatch {A : Type} (m : M A) (h : JsError -> M A) : M A :=
  fun t =>
    match m t with
    | (Normal a, t1) => (Normal a, t1)
    | (Thrown e, t1) => h e t1
    end.

(** Runs [m] and hands back how it completed, for a [try] whose two
    branches continue differently. *)
Definition attempt {A : Type} (m : M A) : M (completion A) :=
  fun t => let (c, t1) := m t in (Normal c, t1).

Declare Scope js_scope.
Delimit Scope js_scope with js.
Notation "x <- m ;; k" := (bind m (fun x => k))
  (at level 100, m at next level, right associativity) : js_scope.
Notation "m ;;; k" := (bind m (fun _ => k))
  (at level 100, right associativity) : js_scope.
Open Scope js_scope.

(** A conversion of the language, inside [async] code. *)
Definition converted {A : Type} (o : option A) : M A :=
  match o with
  | Some a => ret a
  | None => throw TypeError_convert
  end.

(** [v.name], which throws on [null] and [undefined]. *)
Definition read (v : value) (name : string) : M value :=
  if isNullish v then throw (TypeError_read v name) else ret (prop v name).

(** [v.n1 || v.n2 || ... || v.nk] *)
Fixpoint readFirst (v : value) (names : list string) : M value :=
  match names with
  | [] => ret VUndefined
  | [name] => read v name
  | name :: rest =>
      x <- read v name ;;
      if ToBoolean x then ret x else readFirst v rest
  end.

(** [JSON.stringify] followed by the receiver's [JSON.parse]: properties
    whose value is [undefined] are left out, [undefined] array elements and
    the numbers JSON cannot write become [null]. *)
Fixpoint viaJSON (v : value) : value :=
  match v with
  | VUndefined => VNull
  | VNum NaN | VNum PosInf | VNum NegInf => VNull
  | VArr items => VArr (map viaJSON items)
  | VObj fields =>
      VObj ((fix each (l : list (string * value)) : list (string * value) :=
               match l with
               | [] => []
               | (k, x) :: rest =>
                   if isUndefined x then each rest else (k, viaJSON x) :: each rest
               end) fields)
  | _ => v
  end.

(** ** Configuration *)

Record Env : Type := {
  KYBER_BASE : option string;
  DILITHIUM_BASE : option string;
  FALCON_BASE : option string;
  KEYROTATION_BASE : option string;
  ROTATION_BASE : option string
}.

(** [a || b] on two environment entries, and [list.filter(Boolean)]. *)
Definition envOr (a b : option string) : option string :=
  match a with
  | Some EmptyString | None => b
  | Some _ => a
  end.

Definition filterBoolean (l : list (option string)) : list string :=
  flat_map (fun o => match o with
                     | Some EmptyString | None => []
                     | Some s => [s]
                     end) l.

(** ** The server *)

Section Server.

Variable rt : Runtime.
Variable env : Env.
Variable world : World.

Definition KYBER_BASES : list string :=
  filterBoolean [KYBER_BASE env; Some "http://localhost:8080";
                 Some "http://127.0.0.1:8080"; Some "http://host.docker.internal:8080"].

Definition DILITHIUM_BASES : list string :=
  filterBoolean [DILITHIUM_BASE env; Some "http://localhost:8081";
                 Some "http://127.0.0.1:8081"; Some "http://host.docker.internal:8081"].

Definition FALCON_BASES : list string :=
  filterBoolean [FALCON_BASE env; Some "http://localhost:8083";
                 Some "http://127.0.0.1:8083"; Some "http://host.docker.internal:8083"].

Definition KEYROTATION_BASES : list string :=
  filterBoolean [envOr (KEYROTATION_BASE env) (ROTATION_BASE env);
                 Some "http://localhost:8092";
                 Some "http://127.0.0.1:8092"; Some "http://host.docker.internal:8092"].

(** *** Helpers *)

(** [await fetch(...)]: the call is logged, and the world decides. *)
Definition fetch (c : Call) : M Response :=
  fun t =>
    match world t c with
    | Responded r => (Normal r, (t ++ [c])%list)
    | Failed _ e => (Thrown e, (t ++ [c])%list)
    end.

Definition ok (res : Response) : bool :=
  (200 <=? status res)%Z && (status res <=? 299)%Z.

Definition healthCall (base : string) : Call :=
  mkCall GET (base ++ "/health") None.

(** [withTimeout]: whether the promise or the timer wins the race is the
    world's to decide; a call that loses it has the outcome
    [Failed Timeout]. *)
Definition withTimeout {A : Type} (promise : M A) : M A := promise.

Definition probe (base : string) : M bool :=
  tryCatch
    (res <- withTimeout (fetch (healthCall base)) ;;
     ret (ok res || (200 <=? status res)%Z))
    (fun _ => ret false).

Fixpoint firstReachable (bases : list string) : M (option string) :=
  match bases with
  | [] => ret None
  | b :: rest =>
      up <- probe b ;;
      if up then ret (Some b) else firstReachable rest
  end.

(** [firstReachable] from the point where its probe of [b] has settled with
    [up], the candidates [rest] being left. *)
Definition resume (b : string) (up : completion bool) (rest : list string)
    : M (option string) :=
  match up with
  | Normal true => ret (Some b)
  | Normal false => firstReachable rest
  | Thrown e => throw e
  end.

(** [Promise.all([firstReachable(ds), firstReachable(fs)])], from the point
    where each search has a probe in flight: of [dB] and [fB], which will
    settle with [dUp] and [fUp].  A search moves when its probe settles: it
    resolves, or it sends its next probe at once.  Which of the two probes
    in flight settles first is the world's to say.  Once one search has
    resolved the other runs on alone. *)
Fixpoint race (dRest : list string) (dB : string) (dUp : completion bool)
    {struct dRest}
    : list string -> string -> completion bool -> M (option string * option string) :=
  fix raceF (fRest : list string) (fB : string) (fUp : completion bool)
      {struct fRest} : M (option string * option string) :=
    fun t =>
      if settlesFirst world t (healthCall dB) (healthCall fB)
      then
        match dUp with
        | Normal true => (f <- resume fB fUp fRest ;; ret (Some dB, f)) t
        | Normal false =>
            match dRest with
            | b :: rest => let (up, t1) := probe b t in race rest b up fRest fB fUp t1
            | [] => (f <- resume fB fUp fRest ;; ret (None, f)) t
            end
        | Thrown e => (Thrown e, t)
        end
      else
        match fUp with
        | Normal true => (d <- resume dB dUp dRest ;; ret (d, Some fB)) t
        | Normal false =>
            match fRest with
            | b :: rest => let (up, t1) := probe b t in raceF rest b up t1
            | [] => (d <- resume dB dUp dRest ;; ret (d, None)) t
            end
        | Thrown e => (Thrown e, t)
        end.

(** The two searches from their start.  Each runs up to its first [await]
    when it is called: the first probe of [ds] is sent, then the first
    probe of [fs], before either settles.  A search of no candidate
    resolves at once. *)
Definition searchBoth (ds fs : list string) : M (option string * option string) :=
  match ds, fs with
  | [], _ => f <- firstReachable fs ;; ret (None, f)
  | _ :: _, [] => d <- firstReachable ds ;; ret (d, None)
  | d1 :: dRest, f1 :: fRest =>
      fun t =>
        let (dUp, t1) := probe d1 t in
        let (fUp, t2) := probe f1 t1 in
        race dRest d1 dUp fRest f1 fUp t2
  end.

(** [Boolean(b)] and [!b] for what [firstReachable] returns. *)
Definition isBase (b : option string) : bool :=
  match b with
  | Some EmptyString | None => false
  | Some _ => true
  end.

Definition text (res : Response) : M ResponseText :=
  match body res with
  | Delivered txt => ret txt
  | Interrupted e => throw e
  end.

(** [txt ? JSON.parse(txt) : {}], with [{ raw: txt }] when parsing throws. *)
Definition parseLoosely (txt : ResponseText) : value :=
  match txt with
  | EmptyText => VObj []
  | JsonText j => j
  | OtherText raw _ => VObj [("raw", VStr raw)]
  end.

(** The common body of [getJSON] and [postJSON]. *)
Definition exchangeJSON (c : Call) : M value :=
  res <- fetch c ;;
  txt <- text res ;;
  let json := parseLoosely txt in
  if negb (ok res)
  then
    message <- converted (ToString rt
                 (or_ (optProp json "error")
                      (VStr (url c ++ " -> " ++ integerToString (status res))))) ;;
    throw (Error_ message)
  else ret json.

Definition getJSON (u : string) : M value := exchangeJSON (mkCall GET u None).

Definition postJSON (u : string) (fields : list (string * value)) : M value :=
  exchangeJSON (mkCall POST u (Some (viaJSON (VObj fields)))).

(** [r.json()] *)
Definition json (res : Response) : M value :=
  txt <- text res ;;
  match txt with
  | JsonText j => ret j
  | EmptyText => throw (mkError "SyntaxError" "Unexpected end of JSON input")
  | OtherText _ parseError => throw (mkError "SyntaxError" parseError)
  end.

(** *** Policy engine *)

(** The test of line 118, [!isNaN(payloadHintBytes) && payloadHintBytes > 0]. *)
Definition hintGuard (payloadHintBytes : value) : M bool :=
  nan <- converted (isNaN rt payloadHintBytes) ;;
  if negb nan then converted (gt_num rt payloadHintBytes (ofZ 0)) else ret false.

(** [selectSigScheme].  [Promise.all] runs the two searches together. *)
Definition selectSigScheme (payloadHintBytes policyPreferredSig : value) : M Scheme :=
  bases <- searchBoth DILITHIUM_BASES FALCON_BASES ;;
  let dReach := isBase (fst bases) in
  let fReach := isBase (snd bases) in
  if strictEq policyPreferredSig (VStr "falcon") && fReach then ret Falcon
  else if strictEq policyPreferredSig (VStr "dilithium") && dReach then ret Dilithium
  else
    guard <- hintGuard payloadHintBytes ;;
    tight <- (if guard
              then small <- converted (le_num rt payloadHintBytes (ofZ 1024)) ;;
                   ret (small && fReach)
              else ret false) ;;
    if tight then ret Falcon
    else if dReach then ret Dilithium
    else if fReach then ret Falcon
    else throw (Error_ "No signature service reachable").

(** *** Signing contexts and strategies *)

Record SigningContext : Type := {
  source : string;
  signature : value;
  signerPublicKey : value;
  signerLevel : value;
  signerKid : value;
  kyberPublicKey : value;
  kyberSecretKey : value;
  isCompressed : value
}.

Definition booleanOrUndefined (v : value) : value :=
  if isBoolean v then v else VUndefined.

Section Request.

(** The locals of the handler that its closures capture.  The outer [try]
    of the rotation and direct closures logs the error and throws it again;
    logging is left out. *)
Variable scheme : Scheme.
Variable sigBase : string.
Variables initialKyberPublicKey initialKyberSecretKey : value.
Variables baseServiceSignerPublicKey baseSignerLevel baseSignerKid : value.
Variable rotationAlg : string.

Definition signEndpoint : string :=
  match scheme with Dilithium => "/dilithium/sign" | Falcon => "/falcon/sign" end.

Definition longString (v : value) : bool :=
  match v with
  | VStr s => (16 <? Z.of_nat (String.length s))%Z
  | _ => false
  end.

Definition rotationStrategy (rotationBase : string) : M SigningContext :=
  let currentUrl :=
    rotationBase ++ "/orchestrator/keys/current?alg=" ++ encodeURIComponent rotationAlg in
  current <-
    tryCatch (getJSON currentUrl)
      (fun _ =>
         postJSON (rotationBase ++ "/keys/rotate")
           [("alg", VStr rotationAlg); ("level", baseSignerLevel)] ;;;
         getJSON currentUrl) ;;
  signResp <-
    postJSON (rotationBase ++ "/sign")
      [("alg", VStr rotationAlg); ("level", baseSignerLevel);
       ("messageB64", initialKyberPublicKey);
       ("messageBase64", initialKyberPublicKey)] ;;
  sig <- readFirst signResp ["signatureB64"; "signatureBase64"; "signature"; "sig"] ;;
  if negb (ToBoolean sig)
  then throw (Error_ "rotation signing produced no signature")
  else
    let rotPubCandidates :=
      filter longString
        [prop signResp "signerPublicKey"; prop signResp "publicKey";
         optProp current "publicKey"; optProp current "publicKeyB64";
         optProp current "publicKeyBase64"; optProp current "signerPublicKey";
         optProp current "falconPublicKey"; optProp current "dilithiumPublicKey";
         optProp current "pub"; optProp current "pk"] in
    ret {| source := "rotation";
           signature := sig;
           signerPublicKey := or_ (hd VUndefined rotPubCandidates) baseServiceSignerPublicKey;
           signerLevel := baseSignerLevel;
           signerKid :=
             or_ (prop signResp "kid")
               (or_ (prop signResp "keyId")
                  (or_ (optProp current "kid")
                     (or_ (optProp current "keyId") baseSignerKid)));
           kyberPublicKey := initialKyberPublicKey;
           kyberSecretKey := initialKyberSecretKey;
           isCompressed := booleanOrUndefined (prop signResp "isCompressed") |}.

Definition directStrategy : M SigningContext :=
  signResp <-
    postJSON (sigBase ++ signEndpoint)
      [("messageBase64", initialKyberPublicKey);
       ("messageB64", initialKyberPublicKey);
       ("message", initialKyberPublicKey);
       ("level", baseSignerLevel)] ;;
  sig <- readFirst signResp ["signature"; "signatureBase64"; "sig"; "signatureB64"] ;;
  if negb (ToBoolean sig)
  then throw (Error_ "direct signing produced no signature")
  else
    ret {| source := "direct";
           signature := sig;
           signerPublicKey :=
             or_ (prop signResp "signerPublicKey")
               (or_ (prop signResp "falconSignerPublicKey")
                  (or_ (prop signResp "dilithiumSignerPublicKey")
                     (or_ (prop signResp "publicKey") baseServiceSignerPublicKey)));
           signerLevel := or_ (prop signResp "level") baseSignerLevel;
           signerKid :=
             or_ (prop signResp "kid") (or_ (prop signResp "keyId") baseSignerKid);
           kyberPublicKey := initialKyberPublicKey;
           kyberSecretKey := initialKyberSecretKey;
           isCompressed := booleanOrUndefined (prop signResp "isCompressed") |}.

Definition bootstrapStrategy : M SigningContext :=
  bootstrap <- postJSON (sigBase ++ "/orchestrator/bootstrap") [] ;;
  sig <- readFirst bootstrap ["signature"; "signatureBase64"; "sig"; "signatureB64"] ;;
  if negb (ToBoolean sig)
  then throw (Error_ "bootstrap produced no signature")
  else
    ret {| source := "bootstrap";
           signature := sig;
           signerPublicKey :=
             or_ (prop bootstrap "signerPublicKey")
               (or_ (prop bootstrap "falconSignerPublicKey")
                  (or_ (prop bootstrap "dilithiumSignerPublicKey")
                     (or_ (prop bootstrap "publicKey") baseServiceSignerPublicKey)));
           signerLevel := or_ (prop bootstrap "level") baseSignerLevel;
           signerKid :=
             or_ (prop bootstrap "kid") (or_ (prop bootstrap "keyId") baseSignerKid);
           kyberPublicKey := or_ (prop bootstrap "kyberPublicKey") initialKyberPublicKey;
           kyberSecretKey := or_ (prop bootstrap "kyberSecretKey") initialKyberSecretKey;
           isCompressed := booleanOrUndefined (prop bootstrap "isCompressed") |}.

Definition signatureStrategies (rotationBase : option string) : list (M SigningContext) :=
  ((if isBase rotationBase
    then match rotationBase with Some b => [rotationStrategy b] | None => [] end
    else [])
   ++ [directStrategy; bootstrapStrategy])%list.

(** *** The strategy loop *)

(** The test of line 304, true when the context is to be skipped. *)
Definition incomplete (ctx : SigningContext) : bool :=
  negb (ToBoolean (signature ctx))
  || negb (ToBoolean (signerPublicKey ctx))
  || negb (ToBoolean (kyberPublicKey ctx))
  || negb (ToBoolean (kyberSecretKey ctx)).

Definition encapsulatePayload (ctx : SigningContext) : list (string * value) :=
  ([("kyberPublicKey", kyberPublicKey ctx);
   ("signature", signature ctx);
   ("signatureBase64", signature ctx);
   ("signatureB64", signature ctx);
   ("signerPublicKey", signerPublicKey ctx);
   ("falconSignerPublicKey",
      match scheme with Falcon => signerPublicKey ctx | Dilithium => VUndefined end);
   ("dilithiumSignerPublicKey",
      match scheme with Dilithium => signerPublicKey ctx | Falcon => VUndefined end);
   ("level", nullish_ (signerLevel ctx) baseSignerLevel);
   ("isCompressed", isCompressed ctx)]
  ++ (if ToBoolean (signerKid ctx)
      then [("signerKid", signerKid ctx); ("kid", signerKid ctx); ("keyId", signerKid ctx)]
      else []))%list.

(** The verify-and-encapsulate call of lines 308 to 327. *)
Definition encapsulateVerified (ctx : SigningContext) : M value :=
  postJSON (sigBase ++ "/orchestrator/encapsulate-verified") (encapsulatePayload ctx).

Record LoopState : Type := {
  encapRes : value;
  ctxForDecap : option SigningContext;
  lastSigError : option JsError
}.

Definition initialState : LoopState :=
  {| encapRes := VNull; ctxForDecap := None; lastSigError := None |}.

(** The [for] loop of lines 296 to 338, over the call [submit] it makes
    for a complete context; the handler runs it with
    [encapsulateVerified]. *)
Fixpoint strategyLoop (submit : SigningContext -> M value)
    (strategies : list (M SigningContext)) (st : LoopState) : M LoopState :=
  match strategies with
  | [] => ret st
  | getContext :: rest =>
      got <- attempt getContext ;;
      match got with
      | Thrown _ => strategyLoop submit rest st
      | Normal ctx =>
          if incomplete ctx then strategyLoop submit rest st
          else
            sent <- attempt (submit ctx) ;;
            match sent with
            | Normal res =>
                ret {| encapRes := res;
                       ctxForDecap := Some ctx;
                       lastSigError := lastSigError st |}
            | Thrown err =>
                if isSignatureVerificationError err
                then strategyLoop submit rest
                       {| encapRes := encapRes st;
                          ctxForDecap := ctxForDecap st;
                          lastSigError := Some err |}
                else throw err
            end
      end
  end.

(** Line 340: the loop is followed by the guard that throws when no
    encapsulation result or no context is left. *)
Definition guardLoop (st : LoopState) : M (value * SigningContext) :=
  match negb (ToBoolean (encapRes st)), ctxForDecap st with
  | false, Some ctx => ret (encapRes st, ctx)
  | _, _ =>
      throw (match lastSigError st with
             | Some e => e
             | None => Error_ "No signature strategy succeeded"
             end)
  end.

(** The loop and its guard, lines 292 to 342. *)
Definition signingChain (submit : SigningContext -> M value)
    (strategies : list (M SigningContext)) : M (value * SigningContext) :=
  st <- strategyLoop submit strategies initialState ;;
  guardLoop st.

End Request.

(** *** [POST /select/ake] *)

Record AkeResult : Type := {
  akeStatus : string;
  schemeSelected : Scheme;
  reason : string;
  resultSignerLevel : value;
  resultSignerKid : value;
  ciphertextLen : value;
  sharedSecretMatch : bool
}.

Inductive Reply : Type :=
| Reply200 (result : AkeResult)
| Reply502 (error : string) (detail : string).

(** Destructuring [null] or [undefined]. *)
Definition destructure (v : value) (name : string) : M value :=
  if isNullish v
  then throw (mkError "TypeError"
                ("Cannot destructure property '" ++ name ++
                 "' of '(intermediate value)' as it is " ++
                 (match v with VNull => "null" | _ => "undefined" end) ++ "."))
  else ret (prop v name).

(** The [reason] of the result, lines 354 to 356.  The template literal
    converts the preference to a string, the comparison converts the hint
    to a number. *)
Definition reasonOf (payloadHintBytes policyPreferredSig : value) : M string :=
  if ToBoolean policyPreferredSig
  then
    name <- converted (ToString rt policyPreferredSig) ;;
    ret ("policy:" ++ name)
  else if ToBoolean payloadHintBytes
  then
    small <- converted (le_num rt payloadHintBytes (ofZ 1024)) ;;
    ret (if small then "payload_tight" else "default_or_health")
  else ret "default_or_health".

(** Lines 344 to 361: decapsulate, compare, build the result. *)
Definition decapsulateAndCompare (scheme : Scheme) (kyberBase : string)
    (payloadHintBytes policyPreferredSig baseSignerLevel baseSignerKid : value)
    (encapsulated : value) (ctx : SigningContext) : M AkeResult :=
  decapRes <-
    postJSON (kyberBase ++ "/kyber/decapsulate")
      [("secretKey", kyberSecretKey ctx);
       ("ciphertext", prop encapsulated "ciphertext")] ;;
  decapSecret <- read decapRes "sharedSecret" ;;
  let same := strictEq (prop encapsulated "sharedSecret") decapSecret in
  why <- reasonOf payloadHintBytes policyPreferredSig ;;
  ret {| akeStatus := if same then "ok" else "mismatch";
         schemeSelected := scheme;
         reason := why;
         resultSignerLevel := nullish_ (signerLevel ctx) baseSignerLevel;
         resultSignerKid := nullish_ (signerKid ctx) baseSignerKid;
         ciphertextLen :=
           nullish_ (optProp (prop encapsulated "ciphertext") "length") (VNum (ofZ 0));
         sharedSecretMatch := same |}.

(** Lines 158 to 342, once the scheme and the two bases are known: the
    keypair, the signer, the strategies and the loop. *)
Definition signAndEncapsulate (scheme : Scheme) (kyberBase sigBase : string)
    (level : value) : M (value * value * (value * SigningContext)) :=
  keys <- postJSON (kyberBase ++ "/kyber/generate-keypair") [] ;;
  initialKyberPublicKey <- destructure keys "publicKey" ;;
  let initialKyberSecretKey := prop keys "secretKey" in
  signerInfo <- (res <- fetch (mkCall GET (sigBase ++ "/orchestrator/signer") None) ;;
                 json res) ;;
  baseServiceSignerPublicKey <-
    readFirst signerInfo
      ["signerPublicKey"; "falconSignerPublicKey"; "dilithiumSignerPublicKey"; "publicKey"] ;;
  let baseSignerLevel :=
    nullish_ (nullish_ (nullish_ level (prop signerInfo "level")) (prop signerInfo "alg"))
      (prop signerInfo "algorithm") in
  let baseSignerKid := or_ (prop signerInfo "kid") (prop signerInfo "keyId") in
  rotationBase <- firstReachable KEYROTATION_BASES ;;
  let rotationAlg := deriveRotationAlgorithm scheme baseSignerLevel in
  verified <- signingChain
                (encapsulateVerified scheme sigBase baseSignerLevel)
                (signatureStrategies scheme sigBase initialKyberPublicKey
                   initialKyberSecretKey baseServiceSignerPublicKey baseSignerLevel
                   baseSignerKid rotationAlg rotationBase) ;;
  ret (baseSignerLevel, baseSignerKid, verified).

(** The body of the [try] block. *)
Definition selectAke (reqBody : value) : M AkeResult :=
  let b := nullish_ reqBody (VObj []) in
  let payloadHintBytes := prop b "payloadHintBytes" in
  let policyPreferredSig := prop b "policyPreferredSig" in
  let level := prop b "level" in
  scheme <- selectSigScheme payloadHintBytes policyPreferredSig ;;
  kyberBase <- firstReachable KYBER_BASES ;;
  match kyberBase with
  | Some EmptyString | None => throw (Error_ "Kyber unreachable")
  | Some kyberBase =>
      sigBase <- firstReachable (match scheme with
                                 | Dilithium => DILITHIUM_BASES
                                 | Falcon => FALCON_BASES
                                 end) ;;
      match sigBase with
      | Some EmptyString | None => throw (Error_ (schemeName scheme ++ " unreachable"))
      | Some sigBase =>
          signed <- signAndEncapsulate scheme kyberBase sigBase level ;;
          let '(baseSignerLevel, baseSignerKid, (encapsulated, ctx)) := signed in
          decapsulateAndCompare scheme kyberBase payloadHintBytes policyPreferredSig
            baseSignerLevel baseSignerKid encapsulated ctx
      end
  end.

(** The route: a result is the 200 reply, anything thrown is the 502 one.
    [t0] is the log of the calls made before the request. *)
Definition handleSelectAke (reqBody : value) (t0 : Trace) : Reply * Trace :=
  match selectAke reqBody t0 with
  | (Normal result, t) => (Reply200 result, t)
  | (Thrown e, t) => (Reply502 "select_ake_failed" (detailOf e), t)
  end.

End Server.

(** * Specification

    The definitions of this part are not taken from the source; they say, in
    the words of the specification, what the theorems below compare the
    server with. *)

Section Specification.

Variable rt : Runtime.
Variable world : World.

(** The backend at [base] answers a liveness call made after the calls
    [t] with an HTTP response, whatever its status. *)
Definition answersAt (t : Trace) (base : string) : bool :=
  match world t (healthCall base) with
  | Responded _ => true
  | Failed _ _ => false
  end.

(** The candidates [bases] are probed one after the other, starting after
    the calls [t], and none of them answers. *)
Fixpoint noneAnswers (t : Trace) (bases : list string) : bool :=
  match bases with
  | [] => true
  | b :: rest => negb (answersAt t b) && noneAnswers (t ++ [healthCall b])%list rest
  end.

(** A sequential search of [bases] that starts after the calls [t] ends
    with [r], having probed [probed]: the candidates up to the first that
    answers, which is the result, or all of them when none answers. *)
Definition searched (t : Trace) (bases : list string) (r : option string)
    (probed : list string) : Prop :=
  match r with
  | Some b =>
      exists pre post,
        bases = (pre ++ b :: post)%list /\ probed = (pre ++ [b])%list /\
        noneAnswers t pre = true /\
        answersAt (t ++ map healthCall pre)%list b = true
  | None => probed = bases /\ noneAnswers t bases = true
  end.

(** A search found a candidate: "the backend is reachable". *)
Definition found (r : option string) : bool :=
  match r with Some _ => true | None => false end.

(** *** Two searches at once

    A search that runs beside another one is waiting for the probe of [b],
    which it sent after the calls [issued], with [rest] still to try; or it
    has resolved. *)
Inductive Search : Type :=
| Waiting (issued : Trace) (b : string) (rest : list string)
| Resolved (r : option string).

(** A search runs up to its next probe, which it sends. *)
Definition begin (bases : list string) (t : Trace) : Search * Trace :=
  match bases with
  | [] => (Resolved None, t)
  | b :: rest => (Waiting t b rest, (t ++ [healthCall b])%list)
  end.

(** The probe in flight settles: the search resolves with its candidate if
    the backend answered the probe, and goes on to the next candidate
    otherwise. *)
Inductive Settles : Search -> Trace -> Search -> Trace -> Prop :=
| settles_found issued b rest t :
    answersAt issued b = true ->
    Settles (Waiting issued b rest) t (Resolved (Some b)) t
| settles_next issued b rest t :
    answersAt issued b = false ->
    Settles (Waiting issued b rest) t (fst (begin rest t)) (snd (begin rest t)).

(** Two searches move in some order until both have resolved, with [d] and
    [f]. *)
Inductive Interleaved
    : Search -> Search -> Trace -> option string -> option string -> Trace -> Prop :=
| both_resolved d f t :
    Interleaved (Resolved d) (Resolved f) t d f t
| first_moves sd sd' sf t t1 d f t' :
    Settles sd t sd' t1 -> Interleaved sd' sf t1 d f t' ->
    Interleaved sd sf t d f t'
| second_moves sd sf sf' t t1 d f t' :
    Settles sf t sf' t1 -> Interleaved sd sf' t1 d f t' ->
    Interleaved sd sf t d f t'.

(** The searches of [ds] and of [fs] are started one after the other after
    the calls [t], then run together; they end with [d] and [f], the calls
    made being [t']. *)
Definition searchedBoth (ds fs : list string) (t : Trace) (d f : option string)
    (t' : Trace) : Prop :=
  Interleaved (fst (begin ds t)) (fst (begin fs (snd (begin ds t))))
    (snd (begin fs (snd (begin ds t)))) d f t'.

(** What one of two searches that ran together has done, whenever its
    probes were made: [probed] are the candidates up to the result, each
    candidate before the result did not answer its probe, the result did. *)
Definition searchedSometime (bases : list string) (r : option string)
    (probed : list string) : Prop :=
  match r with
  | Some b =>
      exists pre post,
        bases = (pre ++ b :: post)%list /\ probed = (pre ++ [b])%list /\
        Forall (fun x => exists u, answersAt u x = false) pre /\
        (exists u, answersAt u b = true)
  | None => probed = bases /\ Forall (fun x => exists u, answersAt u x = false) bases
  end.

(** What a search that runs beside another one still does from its state:
    it ends with [r] after the further probes [probed]. *)
Definition remaining (s : Search) (r : option string) (probed : list string) : Prop :=
  match s with
  | Resolved r0 => r = r0 /\ probed = []
  | Waiting _ b rest => searchedSometime (b :: rest) r (b :: probed)
  end.

(** "[payloadHintBytes] is a number > 0 and <= 1024", the number being the
    one the value converts to. *)
Definition payloadTight (payloadHintBytes : value) : bool :=
  match ToNumber rt payloadHintBytes with
  | Some (Fin q) => if Qlt_le_dec 0 q then Qle_bool q 1024 else false
  | _ => false
  end.

(** "[policyPreferredSig] names a signature backend that is reachable". *)
Definition preferredReachable (policyPreferredSig : value) (dReach fReach : bool)
    : option Scheme :=
  match policyPreferredSig with
  | VStr name =>
      if (name =? "falcon") then (if fReach then Some Falcon else None)
      else if (name =? "dilithium") then (if dReach then Some Dilithium else None)
      else None
  | _ => None
  end.

(** The rule that decides, in the order of section 4.2. *)
Inductive Rule : Type := PolicyRule | PayloadRule | DefaultRule.

Definition decisionOrder (dReach fReach : bool)
    (payloadHintBytes policyPreferredSig : value) : option (Scheme * Rule) :=
  match preferredReachable policyPreferredSig dReach fReach with
  | Some s => Some (s, PolicyRule)
  | None =>
      if payloadTight payloadHintBytes && fReach then Some (Falcon, PayloadRule)
      else if dReach then Some (Dilithium, DefaultRule)
      else if fReach then Some (Falcon, DefaultRule)
      else None
  end.

Definition decided (d : option (Scheme * Rule)) : completion Scheme :=
  match d with
  | Some (s, _) => Normal s
  | None => Thrown (Error_ "No signature service reachable")
  end.

(** The decision order as far as it goes: when the preference does not
    decide and the payload hint cannot be converted to a number, there is
    no decision, but a TypeError. *)
Definition decidedOrThrown (dReach fReach : bool)
    (payloadHintBytes policyPreferredSig : value) : completion Scheme :=
  match preferredReachable policyPreferredSig dReach fReach,
        ToNumber rt payloadHintBytes with
  | None, None => Thrown TypeError_convert
  | _, _ => decided (decisionOrder dReach fReach payloadHintBytes policyPreferredSig)
  end.

End Specification.

(** An interleaving of two lists: each keeps its order. *)
Inductive Merge {A : Type} : list A -> list A -> list A -> Prop :=
| merge_nil : Merge [] [] []
| merge_left x l r m : Merge l r m -> Merge (x :: l) r (x :: m)
| merge_right x l r m : Merge l r m -> Merge l (x :: r) (x :: m).

(** A value whose conversion to a string or to a number throws: an object
    with a property of its own named [toString], or an array that holds
    such a value. *)
Fixpoint unconvertible (v : value) : bool :=
  match v with
  | VObj fields => hasOwn "toString" fields
  | VArr items =>
      (fix any (l : list value) : bool :=
         match l with
         | [] => false
         | x :: rest => unconvertible x || any rest
         end) items
  | _ => false
  end.

(** ** Specification of [deriveRotationAlgorithm] *)

(** What it is for a pattern to match a prefix of [s], leaving [rest] and
    extending the captures. *)
Inductive Matches : regex -> string -> string -> captures -> captures -> Prop :=
| MLit l rest caps :
    Matches (RLit l) (l ++ rest) rest caps caps
| MSet members c rest caps :
    memberOf c members = true ->
    Matches (RSet members) (String c rest) rest caps caps
| MRange lo hi c rest caps :
    inRange lo hi c = true ->
    Matches (RRange lo hi) (String c rest) rest caps caps
| MSeq r1 r2 s s1 s2 c c1 c2 :
    Matches r1 s s1 c c1 -> Matches r2 s1 s2 c1 c2 ->
    Matches (RSeq r1 r2) s s2 c c2
| MAltL r1 r2 s s1 c c1 :
    Matches r1 s s1 c c1 -> Matches (RAlt r1 r2) s s1 c c1
| MAltR r1 r2 s s1 c c1 :
    Matches r2 s s1 c c1 -> Matches (RAlt r1 r2) s s1 c c1
| MOptSome r s s1 c c1 :
    Matches r s s1 c c1 -> Matches (ROpt r) s s1 c c1
| MOptNone r s c :
    Matches (ROpt r) s s c c
| MGroup n r s s1 c c1 :
    Matches r s s1 c c1 ->
    Matches (RGroup n r) s s1 c ((n, consumed s s1) :: c1).

(** The supported levels, as the digit the patterns capture. *)
Definition levelDigit (c : ascii) : bool := inRange "1" "5" c.

Fixpoint noLevelDigit (s : string) : bool :=
  match s with
  | EmptyString => true
  | String c rest => negb (levelDigit c) && noLevelDigit rest
  end.

Definition digitLevel (c : ascii) : Z := (Z.of_N (code c) - 48)%Z.

(** An explicit scheme and level at the start of [s]: the name of a
    scheme, then at most one separator (a hyphen, an underscore or a
    space), then at most one letter l, then a level digit. *)
Definition explicitAt (name : string) (d : ascii) (s : string) : Prop :=
  (name = "falcon" \/ name = "dilithium") /\ levelDigit d = true /\
  exists sep l post,
    (sep = "" \/ sep = "-" \/ sep = "_" \/ sep = " ") /\ (l = "" \/ l = "l") /\
    s = name ++ sep ++ l ++ String d post.

(** No explicit scheme and level starts anywhere in [s]. *)
Definition explicitNowhere (s : string) : Prop :=
  forall pre rest name d, s = pre ++ rest -> ~ explicitAt name d rest.

(** The first explicit scheme and level of [s], from the left, is [name]
    with the level [d]. *)
Definition firstExplicit (name : string) (d : ascii) (s : string) : Prop :=
  exists pre rest,
    s = pre ++ rest /\ explicitAt name d rest /\
    forall pre' rest' name' d',
      s = pre' ++ rest' -> (String.length pre' < String.length pre)%nat ->
      ~ explicitAt name' d' rest'.

(** The first level digit of [s], from the left, is [d]. *)
Definition firstLevelDigit (d : ascii) (s : string) : Prop :=
  exists pre post,
    s = pre ++ String d post /\ levelDigit d = true /\ noLevelDigit pre = true.

(** [n] is the integer nearest to [q], the upper one of two that are
    equally near, brought into 1..5. *)
Definition roundedLevel (q : Q) (n : Z) : Prop :=
  (1 <= n <= 5)%Z /\
  ((q < 3 # 2)%Q -> n = 1%Z) /\
  ((9 # 2 <= q)%Q -> n = 5%Z) /\
  ((3 # 2 <= q)%Q -> (q < 9 # 2)%Q ->
   (inject_Z n - (1 # 2) <= q)%Q /\ (q < inject_Z n + (1 # 2))%Q).

(** ** Specification of the signing strategy chain *)

Section ChainSpecification.

Variable submit : SigningContext -> M value.

(** How one strategy attempt ends: the context could not be built, it was
    built but lacks a field, the verify-and-encapsulate call failed with a
    verification-specific error, it failed otherwise, or it succeeded. *)
Inductive Attempt : Type :=
| ConstructionFailed (e : JsError) (t1 : Trace)
| Incomplete (ctx : SigningContext) (t1 : Trace)
| VerificationFailed (err : JsError) (t2 : Trace)
| Fatal (err : JsError) (t2 : Trace)
| Verified (res : value) (ctx : SigningContext) (t2 : Trace).

Definition attemptOf (getContext : M SigningContext) (t : Trace) : Attempt :=
  match getContext t with
  | (Thrown e, t1) => ConstructionFailed e t1
  | (Normal ctx, t1) =>
      if incomplete ctx then Incomplete ctx t1
      else
        match submit ctx t1 with
        | (Normal res, t2) => Verified res ctx t2
        | (Thrown err, t2) =>
            if isSignatureVerificationError err
            then VerificationFailed err t2
            else Fatal err t2
        end
  end.

(** How the chain ends: every strategy was tried and none passed, a fatal
    error stopped it, or a context passed verification.  [last] is the
    latest verification failure. *)
Inductive ChainEnd : Type :=
| Exhausted (last : option JsError) (t : Trace)
| Stopped (err : JsError) (t : Trace)
| Passed (res : value) (ctx : SigningContext) (last : option JsError) (t : Trace).

Fixpoint chainEnd (strategies : list (M SigningContext)) (last : option JsError)
    (t : Trace) : ChainEnd :=
  match strategies with
  | [] => Exhausted last t
  | getContext :: rest =>
      match attemptOf getContext t with
      | ConstructionFailed _ t1 => chainEnd rest last t1
      | Incomplete _ t1 => chainEnd rest last t1
      | VerificationFailed err t2 => chainEnd rest (Some err) t2
      | Fatal err t2 => Stopped err t2
      | Verified res ctx t2 => Passed res ctx last t2
      end
  end.

Definition withLastError (st : LoopState) (err : JsError) : LoopState :=
  {| encapRes := encapRes st; ctxForDecap := ctxForDecap st; lastSigError := Some err |}.

Definition exhaustionError (last : option JsError) : JsError :=
  match last with
  | Some e => e
  | None => Error_ "No signature strategy succeeded"
  end.

(** "The chain fails only when every strategy has been exhausted": a
    failure of the chain is either the fatal error that stopped it, or
    comes after the last strategy. *)
Definition failsOnlyWhenExhausted (strategies : list (M SigningContext)) (t : Trace)
    : Prop :=
  forall e t',
    signingChain submit strategies t = (Thrown e, t') ->
    match chainEnd strategies None t with
    | Exhausted last _ => e = exhaustionError last
    | Stopped err _ => e = err
    | Passed _ _ _ _ => False
    end.

End ChainSpecification.

(** ** Specification of the result *)


Definition signatureBases (env : Env) (scheme : Scheme) : list string :=
  match scheme with
  | Dilithium => DILITHIUM_BASES env
  | Falcon => FALCON_BASES env
  end.

(** The reason of the result as a string, where it can be assembled: the
    preference, when there is one, has to convert to a string, and
    otherwise a truthy hint has to convert to a number. *)
Definition reasonText (rt : Runtime) (payloadHintBytes policyPreferredSig : value)
    : option string :=
  if ToBoolean policyPreferredSig
  then option_map (fun name => "policy:" ++ name) (ToString rt policyPreferredSig)
  else if ToBoolean payloadHintBytes
  then option_map (fun small : bool => if small then "payload_tight"
                                       else "default_or_health")
         (le_num rt payloadHintBytes (ofZ 1024))
  else Some "default_or_health".



(** ** Specification of the ordering against the KEM backend *)



(** The call is a liveness probe of a candidate address of a signature
    backend. *)
Definition signatureProbe (env : Env) (c : Call) : Prop :=
  exists b,
    In b (DILITHIUM_BASES env ++ FALCON_BASES env)%list /\ c = healthCall b.

(** The call is a liveness probe of a candidate address. *)
Definition livenessProbe (env : Env) (c : Call) : Prop :=
  exists b,
    In b (KYBER_BASES env ++ DILITHIUM_BASES env ++ FALCON_BASES env)%list /\
    c = healthCall b.


(** ** Worlds for the examples

    A runtime whose two open conversions are never reached by the examples,
    the environment without overrides, and backends that answer by URL. *)

Definition stubRuntime : Runtime :=
  {| numberToString_other := fun _ => ""; stringToNumber_other := fun _ => NaN |}.

Definition defaultEnv : Env :=
  {| KYBER_BASE := None; DILITHIUM_BASE := None; FALCON_BASE := None;
     KEYROTATION_BASE := None; ROTATION_BASE := None |}.

Definition refused : Outcome := Failed TransportError (mkError "TypeError" "fetch failed").

Definition replies200 (j : value) : Outcome :=
  Responded (mkResponse 200 (Delivered (JsonText j)) eq_refl).

Definition replies400 (j : value) : Outcome :=
  Responded (mkResponse 400 (Delivered (JsonText j)) eq_refl).

Fixpoint route (table : list (string * Outcome)) (u : string) : Outcome :=
  match table with
  | [] => refused
  | (k, o) :: rest => if (k =? u) then o else route rest u
  end.

(** Of the two requests in flight that the world is asked about, the one
    named first settles first. *)
Definition byUrl (table : list (string * Outcome)) : World :=
  {| reply := fun _ c => route table (url c);
     settlesFirst := fun _ _ _ => true |}.

Definition kyberService : list (string * Outcome) :=
  [("http://localhost:8080/health", replies200 (VObj []));
   ("http://localhost:8080/kyber/generate-keypair",
      replies200 (VObj [("publicKey", VStr "PK0"); ("secretKey", VStr "SK0")]));
   ("http://localhost:8080/kyber/decapsulate",
      replies200 (VObj [("sharedSecret", VStr "SS0")]))].

Definition falconService : list (string * Outcome) :=
  [("http://localhost:8083/health", replies200 (VObj []));
   ("http://localhost:8083/orchestrator/signer",
      replies200 (VObj [("signerPublicKey", VStr "SPK-F"); ("level", VStr "Falcon-1024")]));
   ("http://localhost:8083/falcon/sign", replies200 (VObj [("signature", VStr "SIG-F")]));
   ("http://localhost:8083/orchestrator/encapsulate-verified",
      replies200 (VObj [("ciphertext", VStr "CT"); ("sharedSecret", VStr "SS0")]))].

Definition dilithiumService : list (string * Outcome) :=
  [("http://localhost:8081/health", replies200 (VObj []));
   ("http://localhost:8081/orchestrator/signer",
      replies200 (VObj [("signerPublicKey", VStr "SPK-D"); ("level", VStr "Dilithium3")]));
   ("http://localhost:8081/dilithium/sign", replies200 (VObj [("signature", VStr "SIG-D")]));
   ("http://localhost:8081/orchestrator/encapsulate-verified",
      replies200 (VObj [("ciphertext", VStr "CT"); ("sharedSecret", VStr "SS0")]))].

(** Every backend but the rotation service is up. *)
Definition healthyWorld : World :=
  byUrl (kyberService ++ dilithiumService ++ falconService)%list.

(** Falcon is down. *)
Definition falconDownWorld : World := byUrl (kyberService ++ dilithiumService)%list.

(** Kyber is down, both signature backends are up. *)
Definition kemDownWorld : World := byUrl (dilithiumService ++ falconService)%list.

(** Falcon answers the verify-and-encapsulate call with status 200 and the
    body [null]; it also offers the bootstrap call. *)
Definition nullEncapsulationWorld : World :=
  byUrl ([("http://localhost:8083/orchestrator/encapsulate-verified", replies200 VNull);
          ("http://localhost:8083/orchestrator/bootstrap",
             replies200 (VObj [("signature", VStr "SIG-B");
                               ("kyberPublicKey", VStr "PK-B");
                               ("kyberSecretKey", VStr "SK-B")]))]
         ++ kyberService ++ falconService)%list.

(** The Kyber backend returns another secret than the one encapsulated. *)
Definition mismatchWorld : World :=
  byUrl ([("http://localhost:8080/kyber/decapsulate",
             replies200 (VObj [("sharedSecret", VStr "SS-X")]))]
         ++ kyberService ++ dilithiumService ++ falconService)%list.

(** Falcon refuses direct signing, and its bootstrap call returns a
    signature with the public key it signed but no secret key. *)
Definition partialBootstrapWorld : World :=
  byUrl ([("http://localhost:8083/falcon/sign",
             replies400 (VObj [("error", VStr "privateKey required")]));
          ("http://localhost:8083/orchestrator/bootstrap",
             replies200 (VObj [("signature", VStr "SIG-B");
                               ("kyberPublicKey", VStr "PK-B")]));
          ("http://localhost:8083/orchestrator/encapsulate-verified",
             replies200 (VObj [("ciphertext", VStr "CT-B"); ("sharedSecret", VStr "SS-B")]))]
         ++ kyberService ++ falconService)%list.

(** The contexts and calls of the examples. *)

Definition falconBase : string := "http://localhost:8083".

Definition falconSubmit : SigningContext -> M value :=
  encapsulateVerified stubRuntime healthyWorld Falcon falconBase (VStr "Falcon-1024").

(** A call that would fail on an incomplete context. *)
Definition guardedSubmit (ctx : SigningContext) : M value :=
  if incomplete ctx then throw (Error_ "incomplete context submitted")
  else falconSubmit ctx.

Definition fullContext : SigningContext :=
  {| source := "direct"; signature := VStr "SIG-F"; signerPublicKey := VStr "SPK-F";
     signerLevel := VStr "Falcon-1024"; signerKid := VUndefined;
     kyberPublicKey := VStr "PK0"; kyberSecretKey := VStr "SK0";
     isCompressed := VUndefined |}.

Definition contextWithoutSecretKey : SigningContext :=
  {| source := "bootstrap"; signature := VStr "SIG-B"; signerPublicKey := VStr "SPK-F";
     signerLevel := VStr "Falcon-1024"; signerKid := VUndefined;
     kyberPublicKey := VStr "PK-B"; kyberSecretKey := VUndefined;
     isCompressed := VUndefined |}.

(** The strategies of a Falcon request whose keypair is [PK0]/[SK0], with
    no rotation service. *)
Definition falconStrategies (world : World) : list (M SigningContext) :=
  signatureStrategies stubRuntime world Falcon falconBase (VStr "PK0") (VStr "SK0")
    (VStr "SPK-F") (VStr "Falcon-1024") VUndefined "falcon-l1" None.

Definition prefersFalcon : value := VObj [("policyPreferredSig", VStr "falcon")].

(** A parsed object with a property of its own named [toString], as a
    payload hint and as a preference. *)
Definition ownToString : value := VObj [("toString", VNum (ofZ 1))].

Definition hintIsAnObject : value := VObj [("payloadHintBytes", ownToString)].


Definition hint512 : value := VObj [("payloadHintBytes", VStr "512")].

(** * The rest of the server and its tests *)

(** ** [GET /health] *)

Section HealthRoute.

Variable env : Env.
Variable world : World.

Record Backend : Type := {
  reachable : bool;
  base : option string
}.

Record HealthReport : Type := {
  healthStatus : string;
  kyber : Backend;
  dilithium : Backend;
  falcon : Backend;
  rotation : Backend
}.

(** [{ reachable: !!b, base: b }] *)
Definition backendOf (b : option string) : Backend :=
  {| reachable := isBase b; base := b |}.

Definition handleHealth : M HealthReport :=
  kb <- firstReachable world (KYBER_BASES env) ;;
  db <- firstReachable world (DILITHIUM_BASES env) ;;
  fb <- firstReachable world (FALCON_BASES env) ;;
  rb <- firstReachable world (KEYROTATION_BASES env) ;;
  ret {| healthStatus := if isBase kb && (isBase db || isBase fb) then "ok" else "degraded";
         kyber := backendOf kb;
         dilithium := backendOf db;
         falcon := backendOf fb;
         rotation := backendOf rb |}.

End HealthRoute.

(** The body of the reply, as a client parses it. *)
Definition backendJSON (b : Backend) : value :=
  VObj [("reachable", VBool (reachable b));
        ("base", match base b with Some s => VStr s | None => VNull end)].

Definition healthJSON (report : HealthReport) : value :=
  VObj [("status", VStr (healthStatus report));
        ("kyber", backendJSON (kyber report));
        ("dilithium", backendJSON (dilithium report));
        ("falcon", backendJSON (falcon report));
        ("rotation", backendJSON (rotation report))].

(** ** [tests/integration/health_semantics.mjs]

    What the test's [getJSON] hands back: [{ ok, status, json }]. *)
Record TestResponse : Type := {
  respOk : bool;
  respStatus : Z;
  respJson : value
}.

Inductive TestOutcome : Type :=
| TestPassed
| TestSkipped (why : string).

(** [a && b] *)
Definition and_ (a b : value) : value := if ToBoolean a then b else a.

(** [testHealthSemantics], from the response to [GET /health] on. *)
Definition testHealthSemantics (rt : Runtime) (h : TestResponse) : completion TestOutcome :=
  if negb (respOk h) then Thrown (Error_ "orchestrator not reachable")
  else if isNullish (respJson h)
  then Thrown (mkError "TypeError"
                 ("Cannot destructure property 'status' of 'h.json' as it is " ++
                  (match respJson h with VNull => "null" | _ => "undefined" end) ++ "."))
  else
    let status := prop (respJson h) "status" in
    let kyberPart := prop (respJson h) "kyber" in
    let dilithiumPart := prop (respJson h) "dilithium" in
    let falconPart := prop (respJson h) "falcon" in
    if negb (ToBoolean kyberPart)
    then Normal (TestSkipped "health payload missing kyber")
    else
      let anySigReachable :=
        ToBoolean (or_ (optProp dilithiumPart "reachable") (optProp falconPart "reachable")) in
      let expectOk := and_ (prop kyberPart "reachable") (VBool anySigReachable) in
      if ToBoolean expectOk && negb (strictEq status (VStr "ok"))
      then Thrown (match ToString rt status with
                   | Some shown => Error_ ("expected status ok, got " ++ shown)
                   | None => TypeError_convert
                   end)
      else if negb (ToBoolean expectOk) && negb (strictEq status (VStr "degraded"))
      then Thrown (match ToString rt status with
                   | Some shown => Error_ ("expected status degraded, got " ++ shown)
                   | None => TypeError_convert
                   end)
      else if ToBoolean (prop kyberPart "base") && negb (ToBoolean (prop kyberPart "reachable"))
      then Thrown (Error_ "kyber.base set while not reachable")
      else if ToBoolean (optProp dilithiumPart "base")
              && negb (ToBoolean (prop dilithiumPart "reachable"))
      then Thrown (Error_ "dilithium.base set while not reachable")
      else if ToBoolean (optProp falconPart "base")
              && negb (ToBoolean (prop falconPart "reachable"))
      then Thrown (Error_ "falcon.base set while not reachable")
      else Normal TestPassed.

(** ** Further specification *)

(** Running [m] only appends to the log, and at most [n] calls. *)
Definition addsAtMost {A : Type} (n : nat) (m : M A) : Prop :=
  forall t, exists added, snd (m t) = (t ++ added)%list /\ (List.length added <= n)%nat.

(** The first truthy value of an [||] chain, or its last operand. *)
Fixpoint firstTruthy (operands : list value) : value :=
  match operands with
  | [] => VUndefined
  | [x] => x
  | x :: rest => if ToBoolean x then x else firstTruthy rest
  end.

(** The names under which the direct and the bootstrap strategy look for
    the signature, in the order of the [||] chain. *)
Definition directAliases : list string :=
  ["signature"; "signatureBase64"; "sig"; "signatureB64"].

(** The four phrases [isSignatureVerificationError] looks for. *)
Definition verificationPhrases : list string :=
  ["signature_verification_failed"; "signature verification failed";
   "signature mismatch"; "invalid signature"].

(** The ten identifiers of the supported algorithms and levels. *)
Definition rotationAlgorithms : list string :=
  ["falcon-l1"; "falcon-l2"; "falcon-l3"; "falcon-l4"; "falcon-l5";
   "dilithium-l1"; "dilithium-l2"; "dilithium-l3"; "dilithium-l4"; "dilithium-l5"].

(** The fixed candidates that follow the override of each backend. *)
Definition defaultBases (port : string) : list string :=
  ["http://localhost:" ++ port; "http://127.0.0.1:" ++ port;
   "http://host.docker.internal:" ++ port].

(** The signing backend rejects a signature with status 400 and a
    verification error in the body, for every strategy. *)
Definition rejectingWorld : World :=
  byUrl ([("http://localhost:8083/orchestrator/encapsulate-verified",
             replies400 (VObj [("error", VStr "Signature verification failed")]));
          ("http://localhost:8083/orchestrator/bootstrap",
             replies200 (VObj [("signature", VStr "SIG-B");
                               ("kyberPublicKey", VStr "PK-B");
                               ("kyberSecretKey", VStr "SK-B")]))]
         ++ kyberService ++ falconService)%list.

(** A rotation service is up next to the healthy backends; it has a current
    key and signs. *)
Definition rotationWorld : World :=
  byUrl ([("http://localhost:8092/health", replies200 (VObj []));
          ("http://localhost:8092/orchestrator/keys/current?alg=falcon-l1",
             replies200 (VObj [("publicKey", VStr "ROTATION-PUBLIC-KEY-0001");
                               ("kid", VStr "kid-1")]));
          ("http://localhost:8092/sign",
             replies200 (VObj [("signatureB64", VStr "SIG-R")]))]
         ++ kyberService ++ dilithiumService ++ falconService)%list.

(** The backends answer a call the same way whenever it is made. *)
Definition stationary (world : World) : Prop :=
  forall t t' c, world t c = world t' c.

(** The signer endpoint of Falcon answers with status 400 and a JSON body;
    everything else is healthy. *)
Definition signerErrorWorld : World :=
  byUrl ([("http://localhost:8083/orchestrator/signer",
             replies400 (VObj [("error", VStr "signer offline")]))]
         ++ kyberService ++ dilithiumService ++ falconService)%list.

(** Kyber is up, both signature backends are down. *)
Definition signersDownWorld : World := byUrl kyberService.

(** A Kyber backend configured through the environment, and up. *)
Definition configuredKyber : string := "http://kyber.internal:8080".

Definition overrideEnv : Env :=
  {| KYBER_BASE := Some configuredKyber; DILITHIUM_BASE := None; FALCON_BASE := None;
     KEYROTATION_BASE := None; ROTATION_BASE := None |}.

Definition overrideWorld : World :=
  byUrl [("http://kyber.internal:8080/health", replies200 (VObj []))].

(** The requests of the integration tests. *)
Definition prefersDilithiumOnTinyPayload : value :=
  VObj [("payloadHintBytes", VNum (ofZ 256)); ("policyPreferredSig", VStr "dilithium")].

Definition largePayload : value := VObj [("payloadHintBytes", VNum (ofZ 4096))].

Definition signerCall : Call :=
  mkCall GET "http://localhost:8083/orchestrator/signer" None.

Definition signerError : value := VObj [("error", VStr "signer offline")].

Definition rejection : value := VObj [("error", VStr "Signature verification failed")].

Definition falconDirect : M SigningContext :=
  directStrategy stubRuntime healthyWorld Falcon falconBase (VStr "PK0") (VStr "SK0")
    (VStr "SPK-F") (VStr "Falcon-1024") VUndefined.

(** * Properties *)

Section Probing.

Variable world : World.

Lemma probe_run (base : string) (t : Trace) :
  probe world base t = (Normal (answersAt world t base), (t ++ [healthCall base])%list).
Proof.
  unfold probe, withTimeout, tryCatch, bind, fetch, answersAt.
  destruct (world t (healthCall base)) as [r | kind e]; simpl.
  - now rewrite (status_final r), orb_true_r.
  - reflexivity.
Qed.

Lemma firstReachable_cons (b : string) (rest : list string) (t : Trace) :
  firstReachable world (b :: rest) t =
  if answersAt world t b
  then (Normal (Some b), (t ++ [healthCall b])%list)
  else firstReachable world rest (t ++ [healthCall b])%list.
Proof.
  simpl. unfold bind at 1. rewrite probe_run.
  now destruct (answersAt world t b).
Qed.

(** [firstReachable] never throws; it returns with the log extended by the
    probes it made, in list order. *)
Lemma firstReachable_run (bases : list string) (t : Trace) :
  exists r t1,
    firstReachable world bases t = (Normal r, t1) /\
    match r with
    | Some b =>
        exists pre post,
          bases = (pre ++ b :: post)%list /\
          noneAnswers world t pre = true /\
          answersAt world (t ++ map healthCall pre)%list b = true /\
          t1 = (t ++ map healthCall (pre ++ [b]))%list
    | None =>
        noneAnswers world t bases = true /\
        t1 = (t ++ map healthCall bases)%list
    end.
Proof.
  revert t. induction bases as [| b rest IH]; intro t.
  - exists None, t. simpl. now rewrite app_nil_r.
  - rewrite firstReachable_cons.
    destruct (answersAt world t b) eqn:Hb.
    + exists (Some b), (t ++ [healthCall b])%list. split; [reflexivity |].
      exists [], rest. simpl. now rewrite app_nil_r.
    + destruct (IH (t ++ [healthCall b])%list) as (r & t1 & Hrun & Hr).
      exists r, t1. split; [exact Hrun |].
      destruct r as [c |].
      * destruct Hr as (pre & post & -> & Hnone & Hc & ->).
        exists (b :: pre), post. simpl.
        rewrite <- app_assoc in Hc. simpl in Hc.
        rewrite Hb, Hnone, <- !app_assoc. simpl. repeat split; assumption.
      * destruct Hr as [Hnone ->].
        simpl. rewrite Hb, Hnone, <- app_assoc. now simpl.
Qed.

(** C9. [probe] answers [true] for every response [fetch] resolves with,
    whatever its status, and [false] for a transport error, a malformed
    response or a timeout; [firstReachable] probes the candidates one after
    the other in list order and returns the first that answers, or [null]
    when none does. *)
Theorem probe_and_firstReachable (bases : list string) (base : string) (t : Trace) :
  (probe world base t =
     (Normal (match world t (healthCall base) with
              | Responded _ => true
              | Failed TransportError _ => false
              | Failed MalformedResponse _ => false
              | Failed Timeout _ => false
              end),
      (t ++ [healthCall base])%list)) /\
  (exists r t1,
     firstReachable world bases t = (Normal r, t1) /\
     match r with
     | Some b =>
         exists pre post,
           bases = (pre ++ b :: post)%list /\
           noneAnswers world t pre = true /\
           answersAt world (t ++ map healthCall pre)%list b = true /\
           t1 = (t ++ map healthCall (pre ++ [b]))%list
     | None =>
         noneAnswers world t bases = true /\
         t1 = (t ++ map healthCall bases)%list
     end).
Proof.
  split.
  - rewrite probe_run. unfold answersAt.
    now destruct (world t (healthCall base)) as [r | [] e].
  - apply firstReachable_run.
Qed.

(** ** Two searches at once *)

Lemma race_step (dRest : list string) (dB : string) (dUp : completion bool)
    (fRest : list string) (fB : string) (fUp : completion bool) (t : Trace) :
  race world dRest dB dUp fRest fB fUp t =
  if settlesFirst world t (healthCall dB) (healthCall fB)
  then
    match dUp with
    | Normal true => (f <- resume world fB fUp fRest ;; ret (Some dB, f)) t
    | Normal false =>
        match dRest with
        | b :: rest =>
            let (up, t1) := probe world b t in race world rest b up fRest fB fUp t1
        | [] => (f <- resume world fB fUp fRest ;; ret (None, f)) t
        end
    | Thrown e => (Thrown e, t)
    end
  else
    match fUp with
    | Normal true => (d <- resume world dB dUp dRest ;; ret (d, Some fB)) t
    | Normal false =>
        match fRest with
        | b :: rest =>
            let (up, t1) := probe world b t in race world dRest dB dUp rest b up t1
        | [] => (d <- resume world dB dUp dRest ;; ret (d, None)) t
        end
    | Thrown e => (Thrown e, t)
    end.
Proof. destruct dRest, fRest; reflexivity. Qed.

(** A search that runs on alone is the sequential one. *)
Lemma resume_first (rest : list string) :
  forall (b : string) (issued : Trace) (f : option string) (t : Trace),
  exists d t',
    resume world b (Normal (answersAt world issued b)) rest t = (Normal d, t') /\
    Interleaved world (Waiting issued b rest) (Resolved f) t d f t'.
Proof.
  induction rest as [| b' rest IH]; intros b issued f t; unfold resume;
    destruct (answersAt world issued b) eqn:Hb.
  - exists (Some b), t. split; [reflexivity |].
    eapply first_moves; [now apply settles_found | apply both_resolved].
  - exists None, t. split; [reflexivity |].
    eapply first_moves; [exact (settles_next world issued b [] t Hb) | apply both_resolved].
  - exists (Some b), t. split; [reflexivity |].
    eapply first_moves; [now apply settles_found | apply both_resolved].
  - destruct (IH b' t f (t ++ [healthCall b'])%list) as (d & t' & Hrun & Hint).
    exists d, t'. split.
    + rewrite firstReachable_cons. unfold resume in Hrun.
      now destruct (answersAt world t b').
    + eapply first_moves; [exact (settles_next world issued b (b' :: rest) t Hb) |].
      exact Hint.
Qed.

Lemma resume_second (rest : list string) :
  forall (b : string) (issued : Trace) (d : option string) (t : Trace),
  exists f t',
    resume world b (Normal (answersAt world issued b)) rest t = (Normal f, t') /\
    Interleaved world (Resolved d) (Waiting issued b rest) t d f t'.
Proof.
  induction rest as [| b' rest IH]; intros b issued d t; unfold resume;
    destruct (answersAt world issued b) eqn:Hb.
  - exists (Some b), t. split; [reflexivity |].
    eapply second_moves; [now apply settles_found | apply both_resolved].
  - exists None, t. split; [reflexivity |].
    eapply second_moves; [exact (settles_next world issued b [] t Hb) | apply both_resolved].
  - exists (Some b), t. split; [reflexivity |].
    eapply second_moves; [now apply settles_found | apply both_resolved].
  - destruct (IH b' t d (t ++ [healthCall b'])%list) as (f & t' & Hrun & Hint).
    exists f, t'. split.
    + rewrite firstReachable_cons. unfold resume in Hrun.
      now destruct (answersAt world t b').
    + eapply second_moves; [exact (settles_next world issued b (b' :: rest) t Hb) |].
      exact Hint.
Qed.

(** The two searches of the model move as two searches can. *)
Lemma race_interleaved (dRest : list string) :
  forall (dB : string) (dIssued : Trace) (fRest : list string) (fB : string)
         (fIssued t : Trace),
  exists d f t',
    race world dRest dB (Normal (answersAt world dIssued dB))
      fRest fB (Normal (answersAt world fIssued fB)) t = (Normal (d, f), t') /\
    Interleaved world (Waiting dIssued dB dRest) (Waiting fIssued fB fRest) t d f t'.
Proof.
  induction dRest as [| d2 dRest IHd]; intros dB dIssued fRest;
    induction fRest as [| f2 fRest IHf]; intros fB fIssued t;
    rewrite race_step;
    destruct (settlesFirst world t (healthCall dB) (healthCall fB));
    (destruct (answersAt world dIssued dB) eqn:Hd);
    (destruct (answersAt world fIssued fB) eqn:Hf);
    try (rewrite probe_run);
    match goal with
    | |- context [bind (resume world fB ?up ?rest) (fun f => ret (?d, f))] =>
        let f := fresh "f" in
        let t' := fresh "t'" in
        let Hrun := fresh "Hrun" in
        let Hint := fresh "Hint" in
        destruct (resume_second rest fB fIssued d t) as (f & t' & Hrun & Hint);
        rewrite ?Hd, ?Hf in Hrun;
        exists d, f, t'; split; [unfold bind; now rewrite Hrun |];
        eapply first_moves; [| exact Hint];
        first [ now apply settles_found
              | exact (settles_next world dIssued dB [] t Hd) ]
    | |- context [bind (resume world dB ?up ?rest) (fun d => ret (d, ?f))] =>
        let d := fresh "d" in
        let t' := fresh "t'" in
        let Hrun := fresh "Hrun" in
        let Hint := fresh "Hint" in
        destruct (resume_first rest dB dIssued f t) as (d & t' & Hrun & Hint);
        rewrite ?Hd, ?Hf in Hrun;
        exists d, f, t'; split; [unfold bind; now rewrite Hrun |];
        eapply second_moves; [| exact Hint];
        first [ now apply settles_found
              | exact (settles_next world fIssued fB [] t Hf) ]
    | |- context [race world dRest d2 (Normal (answersAt world t d2)) ?fr fB _ _] =>
        let d := fresh "d" in
        let f := fresh "f" in
        let t' := fresh "t'" in
        let Hrun := fresh "Hrun" in
        let Hint := fresh "Hint" in
        destruct (IHd d2 t fr fB fIssued (t ++ [healthCall d2])%list)
          as (d & f & t' & Hrun & Hint);
        rewrite ?Hd, ?Hf in Hrun;
        exists d, f, t'; split; [exact Hrun |];
        eapply first_moves; [| exact Hint];
        exact (settles_next world dIssued dB (d2 :: dRest) t Hd)
    | |- context [race world ?dr dB _ fRest f2 (Normal (answersAt world t f2)) _] =>
        let d := fresh "d" in
        let f := fresh "f" in
        let t' := fresh "t'" in
        let Hrun := fresh "Hrun" in
        let Hint := fresh "Hint" in
        destruct (IHf f2 t (t ++ [healthCall f2])%list)
          as (d & f & t' & Hrun & Hint);
        rewrite ?Hd, ?Hf in Hrun;
        exists d, f, t'; split; [exact Hrun |];
        eapply second_moves; [| exact Hint];
        exact (settles_next world fIssued fB (f2 :: fRest) t Hf)
    end.
Qed.

Lemma searchBoth_run (ds fs : list string) (t : Trace) :
  exists d f t',
    searchBoth world ds fs t = (Normal (d, f), t') /\
    searchedBoth world ds fs t d f t'.
Proof.
  unfold searchedBoth. destruct ds as [| d1 dRest].
  - destruct fs as [| f1 fRest].
    + exists None, None, t. split; [reflexivity | apply both_resolved].
    + destruct (resume_second fRest f1 t None (t ++ [healthCall f1])%list)
        as (f & t' & Hrun & Hint).
      exists None, f, t'. split; [| exact Hint].
      unfold searchBoth, bind. rewrite firstReachable_cons. unfold resume in Hrun.
      destruct (answersAt world t f1); [now inversion Hrun | now rewrite Hrun].
  - destruct fs as [| f1 fRest].
    + destruct (resume_first dRest d1 t None (t ++ [healthCall d1])%list)
        as (d & t' & Hrun & Hint).
      exists d, None, t'. split; [| exact Hint].
      unfold searchBoth, bind. rewrite firstReachable_cons. unfold resume in Hrun.
      destruct (answersAt world t d1); [now inversion Hrun | now rewrite Hrun].
    + destruct (race_interleaved dRest d1 t fRest f1 (t ++ [healthCall d1])%list
                  ((t ++ [healthCall d1]) ++ [healthCall f1])%list)
        as (d & f & t' & Hrun & Hint).
      exists d, f, t'. split; [| exact Hint].
      unfold searchBoth. now rewrite !probe_run.
Qed.

(** *** What two searches that ran together have done *)

Lemma searchedSometime_cons (b : string) (bases : list string) (r : option string)
    (probed : list string) :
  (exists u, answersAt world u b = false) ->
  searchedSometime world bases r probed ->
  searchedSometime world (b :: bases) r (b :: probed).
Proof.
  intros Hb H. destruct r as [x |]; simpl in *.
  - destruct H as (pre & post & -> & -> & Hpre & Hx).
    exists (b :: pre), post. repeat split; auto.
  - destruct H as [-> H]. split; [reflexivity | now constructor].
Qed.

Lemma Merge_app_left (A : Type) (extra l r m : list A) :
  Merge l r m -> Merge (extra ++ l) r (extra ++ m).
Proof. intro H. induction extra as [| x extra IH]; [exact H | now apply merge_left]. Qed.

Lemma Merge_app_right (A : Type) (extra l r m : list A) :
  Merge l r m -> Merge l (extra ++ r) (extra ++ m).
Proof. intro H. induction extra as [| x extra IH]; [exact H | now apply merge_right]. Qed.

Lemma Merge_length (A : Type) (l r m : list A) :
  Merge l r m -> List.length m = (List.length l + List.length r)%nat.
Proof. induction 1; simpl; lia. Qed.

Lemma Merge_In (A : Type) (l r m : list A) (x : A) :
  Merge l r m -> In x m -> In x l \/ In x r.
Proof. induction 1; simpl; intuition. Qed.

(** One move of a search, seen from its end. *)
Lemma settles_remaining (s s' : Search) (u u' : Trace) (r : option string)
    (p : list string) :
  Settles world s u s' u' ->
  remaining world s' r p ->
  exists extra,
    u' = (u ++ map healthCall extra)%list /\ remaining world s r (extra ++ p).
Proof.
  intros Hs Hr. destruct Hs as [issued b rest t Hb | issued b rest t Hb].
  - destruct Hr as [-> ->]. exists []. split; [now rewrite app_nil_r |].
    exists [], rest. repeat split; eauto.
  - destruct rest as [| b' rest]; simpl in *.
    + destruct Hr as [-> ->]. exists []. split; [now rewrite app_nil_r |].
      simpl. split; [reflexivity | constructor; eauto].
    + exists [b']. split; [reflexivity |].
      apply searchedSometime_cons; [eauto | exact Hr].
Qed.

(** What two searches that ran together have done between them. *)
Lemma interleaved_searched (sd sf : Search) (t t' : Trace) (d f : option string) :
  Interleaved world sd sf t d f t' ->
  exists pd pf probes,
    t' = (t ++ map healthCall probes)%list /\
    Merge pd pf probes /\
    remaining world sd d pd /\ remaining world sf f pf.
Proof.
  induction 1 as [d f t | sd sd' sf t t1 d f t' Hs Hint IH
                 | sd sf sf' t t1 d f t' Hs Hint IH].
  - exists [], [], []. simpl. rewrite app_nil_r. repeat split; constructor.
  - destruct IH as (pd & pf & probes & -> & Hm & Hd & Hf).
    destruct (settles_remaining _ _ _ _ _ _ Hs Hd) as (extra & -> & Hd').
    exists (extra ++ pd)%list, pf, (extra ++ probes)%list.
    rewrite map_app, app_assoc. repeat split; try assumption.
    now apply Merge_app_left.
  - destruct IH as (pd & pf & probes & -> & Hm & Hd & Hf).
    destruct (settles_remaining _ _ _ _ _ _ Hs Hf) as (extra & -> & Hf').
    exists pd, (extra ++ pf)%list, (extra ++ probes)%list.
    rewrite map_app, app_assoc. repeat split; try assumption.
    now apply Merge_app_right.
Qed.

(** The two searches from their start: the first probe of [ds], then the
    first probe of [fs], then the others in some order. *)
Lemma searchedBoth_probes (ds fs : list string) (t t' : Trace) (d f : option string) :
  searchedBoth world ds fs t d f t' ->
  exists pd pf probes more,
    t' = (t ++ map healthCall probes)%list /\
    Merge pd pf probes /\
    searchedSometime world ds d pd /\ searchedSometime world fs f pf /\
    probes = (firstn 1 ds ++ firstn 1 fs ++ more)%list.
Proof.
  unfold searchedBoth. intro H. apply interleaved_searched in H.
  destruct H as (pd & pf & probes & -> & Hm & Hd & Hf).
  destruct ds as [| d1 dRest]; destruct fs as [| f1 fRest]; simpl in *.
  - destruct Hd as [-> ->]. destruct Hf as [-> ->].
    exists [], [], probes, probes.
    split; [reflexivity | split; [exact Hm | split; [| split; [| reflexivity]]]];
      (split; [reflexivity | constructor]).
  - destruct Hd as [-> ->].
    exists [], (f1 :: pf), (f1 :: probes), probes. rewrite <- app_assoc.
    split; [reflexivity | split; [now apply merge_right | split; [| split]]];
      [split; [reflexivity | constructor] | exact Hf | reflexivity].
  - destruct Hf as [-> ->].
    exists (d1 :: pd), [], (d1 :: probes), probes. rewrite <- app_assoc.
    split; [reflexivity | split; [now apply merge_left | split; [| split]]];
      [exact Hd | split; [reflexivity | constructor] | reflexivity].
  - exists (d1 :: pd), (f1 :: pf), (d1 :: f1 :: probes), probes.
    rewrite <- !app_assoc.
    split; [reflexivity | split; [now apply merge_left, merge_right | split; [| split]]];
      [exact Hd | exact Hf | reflexivity].
Qed.

Lemma searchedSometime_facts (bases : list string) (r : option string)
    (probed : list string) :
  searchedSometime world bases r probed ->
  incl probed bases /\
  (List.length probed <= List.length bases)%nat /\
  (forall b, r = Some b -> In b bases /\ exists u, answersAt world u b = true).
Proof.
  intro H. destruct r as [x |]; simpl in H.
  - destruct H as (pre & post & -> & -> & Hpre & Hx). repeat split.
    + intros y Hy. apply in_app_or in Hy. apply in_or_app.
      destruct Hy as [Hy | [<- | []]]; [now left | right; now left].
    + rewrite !length_app. simpl. lia.
    + inversion H; subst. apply in_elt.
    + inversion H; subst. exact Hx.
  - destruct H as [-> H]. repeat split; try apply incl_refl; try lia; discriminate.
Qed.

(** A search one of whose candidates always answers finds a candidate. *)
Lemma found_when_answering (bases : list string) (r : option string)
    (probed : list string) (b : string) :
  searchedSometime world bases r probed -> In b bases ->
  (forall u, answersAt world u b = true) -> found r = true.
Proof.
  intros H Hin Hb. destruct r as [x |]; [reflexivity |].
  destruct H as [_ H]. rewrite Forall_forall in H.
  destruct (H b Hin) as (u & Hu). rewrite Hb in Hu. discriminate Hu.
Qed.

End Probing.

Lemma filterBoolean_nonempty (l : list (option string)) (b : string) :
  In b (filterBoolean l) -> b <> "".
Proof.
  unfold filterBoolean. rewrite in_flat_map. intros (o & _ & Hb).
  destruct o as [[| c s] |]; simpl in Hb; try tauto.
  destruct Hb as [<- | []]. discriminate.
Qed.

Lemma firstReachable_member (world : World) (bases : list string) (t t1 : Trace)
    (b : string) :
  firstReachable world bases t = (Normal (Some b), t1) -> In b bases.
Proof.
  intro H. destruct (firstReachable_run world bases t) as (r & t' & Hrun & Hr).
  rewrite H in Hrun. inversion Hrun; subst r t'.
  destruct Hr as (pre & post & -> & _). apply in_elt.
Qed.

(** What a search over configured candidates returns is never the empty
    string, so [Boolean] of it tells whether a candidate was found. *)
Lemma isBase_found (world : World) (l : list (option string)) (r : option string)
    (probed : list string) :
  searchedSometime world (filterBoolean l) r probed -> isBase r = found r.
Proof.
  intro H. destruct r as [b |]; [| reflexivity].
  destruct (searchedSometime_facts _ _ _ _ H) as (_ & _ & Hb).
  destruct (Hb b eq_refl) as [Hin _]. apply filterBoolean_nonempty in Hin.
  destruct b; [congruence | reflexivity].
Qed.

(** Induction on values, through the elements of arrays. *)
Lemma value_array_ind (P : value -> Prop) :
  P VUndefined -> P VNull -> (forall b, P (VBool b)) -> (forall n, P (VNum n)) ->
  (forall s, P (VStr s)) ->
  (forall items, Forall P items -> P (VArr items)) ->
  (forall fields, P (VObj fields)) ->
  forall v, P v.
Proof.
  intros Hu Hn Hb Hnum Hs Ha Ho.
  exact (fix prove (v : value) : P v :=
           match v with
           | VUndefined => Hu
           | VNull => Hn
           | VBool b => Hb b
           | VNum n => Hnum n
           | VStr s => Hs s
           | VArr items =>
               Ha items
                 ((fix each (l : list value) : Forall P l :=
                     match l with
                     | [] => Forall_nil P
                     | x :: rest => Forall_cons x (prove x) (each rest)
                     end) items)
           | VObj fields => Ho fields
           end).
Qed.

(** A value cannot be converted exactly when it is an object with its own
    [toString], or an array that holds such a value. *)
Lemma ToString_unconvertible (rt : Runtime) (v : value) :
  ToString rt v = None <-> unconvertible v = true.
Proof.
  induction v as [| | [] | n | s | items IH | fields] using value_array_ind; simpl;
    try (split; discriminate).
  - induction IH as [| x rest Hx Hrest IHrest]; [split; discriminate |].
    assert (Hx' : match x with
                  | VUndefined | VNull => Some ""
                  | _ => ToString rt x
                  end = None <-> unconvertible x = true).
    { destruct x; try exact Hx; simpl; split; discriminate. }
    destruct (match x with VUndefined | VNull => Some "" | _ => ToString rt x end)
      as [first |].
    + destruct (unconvertible x); [destruct Hx' as [_ Hx']; now discriminate Hx' |].
      simpl. destruct rest as [| y rest']; [split; discriminate |].
      rewrite <- IHrest.
      match goal with
      | |- context [match ?j with Some _ => _ | None => _ end] => destruct j
      end; split; congruence.
    + rewrite (proj1 Hx' eq_refl). simpl. tauto.
  - destruct (hasOwn "toString" fields); split; congruence.
Qed.

Lemma ToNumber_unconvertible (rt : Runtime) (v : value) :
  ToNumber rt v = None <-> unconvertible v = true.
Proof.
  rewrite <- (ToString_unconvertible rt).
  destruct v as [| | [] | n | s | items | fields]; simpl; try (split; discriminate);
    match goal with
    | |- context [option_map _ ?o] => destruct o
    end; simpl; split; congruence.
Qed.


Section Selection.

Variable rt : Runtime.
Variable env : Env.
Variable world : World.

Lemma not_lt_is_le (p q : Q) :
  negb (match (p ?= q)%Q with Lt => true | _ => false end) = Qle_bool q p.
Proof.
  destruct (Qle_bool q p) eqn:Hle.
  - apply Qle_bool_iff, Qge_alt in Hle.
    destruct (p ?= q)%Q; try reflexivity. now elim Hle.
  - destruct (p ?= q)%Q eqn:Hc; try reflexivity;
      assert (Hq : (q <= p)%Q) by (apply Qge_alt; rewrite Hc; discriminate);
      apply Qle_bool_iff in Hq; congruence.
Qed.

(** On a number, the tests of lines 118 and 119 together are "> 0 and
    <= 1024". *)
Lemma tight_number (n : number) :
  negb (num_isNaN n) && num_gtb n (ofZ 0) && num_leb n (ofZ 1024) =
  match n with
  | Fin q => if Qlt_le_dec 0 q then Qle_bool q 1024 else false
  | _ => false
  end.
Proof.
  destruct n as [| | | q]; try reflexivity.
  unfold num_gtb, num_leb, ofZ, num_ltb, num_isNaN.
  rewrite not_lt_is_le. simpl negb. simpl andb.
  destruct (Qlt_le_dec 0 q) as [Hlt | Hle].
  - pose proof (proj1 (Qlt_alt 0 q) Hlt) as Hc.
    change ((inject_Z 0 ?= q)%Q = Lt) in Hc. now rewrite Hc.
  - pose proof (proj1 (Qge_alt 0 q) Hle) as Hc.
    change ((inject_Z 0 ?= q)%Q <> Lt) in Hc.
    destruct (inject_Z 0 ?= q)%Q; try reflexivity. now elim Hc.
Qed.

(** The tests of lines 118 and 119 convert the hint, and throw if it cannot
    be converted; otherwise they are [payloadTight]. *)
Lemma hint_tests (v : value) (fReach : bool) (A : Type) (k : bool -> M A) (t : Trace) :
  (guard <- hintGuard rt v ;;
   tight <- (if guard
             then small <- converted (le_num rt v (ofZ 1024)) ;; ret (small && fReach)
             else ret false) ;;
   k tight) t =
  match ToNumber rt v with
  | None => (Thrown TypeError_convert, t)
  | Some _ => k (payloadTight rt v && fReach) t
  end.
Proof.
  unfold hintGuard, isNaN, gt_num, le_num, payloadTight, bind, converted.
  destruct (ToNumber rt v) as [n |]; [| reflexivity].
  rewrite <- tight_number. unfold option_map, ret.
  destruct (num_isNaN n); [reflexivity |]. cbv beta iota delta [negb andb].
  destruct (num_gtb n (ofZ 0)); reflexivity.
Qed.

Lemma strictEq_string (v : value) (name : string) :
  strictEq v (VStr name) = match v with VStr s => (s =? name) | _ => false end.
Proof. now destruct v. Qed.

(** The selector: the two searches, then the decision. *)
Lemma selectSigScheme_run (payloadHintBytes policyPreferredSig : value) (t : Trace) :
  exists d f t2,
    searchBoth world (DILITHIUM_BASES env) (FALCON_BASES env) t = (Normal (d, f), t2) /\
    searchedBoth world (DILITHIUM_BASES env) (FALCON_BASES env) t d f t2 /\
    selectSigScheme rt env world payloadHintBytes policyPreferredSig t =
      (decidedOrThrown rt (found d) (found f) payloadHintBytes policyPreferredSig, t2).
Proof.
  destruct (searchBoth_run world (DILITHIUM_BASES env) (FALCON_BASES env) t)
    as (d & f & t2 & Hrun & Hboth).
  exists d, f, t2. repeat split; try assumption.
  destruct (searchedBoth_probes _ _ _ _ _ _ _ Hboth)
    as (pd & pf & probes & more & _ & _ & Hd & Hf & _).
  unfold selectSigScheme. unfold bind at 1. rewrite Hrun. cbv zeta. cbn [fst snd].
  unfold DILITHIUM_BASES in Hd. unfold FALCON_BASES in Hf.
  rewrite (isBase_found _ _ _ _ Hd), (isBase_found _ _ _ _ Hf).
  unfold decidedOrThrown, decisionOrder, preferredReachable.
  rewrite !strictEq_string.
  destruct policyPreferredSig as [| | b | n | name | items | fields];
    try (cbn [andb]; rewrite hint_tests;
         destruct (ToNumber rt payloadHintBytes); [| reflexivity];
         destruct (payloadTight rt payloadHintBytes), (found d), (found f);
         reflexivity).
  destruct (name =? "falcon") eqn:Hfalcon.
  - apply String.eqb_eq in Hfalcon. subst name.
    destruct (found f); [reflexivity |]. cbn [andb]. simpl (_ =? _)%string.
    cbn [andb]. rewrite hint_tests.
    destruct (ToNumber rt payloadHintBytes); [| reflexivity].
    destruct (payloadTight rt payloadHintBytes), (found d); reflexivity.
  - cbn [andb]. destruct (name =? "dilithium").
    + destruct (found d); [reflexivity |]. cbn [andb]. rewrite hint_tests.
      destruct (ToNumber rt payloadHintBytes); [| reflexivity].
      destruct (payloadTight rt payloadHintBytes), (found f); reflexivity.
    + cbn [andb]. rewrite hint_tests.
      destruct (ToNumber rt payloadHintBytes); [| reflexivity].
      destruct (payloadTight rt payloadHintBytes), (found d), (found f); reflexivity.
Qed.


End Selection.

(** ** Strings and patterns *)

Lemma stripPrefix_app (p s rest : string) :
  stripPrefix p s = Some rest -> s = p ++ rest.
Proof.
  revert s. induction p as [| a p IH]; intros s H; simpl in H.
  - now inversion H.
  - destruct s as [| b s]; [discriminate |].
    destruct (Ascii.eqb a b) eqn:Hab; [| discriminate].
    apply Ascii.eqb_eq in Hab. subst b. simpl. f_equal. now apply IH.
Qed.

Lemma length_append (a b : string) :
  String.length (a ++ b) = (String.length a + String.length b)%nat.
Proof. induction a as [| c a IH]; simpl; [reflexivity | now rewrite IH]. Qed.

Lemma take_app (a b : string) : take (String.length a) (a ++ b) = a.
Proof. induction a as [| c a IH]; simpl; [now destruct b | now rewrite IH]. Qed.

Lemma consumed_app (a rest : string) : consumed (a ++ rest) rest = a.
Proof.
  unfold consumed. rewrite length_append.
  replace (String.length a + String.length rest - String.length rest)%nat
    with (String.length a) by lia.
  apply take_app.
Qed.

Lemma consumed_one (c : ascii) (rest : string) :
  consumed (String c rest) rest = String c EmptyString.
Proof. exact (consumed_app (String c EmptyString) rest). Qed.

Lemma matchHere_sound (A : Type) (r : regex) :
  forall (s : string) (caps : captures) (k : string -> captures -> option A) (m : A),
    matchHere r s caps k = Some m ->
    exists rest caps', Matches r s rest caps caps' /\ k rest caps' = Some m.
Proof.
  induction r as [l | members | lo hi | r1 IH1 r2 IH2 | r1 IH1 r2 IH2 | r IH | n r IH];
    intros s caps k m H; simpl in H.
  - destruct (stripPrefix l s) as [rest |] eqn:Hp; [| discriminate].
    apply stripPrefix_app in Hp. subst s.
    exists rest, caps. split; [constructor | assumption].
  - destruct s as [| c rest]; [discriminate |].
    destruct (memberOf c members) eqn:Hm; [| discriminate].
    exists rest, caps. split; [now constructor | assumption].
  - destruct s as [| c rest]; [discriminate |].
    destruct (inRange lo hi c) eqn:Hm; [| discriminate].
    exists rest, caps. split; [now constructor | assumption].
  - apply IH1 in H. destruct H as (s1 & c1 & M1 & H).
    apply IH2 in H. destruct H as (s2 & c2 & M2 & H).
    exists s2, c2. split; [econstructor; eassumption | assumption].
  - destruct (matchHere r1 s caps k) as [m1 |] eqn:H1.
    + inversion H; subst m1. apply IH1 in H1. destruct H1 as (s1 & c1 & M1 & H1).
      exists s1, c1. split; [now apply MAltL | assumption].
    + apply IH2 in H. destruct H as (s1 & c1 & M1 & H).
      exists s1, c1. split; [now apply MAltR | assumption].
  - destruct (matchHere r s caps k) as [m1 |] eqn:H1.
    + inversion H; subst m1. apply IH in H1. destruct H1 as (s1 & c1 & M1 & H1).
      exists s1, c1. split; [now apply MOptSome | assumption].
    + exists s, caps. split; [apply MOptNone | assumption].
  - apply IH in H. destruct H as (s1 & c1 & M1 & H).
    exists s1, ((n, consumed s s1) :: c1). split; [now constructor | assumption].
Qed.

Lemma regexMatch_somewhere (r : regex) (s : string) (caps : captures) :
  regexMatch r s = Some caps ->
  exists pre rest tail,
    s = pre ++ rest /\ Matches r rest tail [] caps.
Proof.
  induction s as [| c s IH]; simpl; intro H.
  - destruct (matchHere r "" [] (fun _ caps0 => Some caps0)) as [m |] eqn:Hm;
      [| discriminate].
    inversion H; subst m. apply matchHere_sound in Hm.
    destruct Hm as (tail & caps' & M & Hk). inversion Hk; subst caps'.
    now exists "", "", tail.
  - destruct (matchHere r (String c s) [] (fun _ caps0 => Some caps0)) as [m |] eqn:Hm.
    + inversion H; subst m. apply matchHere_sound in Hm.
      destruct Hm as (tail & caps' & M & Hk). inversion Hk; subst caps'.
      now exists "", (String c s), tail.
    + destruct (IH H) as (pre & rest & tail & -> & M).
      now exists (String c pre), rest, tail.
Qed.

Lemma levelDigit_level (d : ascii) :
  levelDigit d = true ->
  (1 <= digitLevel d <= 5)%Z /\ integerToString (digitLevel d) = String d EmptyString.
Proof.
  destruct d as [[] [] [] [] [] [] [] []]; intro H; vm_compute in H;
    try discriminate H; (split; [vm_compute; split; discriminate | reflexivity]).
Qed.

Lemma Matches_lit (l s rest : string) (c c1 : captures) :
  Matches (RLit l) s rest c c1 -> s = l ++ rest /\ c1 = c.
Proof. inversion 1; subst; auto. Qed.

Lemma Matches_set (members s rest : string) (c c1 : captures) :
  Matches (RSet members) s rest c c1 ->
  exists x, memberOf x members = true /\ s = String x rest /\ c1 = c.
Proof. inversion 1; subst; eauto. Qed.

Lemma Matches_range (lo hi : ascii) (s rest : string) (c c1 : captures) :
  Matches (RRange lo hi) s rest c c1 ->
  exists x, inRange lo hi x = true /\ s = String x rest /\ c1 = c.
Proof. inversion 1; subst; eauto. Qed.

Lemma Matches_seq (r1 r2 : regex) (s s2 : string) (c c2 : captures) :
  Matches (RSeq r1 r2) s s2 c c2 ->
  exists s1 c1, Matches r1 s s1 c c1 /\ Matches r2 s1 s2 c1 c2.
Proof. inversion 1; subst; eauto. Qed.

Lemma Matches_alt (r1 r2 : regex) (s s1 : string) (c c1 : captures) :
  Matches (RAlt r1 r2) s s1 c c1 -> Matches r1 s s1 c c1 \/ Matches r2 s s1 c c1.
Proof. inversion 1; subst; auto. Qed.

Lemma Matches_opt (r : regex) (s s1 : string) (c c1 : captures) :
  Matches (ROpt r) s s1 c c1 -> Matches r s s1 c c1 \/ (s1 = s /\ c1 = c).
Proof. inversion 1; subst; auto. Qed.

Lemma Matches_group (n : nat) (r : regex) (s s1 : string) (c c2 : captures) :
  Matches (RGroup n r) s s1 c c2 ->
  exists c1, Matches r s s1 c c1 /\ c2 = (n, consumed s s1) :: c1.
Proof. inversion 1; subst; eauto. Qed.

(** The shape of a match of [explicitPattern]. *)
Lemma explicit_shape (s tail : string) (caps : captures) :
  Matches explicitPattern s tail [] caps ->
  exists name sep l d,
    (name = "falcon" \/ name = "dilithium") /\
    (sep = "" \/ sep = "-" \/ sep = "_" \/ sep = " ") /\
    (l = "" \/ l = "l") /\
    levelDigit d = true /\
    s = name ++ sep ++ l ++ String d tail /\
    group 1 caps = name /\ group 2 caps = String d EmptyString.
Proof.
  unfold explicitPattern. intro M.
  apply Matches_seq in M. destruct M as (s1 & c1 & Mname & M).
  apply Matches_seq in M. destruct M as (s2 & c2 & Msep & M).
  apply Matches_seq in M. destruct M as (s3 & c3 & Ml & Mdigit).
  apply Matches_group in Mname. destruct Mname as (c0 & Malt & ->).
  apply Matches_group in Mdigit. destruct Mdigit as (c4 & Mrange & ->).
  apply Matches_range in Mrange. destruct Mrange as (d & Hd & -> & ->).
  rewrite consumed_one.
  assert (Hname : exists name, (name = "falcon" \/ name = "dilithium") /\
                               s = name ++ s1 /\ c0 = []).
  { apply Matches_alt in Malt. destruct Malt as [M | M];
      apply Matches_lit in M; destruct M as [-> ->]; eauto. }
  assert (Hsep : exists sep, (sep = "" \/ sep = "-" \/ sep = "_" \/ sep = " ") /\
                             s1 = sep ++ s2 /\ c2 = (1, consumed s s1) :: c0).
  { apply Matches_opt in Msep. destruct Msep as [M | [-> ->]].
    - apply Matches_set in M. destruct M as (x & Hx & -> & ->).
      exists (String x ""). simpl in Hx.
      destruct (Ascii.eqb x "-") eqn:E1; [apply Ascii.eqb_eq in E1; subst; auto |].
      destruct (Ascii.eqb x "_") eqn:E2; [apply Ascii.eqb_eq in E2; subst; auto |].
      destruct (Ascii.eqb x " ") eqn:E3; [apply Ascii.eqb_eq in E3; subst; auto |].
      discriminate.
    - exists "". auto. }
  assert (Hl : exists l, (l = "" \/ l = "l") /\ s2 = l ++ String d tail /\ c3 = c2).
  { apply Matches_opt in Ml. destruct Ml as [M | [-> ->]].
    - apply Matches_lit in M. destruct M as [-> ->]. exists "l". auto.
    - exists "". auto. }
  destruct Hname as (name & Hname & -> & ->).
  destruct Hsep as (sep & Hsep & -> & ->). destruct Hl as (l & Hl & -> & ->).
  rewrite consumed_app.
  exists name, sep, l, d. repeat split; auto.
Qed.

Lemma numeric_first (s : string) :
  match regexMatch numericPattern s with
  | Some caps =>
      exists d pre post,
        levelDigit d = true /\ noLevelDigit pre = true /\
        s = pre ++ String d post /\ group 1 caps = String d EmptyString
  | None => noLevelDigit s = true
  end.
Proof.
  induction s as [| c s IH]; [reflexivity |].
  unfold regexMatch; fold regexMatch. unfold numericPattern at 1. simpl matchHere.
  fold (levelDigit c). destruct (levelDigit c) eqn:Hc.
  - exists c, "", s. rewrite consumed_one. simpl. auto.
  - destruct (regexMatch numericPattern s) as [caps |].
    + destruct IH as (d & pre & post & Hd & Hpre & -> & Hg).
      exists d, (String c pre), post. simpl. rewrite Hc. auto.
    + simpl. now rewrite Hc.
Qed.


Lemma stripPrefix_self (p rest : string) : stripPrefix p (p ++ rest) = Some rest.
Proof.
  induction p as [| a p IH]; simpl; [reflexivity |].
  now rewrite Ascii.eqb_refl.
Qed.

(** The matcher finds a match whenever there is one that the continuation
    accepts: it backtracks over every choice. *)
Lemma matchHere_complete (A : Type) (r : regex) (s rest : string) (c c1 : captures) :
  Matches r s rest c c1 ->
  forall k : string -> captures -> option A,
    k rest c1 <> None -> matchHere r s c k <> None.
Proof.
  induction 1 as [l rest caps | members x rest caps Hx | lo hi x rest caps Hx
                 | r1 r2 s s1 s2 c c1 c2 _ IH1 _ IH2
                 | r1 r2 s s1 c c1 _ IH | r1 r2 s s1 c c1 _ IH
                 | r s s1 c c1 _ IH | r s c | n r s s1 c c1 _ IH];
    intros k Hk; simpl.
  - now rewrite stripPrefix_self.
  - now rewrite Hx.
  - now rewrite Hx.
  - apply IH1. now apply IH2.
  - specialize (IH k Hk). now destruct (matchHere r1 s c k).
  - destruct (matchHere r1 s c k); [discriminate | now apply IH].
  - specialize (IH k Hk). now destruct (matchHere r s c k).
  - destruct (matchHere r s c k); [discriminate | exact Hk].
  - now apply IH.
Qed.

Lemma length_append_lt (a b a' b' : string) :
  a ++ b = a' ++ b' -> (String.length a' < String.length a)%nat ->
  exists mid, a = a' ++ mid /\ b' = mid ++ b /\ mid <> "".
Proof.
  revert a'. induction a as [| x a IH]; intros a' Heq Hlen; [simpl in Hlen; lia |].
  destruct a' as [| y a'].
  - simpl in Heq. subst b'. exists (String x a). repeat split. discriminate.
  - simpl in Heq, Hlen. injection Heq as -> Heq.
    destruct (IH a' Heq ltac:(lia)) as (mid & -> & -> & Hmid).
    exists mid. repeat split. exact Hmid.
Qed.

(** [regexMatch] returns the match at the leftmost position that has one. *)
Lemma regexMatch_first (r : regex) (s : string) :
  match regexMatch r s with
  | Some caps =>
      exists pre rest,
        s = pre ++ rest /\
        matchHere r rest [] (fun _ found => Some found) = Some caps /\
        forall pre' rest',
          s = pre' ++ rest' -> (String.length pre' < String.length pre)%nat ->
          matchHere r rest' [] (fun _ found => Some found) = None
  | None =>
      forall pre rest,
        s = pre ++ rest -> matchHere r rest [] (fun _ found => Some found) = None
  end.
Proof.
  induction s as [| x s IH].
  - simpl.
    destruct (matchHere r "" [] (fun _ found => Some found)) as [caps |] eqn:Hm.
    + exists "", "". repeat split; [exact Hm |]. intros pre' rest' _ Hlen.
      simpl in Hlen. lia.
    + intros pre rest Heq. destruct pre; [| discriminate]. simpl in Heq. now subst rest.
  - unfold regexMatch; fold regexMatch.
    destruct (matchHere r (String x s) [] (fun _ found => Some found)) as [caps |] eqn:Hm.
    + exists "", (String x s). repeat split; [exact Hm |]. intros pre' rest' _ Hlen.
      simpl in Hlen. lia.
    + destruct (regexMatch r s) as [caps |].
      * destruct IH as (pre & rest & -> & Hrest & Hfirst).
        exists (String x pre), rest. repeat split; [exact Hrest |].
        intros pre' rest' Heq Hlen. destruct pre' as [| y pre'].
        -- simpl in Heq. now subst rest'.
        -- simpl in Heq, Hlen. injection Heq as _ Heq.
           apply (Hfirst pre' rest' Heq). lia.
      * intros pre rest Heq. destruct pre as [| y pre].
        -- simpl in Heq. now subst rest.
        -- simpl in Heq. injection Heq as _ Heq. now apply (IH pre rest).
Qed.

(** An explicit scheme and level is what [explicitPattern] matches. *)
Lemma explicitAt_Matches (name : string) (d : ascii) (s : string) :
  explicitAt name d s -> exists tail caps, Matches explicitPattern s tail [] caps.
Proof.
  intros (Hname & Hd & sep & l & post & Hsep & Hl & ->).
  exists post. unfold explicitPattern.
  destruct Hname as [-> | ->], Hsep as [-> | [-> | [-> | ->]]], Hl as [-> | ->];
    eexists;
    (eapply MSeq;
       [apply MGroup; first [apply MAltL, (MLit "falcon") | apply MAltR, (MLit "dilithium")]
       | eapply MSeq;
           [first [apply MOptSome, MSet; reflexivity | apply MOptNone]
           | eapply MSeq;
               [first [apply MOptSome, (MLit "l") | apply MOptNone]
               | apply MGroup, MRange; exact Hd]]]).
Qed.

Lemma explicitAt_matched (name : string) (d : ascii) (s : string) :
  explicitAt name d s ->
  matchHere explicitPattern s [] (fun _ found => Some found) <> None.
Proof.
  intro H. destruct (explicitAt_Matches _ _ _ H) as (tail & caps & M).
  apply (matchHere_complete _ _ _ _ _ _ M). discriminate.
Qed.

Lemma matched_explicitAt (s : string) (caps : captures) :
  matchHere explicitPattern s [] (fun _ found => Some found) = Some caps ->
  exists name d,
    explicitAt name d s /\ group 1 caps = name /\ group 2 caps = String d EmptyString.
Proof.
  intro H. apply matchHere_sound in H. destruct H as (tail & caps' & M & Hk).
  injection Hk as ->. apply explicit_shape in M.
  destruct M as (name & sep & l & d & Hname & Hsep & Hl & Hd & -> & Hg1 & Hg2).
  exists name, d. split; [| now split].
  split; [exact Hname | split; [exact Hd |]]. now exists sep, l, tail.
Qed.

Lemma levelDigit_cases (d : ascii) :
  levelDigit d = true ->
  d = "1"%char \/ d = "2"%char \/ d = "3"%char \/ d = "4"%char \/ d = "5"%char.
Proof.
  destruct d as [[] [] [] [] [] [] [] []]; intro H; vm_compute in H;
    try discriminate H; auto 6.
Qed.

(** At one position there is at most one explicit scheme and level. *)
Lemma explicitAt_unique (name name' : string) (d d' : ascii) (s : string) :
  explicitAt name d s -> explicitAt name' d' s -> name = name' /\ d = d'.
Proof.
  intros (Hname & Hd & sep & l & post & Hsep & Hl & ->)
         (Hname' & Hd' & sep' & l' & post' & Hsep' & Hl' & Heq).
  assert (Hsame : name = name').
  { destruct Hname as [-> | ->], Hname' as [-> | ->]; try reflexivity;
      simpl in Heq; discriminate Heq. }
  subst name'. split; [reflexivity |].
  assert (Htail : sep ++ l ++ String d post = sep' ++ l' ++ String d' post').
  { destruct Hname as [-> | ->]; simpl in Heq; now inversion Heq. }
  clear Heq.
  apply levelDigit_cases in Hd, Hd'.
  destruct Hsep as [-> | [-> | [-> | ->]]], Hl as [-> | ->],
           Hsep' as [-> | [-> | [-> | ->]]], Hl' as [-> | ->];
    simpl in Htail; injection Htail; intros; subst;
    try reflexivity;
    repeat match goal with
           | H : _ \/ _ |- _ => destruct H as [H | H]
           end; try discriminate; try congruence.
Qed.

(** A string has at most one first level digit. *)
Lemma firstLevelDigit_unique (d d' : ascii) (s : string) :
  firstLevelDigit d s -> firstLevelDigit d' s -> d = d'.
Proof.
  intros (pre & post & -> & Hd & Hpre) (pre' & post' & Heq & Hd' & Hpre').
  revert pre' Heq Hpre'. induction pre as [| x pre IH]; intros pre' Heq Hpre'.
  - destruct pre' as [| y pre']; simpl in Heq; injection Heq; intros; subst.
    + reflexivity.
    + simpl in Hpre'. rewrite Hd in Hpre'. discriminate Hpre'.
  - simpl in Hpre. apply andb_true_iff in Hpre. destruct Hpre as [Hx Hpre].
    destruct pre' as [| y pre']; simpl in Heq; injection Heq; intros; subst.
    + rewrite Hd' in Hx. discriminate Hx.
    + simpl in Hpre'. apply andb_true_iff in Hpre'. destruct Hpre' as [_ Hpre'].
      now apply (IH Hpre pre').
Qed.

Lemma noLevelDigit_app (pre post : string) :
  noLevelDigit (pre ++ post) = noLevelDigit pre && noLevelDigit post.
Proof.
  induction pre as [| x pre IH]; simpl; [reflexivity |].
  now rewrite IH, andb_assoc.
Qed.

(** An explicit scheme and level has a level digit. *)
Lemma explicitAt_has_digit (name : string) (d : ascii) (pre rest : string) :
  explicitAt name d rest -> noLevelDigit (pre ++ rest) = false.
Proof.
  intros (_ & Hd & sep & l & post & _ & _ & ->).
  rewrite !noLevelDigit_app. simpl. rewrite Hd. simpl.
  now rewrite !andb_false_r.
Qed.

(** [Math.round] and the two bounds give the nearest level. *)
Lemma rounded_and_clamped (q : Q) : roundedLevel q (Z.min 5 (Z.max 1 (Math_round q))).
Proof.
  unfold roundedLevel, Math_round.
  pose proof (Qfloor_le (q + (1 # 2))) as Hlow.
  pose proof (Qlt_floor (q + (1 # 2))) as Hhigh.
  set (m := Qfloor (q + (1 # 2))) in *.
  rewrite inject_Z_plus in Hhigh. change (inject_Z 1) with 1%Q in Hhigh.
  split; [lia |]. split; [| split].
  - intro H. assert (Hm : (inject_Z m < inject_Z 2)%Q) by (change (inject_Z 2) with 2%Q; lra).
    rewrite <- Zlt_Qlt in Hm. lia.
  - intro H. assert (Hm : (inject_Z 4 < inject_Z m)%Q) by (change (inject_Z 4) with 4%Q; lra).
    rewrite <- Zlt_Qlt in Hm. lia.
  - intros H1 H2.
    assert (Hm1 : (inject_Z 1 < inject_Z m)%Q) by (change (inject_Z 1) with 1%Q; lra).
    assert (Hm2 : (inject_Z m < inject_Z 5)%Q) by (change (inject_Z 5) with 5%Q; lra).
    rewrite <- Zlt_Qlt in Hm1, Hm2.
    replace (Z.min 5 (Z.max 1 m)) with m by lia. split; lra.
Qed.

(** C8. The rotation algorithm identifier.  A finite number gives
    [<scheme>-l<n>], [n] being the nearest integer, the upper one of two
    that are equally near, brought into 1..5.  A string is trimmed and put
    in lower case; its first explicit scheme and level from the left, if it
    has one, give [<name>-l<d>], whatever the selected scheme; if it has
    none, its first level digit 1..5 gives [<scheme>-l<d>]; a string
    without a level digit gives the default of the scheme, [dilithium-l3]
    or [falcon-l5], and so does a hint that is neither a finite number nor
    a string.  Every string is in one of the three cases, and the level is
    always one of 1..5. *)
Theorem deriveRotationAlgorithm_levels (scheme : Scheme) (levelHint : value) :
  let result := deriveRotationAlgorithm scheme levelHint in
  let defaultAlg :=
    match scheme with Dilithium => "dilithium-l3" | Falcon => "falcon-l5" end in
  match levelHint with
  | VNum (Fin q) =>
      exists n,
        roundedLevel q n /\ result = schemeName scheme ++ "-l" ++ integerToString n
  | VStr s =>
      let normalized := toLowerCase (trim s) in
      (forall name d,
         firstExplicit name d normalized ->
         result = name ++ "-l" ++ String d EmptyString) /\
      (forall d,
         explicitNowhere normalized -> firstLevelDigit d normalized ->
         result = schemeName scheme ++ "-l" ++ String d EmptyString) /\
      (noLevelDigit normalized = true -> result = defaultAlg) /\
      ((exists name d, firstExplicit name d normalized) \/
       (explicitNowhere normalized /\ exists d, firstLevelDigit d normalized) \/
       noLevelDigit normalized = true)
  | _ => result = defaultAlg
  end
  /\ exists name n,
       (name = "falcon" \/ name = "dilithium") /\ (1 <= n <= 5)%Z /\
       result = name ++ "-l" ++ integerToString n.
Proof.
  assert (Hscheme : schemeName scheme = "falcon" \/ schemeName scheme = "dilithium")
    by (destruct scheme; auto).
  assert (Hdefault :
            exists name n,
              (name = "falcon" \/ name = "dilithium") /\ (1 <= n <= 5)%Z /\
              match scheme with Dilithium => "dilithium-l3" | Falcon => "falcon-l5" end
              = name ++ "-l" ++ integerToString n).
  { destruct scheme; [exists "dilithium", 3%Z | exists "falcon", 5%Z];
      repeat split; auto; discriminate. }
  cbv zeta.
  destruct levelHint as [| | b | [| | | q] | s | items | fields];
    try (split; [reflexivity | exact Hdefault]).
  - split.
    + exists (Z.min 5 (Z.max 1 (Math_round q))).
      split; [apply rounded_and_clamped | reflexivity].
    + exists (schemeName scheme), (Z.min 5 (Z.max 1 (Math_round q))).
      repeat split; auto; lia.
  - unfold deriveRotationAlgorithm.
    set (normalized := toLowerCase (trim s)).
    pose proof (regexMatch_first explicitPattern normalized) as Hexp.
    destruct (regexMatch explicitPattern normalized) as [caps |].
    + destruct Hexp as (pre & rest & Hs & Hm & Hfirst).
      destruct (matched_explicitAt _ _ Hm) as (name & d & Hat & -> & ->).
      assert (Hleft : firstExplicit name d normalized).
      { exists pre, rest. split; [exact Hs | split; [exact Hat |]].
        intros pre' rest' name' d' Heq Hlen Hat'.
        apply (explicitAt_matched _ _ _ Hat'). now apply (Hfirst pre'). }
      split; [split; [| split; [| split]] |].
      * intros name' d' (pre' & rest' & Hs' & Hat' & Hfirst').
        assert (Hpos : String.length pre' = String.length pre).
        { destruct (Nat.lt_trichotomy (String.length pre') (String.length pre))
            as [Hlt | [Heq | Hgt]]; [| exact Heq |].
          - elim (explicitAt_matched _ _ _ Hat'). now apply (Hfirst pre').
          - elim (Hfirst' pre rest name d Hs Hgt Hat). }
        assert (Hrest : rest' = rest).
        { rewrite Hs in Hs'. clear - Hs' Hpos. revert pre' Hs' Hpos.
          induction pre as [| x pre IH]; intros [| y pre'] Heq Hlen;
            simpl in *; try discriminate; [congruence |].
          injection Heq as _ Heq. apply (IH pre' Heq). lia. }
        subst rest'. destruct (explicitAt_unique _ _ _ _ _ Hat Hat') as [-> ->].
        reflexivity.
      * intros d' Hnone _. elim (Hnone pre rest name d Hs Hat).
      * intro Hnone. rewrite Hs, (explicitAt_has_digit _ _ pre _ Hat) in Hnone.
        discriminate Hnone.
      * left. eauto.
      * destruct Hat as (Hname & Hd & _). destruct (levelDigit_level d Hd) as [Hrange Hprint].
        exists name, (digitLevel d). rewrite Hprint. repeat split; auto; lia.
    + assert (Hnowhere : explicitNowhere normalized).
      { intros pre rest name d Heq Hat.
        apply (explicitAt_matched _ _ _ Hat). now apply (Hexp pre). }
      pose proof (numeric_first normalized) as Hnum.
      destruct (regexMatch numericPattern normalized) as [caps |].
      * destruct Hnum as (d & pre & post & Hd & Hpre & Hs & ->).
        destruct (levelDigit_level d Hd) as [Hrange Hprint].
        assert (Hdigit : firstLevelDigit d normalized) by (now exists pre, post).
        split; [split; [| split; [| split]] |].
        -- intros name' d' (pre' & rest' & Hs' & Hat' & _).
           elim (Hnowhere pre' rest' name' d' Hs' Hat').
        -- intros d' _ Hd'. now rewrite (firstLevelDigit_unique _ _ _ Hd' Hdigit).
        -- intro Hnone. rewrite Hs, noLevelDigit_app in Hnone. simpl in Hnone.
           rewrite Hd in Hnone. simpl in Hnone. rewrite andb_false_r in Hnone.
           discriminate Hnone.
        -- right; left. eauto.
        -- exists (schemeName scheme), (digitLevel d). rewrite Hprint.
           repeat split; auto; lia.
      * split; [split; [| split; [| split]] | exact Hdefault].
        -- intros name' d' (pre' & rest' & Hs' & Hat' & _).
           elim (Hnowhere pre' rest' name' d' Hs' Hat').
        -- intros d' _ (pre' & post' & Hs' & Hd' & _).
           rewrite Hs', noLevelDigit_app in Hnum. simpl in Hnum.
           rewrite Hd' in Hnum. simpl in Hnum. rewrite andb_false_r in Hnum.
           discriminate Hnum.
        -- reflexivity.
        -- right; right. exact Hnum.
Qed.

(** ** The strategy loop *)

Lemma strategyLoop_step (submit : SigningContext -> M value) (getContext : M SigningContext)
    (rest : list (M SigningContext)) (st : LoopState) (t : Trace) :
  strategyLoop submit (getContext :: rest) st t =
  match attemptOf submit getContext t with
  | ConstructionFailed _ t1 => strategyLoop submit rest st t1
  | Incomplete _ t1 => strategyLoop submit rest st t1
  | VerificationFailed err t2 => strategyLoop submit rest (withLastError st err) t2
  | Fatal err t2 => (Thrown err, t2)
  | Verified res ctx t2 =>
      (Normal {| encapRes := res; ctxForDecap := Some ctx;
                 lastSigError := lastSigError st |}, t2)
  end.
Proof.
  unfold attemptOf. simpl. unfold bind at 1, attempt at 1.
  destruct (getContext t) as [[ctx | e] t1]; [| reflexivity].
  destruct (incomplete ctx); [reflexivity |].
  unfold bind, attempt.
  destruct (submit ctx t1) as [[res | err] t2]; [reflexivity |].
  now destruct (isSignatureVerificationError err).
Qed.

Lemma strategyLoop_end (submit : SigningContext -> M value) (strategies : list (M SigningContext)) :
  forall (st : LoopState) (t : Trace),
    strategyLoop submit strategies st t =
    match chainEnd submit strategies (lastSigError st) t with
    | Exhausted last t' =>
        (Normal {| encapRes := encapRes st; ctxForDecap := ctxForDecap st;
                   lastSigError := last |}, t')
    | Stopped err t' => (Thrown err, t')
    | Passed res ctx last t' =>
        (Normal {| encapRes := res; ctxForDecap := Some ctx; lastSigError := last |}, t')
    end.
Proof.
  induction strategies as [| g rest IH]; intros st t.
  - now destruct st.
  - rewrite strategyLoop_step. simpl.
    destruct (attemptOf submit g t); try reflexivity; try apply IH.
    now rewrite IH.
Qed.

Lemma signingChain_end (submit : SigningContext -> M value)
    (strategies : list (M SigningContext)) (t : Trace) :
  signingChain submit strategies t =
  match chainEnd submit strategies None t with
  | Exhausted last t' => (Thrown (exhaustionError last), t')
  | Stopped err t' => (Thrown err, t')
  | Passed res ctx last t' =>
      if ToBoolean res then (Normal (res, ctx), t')
      else (Thrown (exhaustionError last), t')
  end.
Proof.
  unfold signingChain, bind. rewrite strategyLoop_end. simpl.
  destruct (chainEnd submit strategies None t) as [last t' | err t' | res ctx last t'];
    try reflexivity.
  unfold guardLoop. simpl. now destruct (ToBoolean res).
Qed.

(** C2, as amended.  In the loop, a strategy whose context cannot be built
    is skipped and the next one is tried; once a context is there, a
    verify-and-encapsulate failure whose message has the verification
    wording discards it and moves on, keeping the error; any other failure
    of that call is thrown at once and no further strategy runs.  The
    chain throws after the last strategy (the latest verification error,
    or 'No signature strategy succeeded'), on such a fatal error, or when
    the call that succeeded returned a falsy JSON value. *)
Theorem signing_chain_error_handling (submit : SigningContext -> M value)
    (getContext : M SigningContext)
    (rest strategies : list (M SigningContext)) (st : LoopState) (t : Trace) :
  strategyLoop submit (getContext :: rest) st t =
    match getContext t with
    | (Thrown _, t1) => strategyLoop submit rest st t1
    | (Normal ctx, t1) =>
        if incomplete ctx then strategyLoop submit rest st t1
        else
          match submit ctx t1 with
          | (Thrown err, t2) =>
              if isSignatureVerificationError err
              then strategyLoop submit rest (withLastError st err) t2
              else (Thrown err, t2)
          | (Normal res, t2) =>
              (Normal {| encapRes := res; ctxForDecap := Some ctx;
                         lastSigError := lastSigError st |}, t2)
          end
    end
  /\
  signingChain submit strategies t =
    match chainEnd submit strategies None t with
    | Exhausted last t' => (Thrown (exhaustionError last), t')
    | Stopped err t' => (Thrown err, t')
    | Passed res ctx last t' =>
        if ToBoolean res then (Normal (res, ctx), t')
        else (Thrown (exhaustionError last), t')
    end.
Proof.
  split; [| apply signingChain_end].
  rewrite strategyLoop_step. unfold attemptOf.
  destruct (getContext t) as [[ctx | e] t1]; [| reflexivity].
  destruct (incomplete ctx); [reflexivity |].
  destruct (submit ctx t1) as [[res | err] t2]; [reflexivity |].
  now destruct (isSignatureVerificationError err).
Qed.

Lemma attemptOf_ext (submit submit' : SigningContext -> M value)
    (getContext : M SigningContext) (t : Trace) :
  (forall ctx t1, incomplete ctx = false -> submit ctx t1 = submit' ctx t1) ->
  attemptOf submit getContext t = attemptOf submit' getContext t.
Proof.
  intro Hsame. unfold attemptOf.
  destruct (getContext t) as [[ctx | e] t1]; [| reflexivity].
  destruct (incomplete ctx) eqn:Hc; [reflexivity |].
  now rewrite (Hsame ctx t1 Hc).
Qed.

Lemma strategyLoop_ext (submit submit' : SigningContext -> M value)
    (strategies : list (M SigningContext)) :
  (forall ctx t1, incomplete ctx = false -> submit ctx t1 = submit' ctx t1) ->
  forall st t, strategyLoop submit strategies st t = strategyLoop submit' strategies st t.
Proof.
  intro Hsame. induction strategies as [| g rest IH]; intros st t; [reflexivity |].
  rewrite (strategyLoop_step submit), (strategyLoop_step submit'),
    (attemptOf_ext submit submit' g t Hsame).
  destruct (attemptOf submit' g t); try reflexivity; apply IH.
Qed.

(** C6. A context in which [signature], [signerPublicKey], [kyberPublicKey]
    or [kyberSecretKey] is missing is dropped and the loop goes on with the
    next strategy; the verify-and-encapsulate call is made for complete
    contexts only, so the loop does not depend on what that call would do
    with an incomplete one. *)
Theorem incomplete_context_never_submitted (submit submit' : SigningContext -> M value)
    (getContext : M SigningContext) (rest strategies : list (M SigningContext))
    (st : LoopState) (t : Trace) :
  (forall ctx,
     incomplete ctx = true <->
     (ToBoolean (signature ctx) = false \/ ToBoolean (signerPublicKey ctx) = false \/
      ToBoolean (kyberPublicKey ctx) = false \/ ToBoolean (kyberSecretKey ctx) = false)) /\
  (forall ctx t1,
     getContext t = (Normal ctx, t1) -> incomplete ctx = true ->
     strategyLoop submit (getContext :: rest) st t = strategyLoop submit rest st t1) /\
  ((forall ctx t1, incomplete ctx = false -> submit ctx t1 = submit' ctx t1) ->
   strategyLoop submit strategies st t = strategyLoop submit' strategies st t).
Proof.
  split; [| split].
  - intro ctx. unfold incomplete.
    destruct (ToBoolean (signature ctx)), (ToBoolean (signerPublicKey ctx)),
      (ToBoolean (kyberPublicKey ctx)), (ToBoolean (kyberSecretKey ctx));
      simpl; intuition congruence.
  - intros ctx t1 Hg Hc. rewrite strategyLoop_step. unfold attemptOf.
    now rewrite Hg, Hc.
  - intro Hsame. now apply strategyLoop_ext.
Qed.



(** ** The route *)


(** A falsy preference names no backend. *)
Lemma falsy_preference (pref : value) (dReach fReach : bool) :
  ToBoolean pref = false -> preferredReachable pref dReach fReach = None.
Proof.
  destruct pref as [| | b | n | s | items | fields]; try reflexivity.
  destruct s; [reflexivity | discriminate].
Qed.

Section Route.

Variable rt : Runtime.
Variable env : Env.
Variable world : World.

Lemma bases_nonempty (b : string) :
  In b (KYBER_BASES env) \/ In b (DILITHIUM_BASES env) \/ In b (FALCON_BASES env) ->
  b <> "".
Proof. intros [H | [H | H]]; exact (filterBoolean_nonempty _ _ H). Qed.

(** The steps of the handler after the scheme is chosen. *)
Lemma selectAke_stages (reqBody : value) (t0 : Trace) :
  let b := nullish_ reqBody (VObj []) in
  let payloadHintBytes := prop b "payloadHintBytes" in
  let policyPreferredSig := prop b "policyPreferredSig" in
  selectAke rt env world reqBody t0 =
  match selectSigScheme rt env world payloadHintBytes policyPreferredSig t0 with
  | (Thrown e, t1) => (Thrown e, t1)
  | (Normal scheme, t1) =>
      match firstReachable world (KYBER_BASES env) t1 with
      | (Thrown e, t2) => (Thrown e, t2)
      | (Normal None, t2) => (Thrown (Error_ "Kyber unreachable"), t2)
      | (Normal (Some kyberBase), t2) =>
          match firstReachable world (signatureBases env scheme) t2 with
          | (Thrown e, t3) => (Thrown e, t3)
          | (Normal None, t3) =>
              (Thrown (Error_ (schemeName scheme ++ " unreachable")), t3)
          | (Normal (Some sigBase), t3) =>
              match signAndEncapsulate rt env world scheme kyberBase sigBase
                      (prop b "level") t3 with
              | (Thrown e, t4) => (Thrown e, t4)
              | (Normal (baseSignerLevel, baseSignerKid, (encapsulated, ctx)), t4) =>
                  decapsulateAndCompare rt world scheme kyberBase
                    payloadHintBytes policyPreferredSig
                    baseSignerLevel baseSignerKid encapsulated ctx t4
              end
          end
      end
  end.
Proof.
  cbv zeta. unfold selectAke, bind.
  destruct (selectSigScheme _ _ _ _ _ t0) as [[scheme | e] t1]; [| reflexivity].
  destruct (firstReachable world (KYBER_BASES env) t1) as [[[kyberBase |] | e] t2] eqn:Hk;
    try reflexivity.
  assert (kyberBase <> "")
    by (apply bases_nonempty; left; eapply firstReachable_member; eassumption).
  destruct kyberBase as [| c kyberBase]; [congruence |].
  change (match scheme with
          | Dilithium => DILITHIUM_BASES env
          | Falcon => FALCON_BASES env
          end) with (signatureBases env scheme).
  destruct (firstReachable world (signatureBases env scheme) t2)
    as [[[sigBase |] | e] t3] eqn:Hs; try reflexivity.
  assert (sigBase <> "").
  { apply bases_nonempty. right. apply firstReachable_member in Hs.
    destruct scheme; auto. }
  destruct sigBase as [| c' sigBase]; [congruence |].
  destruct (signAndEncapsulate _ _ _ _ _ _ _ t3) as [[[[lvl kid] [enc ctx]] | e] t4];
    reflexivity.
Qed.

Lemma reasonOf_run (payloadHintBytes policyPreferredSig : value) (t : Trace) :
  reasonOf rt payloadHintBytes policyPreferredSig t =
  (match reasonText rt payloadHintBytes policyPreferredSig with
   | Some why => Normal why
   | None => Thrown TypeError_convert
   end, t).
Proof.
  unfold reasonOf, reasonText, bind, converted.
  destruct (ToBoolean policyPreferredSig).
  - now destruct (ToString rt policyPreferredSig).
  - destruct (ToBoolean payloadHintBytes); [| reflexivity].
    now destruct (le_num rt payloadHintBytes (ofZ 1024)).
Qed.

Lemma decapsulateAndCompare_run (scheme : Scheme) (kyberBase : string)
    (payloadHintBytes policyPreferredSig baseSignerLevel baseSignerKid : value)
    (encapsulated : value) (ctx : SigningContext) (t : Trace) :
  decapsulateAndCompare rt world scheme kyberBase payloadHintBytes policyPreferredSig
    baseSignerLevel baseSignerKid encapsulated ctx t =
  match postJSON rt world (kyberBase ++ "/kyber/decapsulate")
          [("secretKey", kyberSecretKey ctx);
           ("ciphertext", prop encapsulated "ciphertext")] t with
  | (Thrown e, t1) => (Thrown e, t1)
  | (Normal decapRes, t1) =>
      if isNullish decapRes
      then (Thrown (TypeError_read decapRes "sharedSecret"), t1)
      else
        let same :=
          strictEq (prop encapsulated "sharedSecret") (prop decapRes "sharedSecret") in
        match reasonText rt payloadHintBytes policyPreferredSig with
        | None => (Thrown TypeError_convert, t1)
        | Some why =>
            (Normal
               {| akeStatus := if same then "ok" else "mismatch";
                  schemeSelected := scheme;
                  reason := why;
                  resultSignerLevel := nullish_ (signerLevel ctx) baseSignerLevel;
                  resultSignerKid := nullish_ (signerKid ctx) baseSignerKid;
                  ciphertextLen :=
                    nullish_ (optProp (prop encapsulated "ciphertext") "length")
                      (VNum (ofZ 0));
                  sharedSecretMatch := same |}, t1)
        end
  end.
Proof.
  unfold decapsulateAndCompare. unfold bind at 1.
  destruct (postJSON _ _ _ _ t) as [[decapRes | e] t1]; [| reflexivity].
  unfold read, bind. destruct (isNullish decapRes); [reflexivity |].
  cbv beta iota delta [ret]. rewrite reasonOf_run.
  now destruct (reasonText rt payloadHintBytes policyPreferredSig).
Qed.

(** What a result says about the run that produced it. *)
Lemma selectAke_result (reqBody : value) (t0 t : Trace) (result : AkeResult) :
  selectAke rt env world reqBody t0 = (Normal result, t) ->
  let b := nullish_ reqBody (VObj []) in
  exists t1,
    selectSigScheme rt env world (prop b "payloadHintBytes")
      (prop b "policyPreferredSig") t0 = (Normal (schemeSelected result), t1) /\
    reasonText rt (prop b "payloadHintBytes") (prop b "policyPreferredSig") =
      Some (reason result).
Proof.
  rewrite selectAke_stages. cbv zeta.
  destruct (selectSigScheme _ _ _ _ _ t0) as [[scheme | e] t1]; [| discriminate].
  destruct (firstReachable world (KYBER_BASES env) t1) as [[[kyberBase |] | e] t2];
    try discriminate.
  destruct (firstReachable world (signatureBases env scheme) t2)
    as [[[sigBase |] | e] t3]; try discriminate.
  destruct (signAndEncapsulate _ _ _ _ _ _ _ t3) as [[[[lvl kid] [enc ctx]] | e] t4];
    [| discriminate].
  rewrite decapsulateAndCompare_run.
  destruct (postJSON _ _ _ _ t4) as [[decapRes | e] t5]; [| discriminate].
  destruct (isNullish decapRes); [discriminate |]. cbv zeta.
  destruct (reasonText rt _ _) as [why |]; [| discriminate].
  intro H. inversion H; subst. exists t1. auto.
Qed.


(** Whatever is thrown inside the handler becomes the 502 reply; in
    particular an error out of the signing chain, once the scheme and the
    two bases are resolved. *)
Lemma chain_error_is_502 (reqBody : value) (t0 t1 t2 t3 t4 : Trace)
    (scheme : Scheme) (kyberBase sigBase : string) (e : JsError) :
  let b := nullish_ reqBody (VObj []) in
  selectSigScheme rt env world (prop b "payloadHintBytes")
    (prop b "policyPreferredSig") t0 = (Normal scheme, t1) ->
  firstReachable world (KYBER_BASES env) t1 = (Normal (Some kyberBase), t2) ->
  firstReachable world (signatureBases env scheme) t2 = (Normal (Some sigBase), t3) ->
  signAndEncapsulate rt env world scheme kyberBase sigBase (prop b "level") t3 =
    (Thrown e, t4) ->
  handleSelectAke rt env world reqBody t0 =
    (Reply502 "select_ake_failed" (detailOf e), t4).
Proof.
  cbv zeta. intros Hscheme Hkyber Hsig Hsigned.
  unfold handleSelectAke. rewrite selectAke_stages. cbv zeta.
  now rewrite Hscheme, Hkyber, Hsig, Hsigned.
Qed.


End Route.

(** ** Keypairs of the signing contexts *)

Section Keypairs.

Variable rt : Runtime.
Variable world : World.
Variable scheme : Scheme.
Variable sigBase : string.
Variables initialKyberPublicKey initialKyberSecretKey : value.
Variables baseServiceSignerPublicKey baseSignerLevel baseSignerKid : value.

(** The rotation and the direct strategy keep the keypair generated at
    the start of the request. *)
Lemma direct_context_keypair (t t1 : Trace) (ctx : SigningContext) :
  directStrategy rt world scheme sigBase initialKyberPublicKey initialKyberSecretKey
    baseServiceSignerPublicKey baseSignerLevel baseSignerKid t = (Normal ctx, t1) ->
  kyberPublicKey ctx = initialKyberPublicKey /\
  kyberSecretKey ctx = initialKyberSecretKey.
Proof.
  unfold directStrategy, bind.
  destruct (postJSON _ _ _ _ t) as [[signResp | e] t2]; [| discriminate].
  destruct (readFirst signResp _ t2) as [[sig | e] t3]; [| discriminate].
  destruct (ToBoolean sig); simpl; [| discriminate].
  intro H. inversion H. auto.
Qed.

Lemma rotation_context_keypair (rotationAlg rotationBase : string) (t t1 : Trace)
    (ctx : SigningContext) :
  rotationStrategy rt world initialKyberPublicKey initialKyberSecretKey
    baseServiceSignerPublicKey baseSignerLevel baseSignerKid rotationAlg rotationBase t =
    (Normal ctx, t1) ->
  kyberPublicKey ctx = initialKyberPublicKey /\
  kyberSecretKey ctx = initialKyberSecretKey.
Proof.
  unfold rotationStrategy, bind.
  destruct (tryCatch _ _ t) as [[current | e] t2]; [| discriminate].
  destruct (postJSON _ _ _ _ t2) as [[signResp | e] t3]; [| discriminate].
  destruct (readFirst signResp _ t3) as [[sig | e] t4]; [| discriminate].
  destruct (ToBoolean sig); simpl; [| discriminate].
  intro H. inversion H. auto.
Qed.

(** The bootstrap strategy takes each key from the bootstrap response if
    the response has it, and from the initial keypair otherwise. *)
Lemma bootstrap_context_keypair (t t1 : Trace) (ctx : SigningContext) :
  bootstrapStrategy rt world sigBase initialKyberPublicKey initialKyberSecretKey
    baseServiceSignerPublicKey baseSignerLevel baseSignerKid t = (Normal ctx, t1) ->
  exists bootstrap t2,
    postJSON rt world (sigBase ++ "/orchestrator/bootstrap") [] t = (Normal bootstrap, t2) /\
    kyberPublicKey ctx = or_ (prop bootstrap "kyberPublicKey") initialKyberPublicKey /\
    kyberSecretKey ctx = or_ (prop bootstrap "kyberSecretKey") initialKyberSecretKey.
Proof.
  unfold bootstrapStrategy, bind.
  destruct (postJSON _ _ _ _ t) as [[bootstrap | e] t2]; [| discriminate].
  destruct (readFirst bootstrap _ t2) as [[sig | e] t3]; [| discriminate].
  destruct (ToBoolean sig); simpl; [| discriminate].
  intro H. inversion H. exists bootstrap, t2. auto.
Qed.

(** The verify-and-encapsulate call carries the public key of the context
    it is made for. *)
Lemma encapsulate_sends_context_key (ctx : SigningContext) :
  lookup "kyberPublicKey" (encapsulatePayload scheme baseSignerLevel ctx) =
  kyberPublicKey ctx.
Proof. reflexivity. Qed.

End Keypairs.

Section Interface.

Variable rt : Runtime.
Variable env : Env.
Variable world : World.

Lemma payloadTight_truthy (v : value) :
  payloadTight rt v = true ->
  ToBoolean v = true /\ le_num rt v (ofZ 1024) = Some true /\
  exists n, ToNumber rt v = Some n.
Proof.
  intro H. unfold payloadTight in H.
  destruct (ToNumber rt v) as [n |] eqn:Hn; [| discriminate H].
  split; [| split; [| eauto]].
  - assert (Hzero : (if Qlt_le_dec 0 (inject_Z 0)
                     then Qle_bool (inject_Z 0) 1024 else false) = false).
    { destruct (Qlt_le_dec 0 (inject_Z 0)) as [Hlt | _];
        [now apply Qlt_irrefl in Hlt | reflexivity]. }
    destruct v as [| | [] | m | s | items | fields]; simpl in Hn;
      try reflexivity; inversion Hn; subst n; try discriminate H;
      try (unfold ofZ in H; rewrite Hzero in H; discriminate H).
    + destruct m as [| | | q]; try discriminate H. simpl.
      destruct (Qlt_le_dec 0 q) as [Hlt | Hle]; [| discriminate H].
      destruct (Qeq_bool q 0) eqn:Hq; [| reflexivity].
      apply Qeq_bool_iff in Hq. rewrite Hq in Hlt. now apply Qlt_irrefl in Hlt.
    + destruct s; [| reflexivity].
      change (stringToNumber rt "") with (Fin (inject_Z 0)) in H.
      cbv beta iota in H. rewrite Hzero in H. discriminate H.
  - unfold le_num. rewrite Hn. simpl. f_equal.
    rewrite <- tight_number in H.
    now apply andb_true_iff in H.
Qed.

Lemma digits_payloadTight (s : string) (n : Z) :
  s <> "" -> decimalDigits 0 s = Some n -> (0 < n <= 1024)%Z ->
  payloadTight rt (VStr s) = true.
Proof.
  intros Hs Hdigits Hn. unfold payloadTight, ToNumber, stringToNumber.
  destruct s; [congruence |]. rewrite Hdigits.
  replace (n <=? 2 ^ 53)%Z with true by (symmetry; apply Z.leb_le; lia).
  unfold ofZ. destruct (Qlt_le_dec 0 (inject_Z n)) as [_ | Hle].
  - apply Qle_bool_iff. unfold Qle. simpl. lia.
  - unfold Qle in Hle. simpl in Hle. lia.
Qed.

(** The guard of line 118 is false for the hints that convert to NaN or to
    a number that is not greater than 0, and throws for those that cannot
    be converted. *)
Lemma hintGuard_run (v : value) (t : Trace) :
  hintGuard rt v t =
  (match ToNumber rt v with
   | None => Thrown TypeError_convert
   | Some NaN | Some NegInf => Normal false
   | Some PosInf => Normal true
   | Some (Fin q) => Normal (if Qlt_le_dec 0 q then true else false)
   end, t).
Proof.
  unfold hintGuard, isNaN, gt_num, bind, converted.
  destruct (ToNumber rt v) as [[| | | q] |]; try reflexivity.
  simpl. unfold num_gtb, num_ltb, ofZ. f_equal. f_equal.
  destruct (Qlt_le_dec 0 q) as [Hlt | Hle].
  - pose proof (proj1 (Qlt_alt 0 q) Hlt) as Hc.
    change ((inject_Z 0 ?= q)%Q = Lt) in Hc. now rewrite Hc.
  - pose proof (proj1 (Qge_alt 0 q) Hle) as Hc.
    change ((inject_Z 0 ?= q)%Q <> Lt) in Hc.
    destruct (inject_Z 0 ?= q)%Q; try reflexivity. now elim Hc.
Qed.

(** C10. A payload hint counts by the number it converts to, so a numeric
    string such as ["512"] is not ignored.  With no preference, a hint
    that converts to a number > 0 and <= 1024 and a Falcon candidate found
    by the selector's search, the selector returns Falcon; and when the
    round trip then completes, the reply is the 200 one with the scheme
    Falcon and the reason ['payload_tight'].  A string of decimal digits
    that denotes a number from 1 to 1024, such as ["512"], is such a hint.
    Falcon being reachable can also be read as: one of its candidates
    answers whenever it is probed.  The guard of the heuristic is false
    exactly for the values that convert to NaN or to a number that is not
    greater than 0, and such a hint is ignored: the selector does what it
    does without a hint.  A value that cannot be converted is not ignored,
    the guard throws. *)
Theorem numeric_string_hint_selects_falcon (reqBody : value) (t0 t2 : Trace)
    (d : option string) (f : string) :
  let b := nullish_ reqBody (VObj []) in
  let payloadHintBytes := prop b "payloadHintBytes" in
  let policyPreferredSig := prop b "policyPreferredSig" in
  ToBoolean policyPreferredSig = false ->
  payloadTight rt payloadHintBytes = true ->
  searchBoth world (DILITHIUM_BASES env) (FALCON_BASES env) t0 =
    (Normal (d, Some f), t2) ->
  selectSigScheme rt env world payloadHintBytes policyPreferredSig t0 =
    (Normal Falcon, t2) /\
  (forall (kyberBase sigBase : string) (t3 t4 t5 t6 : Trace)
          (baseSignerLevel baseSignerKid encapsulated decapRes : value)
          (ctx : SigningContext),
     firstReachable world (KYBER_BASES env) t2 = (Normal (Some kyberBase), t3) ->
     firstReachable world (FALCON_BASES env) t3 = (Normal (Some sigBase), t4) ->
     signAndEncapsulate rt env world Falcon kyberBase sigBase (prop b "level") t4 =
       (Normal (baseSignerLevel, baseSignerKid, (encapsulated, ctx)), t5) ->
     postJSON rt world (kyberBase ++ "/kyber/decapsulate")
       [("secretKey", kyberSecretKey ctx);
        ("ciphertext", prop encapsulated "ciphertext")] t5 = (Normal decapRes, t6) ->
     isNullish decapRes = false ->
     exists result,
       handleSelectAke rt env world reqBody t0 = (Reply200 result, t6) /\
       schemeSelected result = Falcon /\ reason result = "payload_tight") /\
  (forall result t,
     handleSelectAke rt env world reqBody t0 = (Reply200 result, t) ->
     schemeSelected result = Falcon /\ reason result = "payload_tight") /\
  (forall b,
     In b (FALCON_BASES env) -> (forall u, answersAt world u b = true) ->
     forall v pref t,
       ToBoolean pref = false -> payloadTight rt v = true ->
       exists t', selectSigScheme rt env world v pref t = (Normal Falcon, t')) /\
  (forall v pref t n,
     ToNumber rt v = Some n ->
     n = NaN \/ n = NegInf \/ (exists q, n = Fin q /\ (q <= 0)%Q) ->
     selectSigScheme rt env world v pref t =
     selectSigScheme rt env world VUndefined pref t) /\
  payloadTight rt (VStr "512") = true /\
  (forall s n,
     s <> "" -> decimalDigits 0 s = Some n -> (0 < n <= 1024)%Z ->
     payloadTight rt (VStr s) = true) /\
  (forall v t,
     hintGuard rt v t = (Normal false, t) <->
     exists n, ToNumber rt v = Some n /\
               (n = NaN \/ n = NegInf \/ exists q, n = Fin q /\ (q <= 0)%Q)) /\
  (forall v t,
     hintGuard rt v t = (Thrown TypeError_convert, t) <-> unconvertible v = true).
Proof.
  cbv zeta. intros Hpref Htight Hsearch.
  assert (Hselect :
            selectSigScheme rt env world
              (prop (nullish_ reqBody (VObj [])) "payloadHintBytes")
              (prop (nullish_ reqBody (VObj [])) "policyPreferredSig") t0 =
            (Normal Falcon, t2)).
  { destruct (selectSigScheme_run rt env world
                (prop (nullish_ reqBody (VObj [])) "payloadHintBytes")
                (prop (nullish_ reqBody (VObj [])) "policyPreferredSig") t0)
      as (d' & f' & t2' & Hsearch' & _ & Hrun).
    rewrite Hsearch in Hsearch'. inversion Hsearch'; subst d' f' t2'.
    rewrite Hrun. unfold decidedOrThrown, decisionOrder.
    rewrite (falsy_preference _ _ _ Hpref), Htight.
    destruct (payloadTight_truthy _ Htight) as (_ & _ & n & ->). reflexivity. }
  assert (Hreason :
            reasonText rt (prop (nullish_ reqBody (VObj [])) "payloadHintBytes")
              (prop (nullish_ reqBody (VObj [])) "policyPreferredSig") =
            Some "payload_tight").
  { unfold reasonText. rewrite Hpref.
    destruct (payloadTight_truthy _ Htight) as (-> & -> & _). reflexivity. }
  split; [exact Hselect |].
  split; [| split; [| split; [| split; [| split; [| split; [| split]]]]]].
  - intros kyberBase sigBase t3 t4 t5 t6 lvl kid enc decapRes ctx
      Hkyber Hsig Hsigned Hdecap Hbody.
    unfold handleSelectAke. rewrite selectAke_stages. cbv zeta.
    rewrite Hselect, Hkyber. unfold signatureBases.
    rewrite Hsig, Hsigned, decapsulateAndCompare_run, Hdecap, Hbody. cbv zeta.
    rewrite Hreason. eexists. split; [reflexivity | split; reflexivity].
  - intros result t Hreply. unfold handleSelectAke in Hreply.
    destruct (selectAke rt env world reqBody t0) as [[result' | e] t'] eqn:Hrun;
      [| discriminate].
    inversion Hreply; subst result' t'.
    apply selectAke_result in Hrun. cbv zeta in Hrun.
    destruct Hrun as (t1' & Hscheme & Hwhy).
    rewrite Hselect in Hscheme. inversion Hscheme as [[Hs Ht]].
    split; [now symmetry |]. rewrite Hreason in Hwhy. now inversion Hwhy.
  - intros b Hin Hup v pref t Hfalsy Hv.
    destruct (selectSigScheme_run rt env world v pref t)
      as (d' & f' & t' & _ & Hboth & Hrun).
    apply searchedBoth_probes in Hboth.
    destruct Hboth as (pd & pf & probes & more & _ & _ & _ & Hf & _).
    exists t'. rewrite Hrun. unfold decidedOrThrown, decisionOrder.
    rewrite (falsy_preference _ _ _ Hfalsy), Hv.
    rewrite (found_when_answering _ _ _ _ _ Hf Hin Hup).
    destruct (payloadTight_truthy _ Hv) as (_ & _ & n & ->). reflexivity.
  - intros v pref t n Hn Hcases.
    destruct (selectSigScheme_run rt env world v pref t)
      as (d1 & f1 & u1 & Hs1 & _ & ->).
    destruct (selectSigScheme_run rt env world VUndefined pref t)
      as (d2 & f2 & u2 & Hs2 & _ & ->).
    rewrite Hs1 in Hs2. inversion Hs2; subst d2 f2 u2. f_equal.
    assert (Hv : payloadTight rt v = false).
    { unfold payloadTight. rewrite Hn.
      destruct Hcases as [-> | [-> | (q & -> & Hq)]]; try reflexivity.
      destruct (Qlt_le_dec 0 q) as [Hlt | _]; [| reflexivity].
      now apply Qlt_not_le in Hlt. }
    unfold decidedOrThrown, decisionOrder. rewrite Hn, Hv.
    now destruct (preferredReachable pref (found d1) (found f1)).
  - reflexivity.
  - exact digits_payloadTight.
  - intros v t. rewrite hintGuard_run.
    destruct (ToNumber rt v) as [[| | | q] |].
    + split; [intros _; exists NaN; auto | reflexivity].
    + split; [intro H; inversion H |].
      intros (n & Hn & [H | [H | (q' & H & _)]]); congruence.
    + split; [intros _; exists NegInf; auto | reflexivity].
    + destruct (Qlt_le_dec 0 q) as [Hlt | Hle]; split.
      * intro H. inversion H.
      * intros (n & Hn & [H | [H | (q' & H & Hq)]]); try congruence.
        assert (q' = q) by congruence. subst q'. now apply Qlt_not_le in Hlt.
      * intros _. exists (Fin q). split; [reflexivity |]. right; right. eauto.
      * reflexivity.
    + split; [intro H; inversion H | intros (n & Hn & _); discriminate Hn].
  - intros v t. rewrite hintGuard_run, <- (ToNumber_unconvertible rt).
    destruct (ToNumber rt v) as [[| | | q] |]; split; try discriminate; reflexivity.
Qed.

Lemma firstReachable_probes (bases : list string) (t t1 : Trace) (r : option string) :
  firstReachable world bases t = (Normal r, t1) ->
  exists probed, t1 = (t ++ map healthCall probed)%list /\ incl probed bases.
Proof.
  intro H. destruct (firstReachable_run world bases t) as (r' & t' & Hrun & Hr).
  rewrite H in Hrun. inversion Hrun; subst r' t'.
  destruct r as [b |].
  - destruct Hr as (pre & post & -> & _ & _ & ->).
    exists (pre ++ [b])%list. split; [reflexivity |].
    intros x Hx. apply in_app_or in Hx. apply in_or_app.
    destruct Hx as [Hx | [<- | []]]; [now left | right; now left].
  - destruct Hr as [_ ->]. exists bases. split; [reflexivity | apply incl_refl].
Qed.


(** Every list of candidates has the three fixed ones. *)
Lemma bases_not_nil :
  KYBER_BASES env <> [] /\ DILITHIUM_BASES env <> [] /\ FALCON_BASES env <> [] /\
  KEYROTATION_BASES env <> [].
Proof.
  unfold KYBER_BASES, DILITHIUM_BASES, FALCON_BASES, KEYROTATION_BASES.
  destruct (KYBER_BASE env) as [[|] |]; destruct (DILITHIUM_BASE env) as [[|] |];
    destruct (FALCON_BASE env) as [[|] |];
    destruct (envOr (KEYROTATION_BASE env) (ROTATION_BASE env)) as [[|] |];
    repeat split; discriminate.
Qed.

(** What the selector's two searches log: probes of candidates of the
    signature backends, the first Dilithium candidate to begin with, then
    the first Falcon candidate. *)
Lemma selector_probes (t t2 : Trace) (d f : option string) :
  searchedBoth world (DILITHIUM_BASES env) (FALCON_BASES env) t d f t2 ->
  exists sel more,
    t2 = (t ++ sel)%list /\ Forall (signatureProbe env) sel /\
    sel = map healthCall (firstn 1 (DILITHIUM_BASES env) ++
                          firstn 1 (FALCON_BASES env) ++ more)%list /\
    sel <> [] /\
    (List.length sel <=
       List.length (DILITHIUM_BASES env) + List.length (FALCON_BASES env))%nat.
Proof.
  intro H. apply searchedBoth_probes in H.
  destruct H as (pd & pf & probes & more & -> & Hm & Hd & Hf & Hfirst).
  destruct (searchedSometime_facts _ _ _ _ Hd) as (Hpd & Hld & _).
  destruct (searchedSometime_facts _ _ _ _ Hf) as (Hpf & Hlf & _).
  exists (map healthCall probes), more. split; [reflexivity |]. split; [| split; [| split]].
  - apply Forall_forall. intros c Hc. apply in_map_iff in Hc.
    destruct Hc as (b & <- & Hb). exists b. split; [| reflexivity].
    apply in_or_app. destruct (Merge_In _ _ _ _ _ Hm Hb); [left | right]; auto.
  - now rewrite Hfirst.
  - rewrite Hfirst. destruct bases_not_nil as (_ & Hne & _).
    destruct (DILITHIUM_BASES env); [congruence | discriminate].
  - rewrite length_map, (Merge_length _ _ _ _ Hm). lia.
Qed.


End Interface.

(** ** The examples *)

Example derive_examples :
  deriveRotationAlgorithm Dilithium VUndefined = "dilithium-l3" /\
  deriveRotationAlgorithm Falcon VNull = "falcon-l5" /\
  deriveRotationAlgorithm Falcon (VNum (Fin (5 # 2))) = "falcon-l3" /\
  deriveRotationAlgorithm Falcon (VNum (Fin (-7 # 1))) = "falcon-l1" /\
  deriveRotationAlgorithm Dilithium (VNum (Fin (99 # 1))) = "dilithium-l5" /\
  deriveRotationAlgorithm Dilithium (VStr "  Falcon-1024 ") = "falcon-l1" /\
  deriveRotationAlgorithm Dilithium (VStr "falcon_l5") = "falcon-l5" /\
  deriveRotationAlgorithm Dilithium (VStr "level 2") = "dilithium-l2" /\
  deriveRotationAlgorithm Falcon (VStr "aes256") = "falcon-l2" /\
  deriveRotationAlgorithm Falcon (VStr "high") = "falcon-l5" /\
  deriveRotationAlgorithm Dilithium (VNum PosInf) = "dilithium-l3".
Proof. repeat split; reflexivity. Qed.

Example verification_error_examples :
  isSignatureVerificationError (Error_ "Signature verification FAILED") = true /\
  isSignatureVerificationError (Error_ "invalid signature for key") = true /\
  isSignatureVerificationError (Error_ "http://localhost:8083/x -> 500") = false.
Proof. repeat split; reflexivity. Qed.

(** Scenario A of the specification. *)
Example scenario_small_payload (rt : Runtime) :
  fst (handleSelectAke rt defaultEnv healthyWorld
         (VObj [("payloadHintBytes", VNum (ofZ 512))]) []) =
  Reply200 {| akeStatus := "ok"; schemeSelected := Falcon; reason := "payload_tight";
              resultSignerLevel := VStr "Falcon-1024"; resultSignerKid := VUndefined;
              ciphertextLen := VNum (ofZ 2); sharedSecretMatch := true |}.
Proof. vm_compute. reflexivity. Qed.

(** C3.  With Falcon down and Dilithium up, a request that prefers Falcon
    is decided by the default rule, and so is a request with a 512-byte
    hint; the results name Dilithium with the reasons ['policy:falcon'] and
    ['payload_tight']. *)
Theorem reason_ignores_reachability (rt : Runtime) :
  decisionOrder rt true false VUndefined (VStr "falcon") = Some (Dilithium, DefaultRule) /\
  fst (handleSelectAke rt defaultEnv falconDownWorld prefersFalcon []) =
    Reply200 {| akeStatus := "ok"; schemeSelected := Dilithium; reason := "policy:falcon";
                resultSignerLevel := VStr "Dilithium3"; resultSignerKid := VUndefined;
                ciphertextLen := VNum (ofZ 2); sharedSecretMatch := true |} /\
  decisionOrder rt true false (VNum (ofZ 512)) VUndefined = Some (Dilithium, DefaultRule) /\
  fst (handleSelectAke rt defaultEnv falconDownWorld
         (VObj [("payloadHintBytes", VNum (ofZ 512))]) []) =
    Reply200 {| akeStatus := "ok"; schemeSelected := Dilithium; reason := "payload_tight";
                resultSignerLevel := VStr "Dilithium3"; resultSignerKid := VUndefined;
                ciphertextLen := VNum (ofZ 2); sharedSecretMatch := true |}.
Proof. repeat split; vm_compute; reflexivity. Qed.

(** C5.  When the bootstrap response has a [kyberPublicKey] but no
    [kyberSecretKey], the bootstrap context takes the public key of the
    response and the secret key generated earlier; the request then sends
    [PK-B] to verify-and-encapsulate and decapsulates with [SK0]. *)
Theorem bootstrap_context_can_mix_keypairs (rt : Runtime) :
  let run := handleSelectAke rt defaultEnv partialBootstrapWorld prefersFalcon [] in
  fst (bootstrapStrategy rt partialBootstrapWorld falconBase (VStr "PK0") (VStr "SK0")
         (VStr "SPK-F") (VStr "Falcon-1024") VUndefined []) =
    Normal {| source := "bootstrap"; signature := VStr "SIG-B";
              signerPublicKey := VStr "SPK-F"; signerLevel := VStr "Falcon-1024";
              signerKid := VUndefined;
              kyberPublicKey := VStr "PK-B"; kyberSecretKey := VStr "SK0";
              isCompressed := VUndefined |} /\
  In (mkCall POST "http://localhost:8083/orchestrator/encapsulate-verified"
        (Some (VObj [("kyberPublicKey", VStr "PK-B"); ("signature", VStr "SIG-B");
                     ("signatureBase64", VStr "SIG-B"); ("signatureB64", VStr "SIG-B");
                     ("signerPublicKey", VStr "SPK-F");
                     ("falconSignerPublicKey", VStr "SPK-F");
                     ("level", VStr "Falcon-1024")]))) (snd run) /\
  In (mkCall POST "http://localhost:8080/kyber/decapsulate"
        (Some (VObj [("secretKey", VStr "SK0"); ("ciphertext", VStr "CT-B")]))) (snd run) /\
  fst run =
    Reply200 {| akeStatus := "mismatch"; schemeSelected := Falcon;
                reason := "policy:falcon";
                resultSignerLevel := VStr "Falcon-1024"; resultSignerKid := VUndefined;
                ciphertextLen := VNum (ofZ 4); sharedSecretMatch := false |}.
Proof.
  cbv zeta. repeat split; vm_compute; try reflexivity;
    repeat (first [left; reflexivity | right]).
Qed.

(** Secrets that differ give a result, not an error. *)
Example mismatch_is_a_result (rt : Runtime) :
  fst (handleSelectAke rt defaultEnv mismatchWorld
         (VObj [("payloadHintBytes", VNum (ofZ 4096))]) []) =
  Reply200 {| akeStatus := "mismatch"; schemeSelected := Dilithium;
              reason := "default_or_health";
              resultSignerLevel := VStr "Dilithium3"; resultSignerKid := VUndefined;
              ciphertextLen := VNum (ofZ 2); sharedSecretMatch := false |}.
Proof. vm_compute. reflexivity. Qed.

(** The request made while Kyber is down, whatever the runtime: the two
    signature backends are probed, then the three Kyber candidates. *)
Example kem_down_request (rt : Runtime) :
  handleSelectAke rt defaultEnv kemDownWorld (VObj []) [] =
  (Reply502 "select_ake_failed" "Kyber unreachable",
   map healthCall ["http://localhost:8081"; "http://localhost:8083";
                   "http://localhost:8080"; "http://127.0.0.1:8080";
                   "http://host.docker.internal:8080"]).
Proof. vm_compute. reflexivity. Qed.

(** The request in which verify-and-encapsulate answers [null], whatever
    the runtime: it fails with the error of an exhausted chain, and the
    bootstrap strategy was never tried. *)
Example null_encapsulation_request (rt : Runtime) :
  let run := handleSelectAke rt defaultEnv nullEncapsulationWorld prefersFalcon [] in
  fst run = Reply502 "select_ake_failed" "No signature strategy succeeded" /\
  existsb (fun c => url c =? "http://localhost:8083/orchestrator/bootstrap") (snd run)
    = false.
Proof. split; vm_compute; reflexivity. Qed.

(** C2, as stated, fails: in that request the chain throws although a
    context passed verification and a strategy was left untried. *)
Lemma chain_fails_before_exhaustion :
  ~ failsOnlyWhenExhausted
      (encapsulateVerified stubRuntime nullEncapsulationWorld Falcon falconBase
         (VStr "Falcon-1024"))
      (falconStrategies nullEncapsulationWorld) [].
Proof.
  intro H.
  refine (_ (H (Error_ "No signature strategy succeeded")
               (snd (signingChain
                       (encapsulateVerified stubRuntime nullEncapsulationWorld Falcon
                          falconBase (VStr "Falcon-1024"))
                       (falconStrategies nullEncapsulationWorld) [])) _)).
  - vm_compute. exact (fun absurd => absurd).
  - vm_compute. reflexivity.
Qed.




Lemma incomplete_context_witness :
  incomplete contextWithoutSecretKey = true /\
  strategyLoop falconSubmit [ret contextWithoutSecretKey; ret fullContext] initialState [] =
    strategyLoop falconSubmit [ret fullContext] initialState [] /\
  strategyLoop falconSubmit [ret contextWithoutSecretKey; ret fullContext] initialState [] =
    strategyLoop guardedSubmit [ret contextWithoutSecretKey; ret fullContext] initialState [].
Proof.
  destruct (incomplete_context_never_submitted falconSubmit guardedSubmit
              (ret contextWithoutSecretKey) [ret fullContext]
              [ret contextWithoutSecretKey; ret fullContext] initialState [])
    as (_ & Hstep & Hsame).
  split; [reflexivity | split].
  - apply (Hstep contextWithoutSecretKey []); reflexivity.
  - apply Hsame. intros ctx t1 Hcomplete. unfold guardedSubmit.
    rewrite Hcomplete. reflexivity.
Defined.

(** The request with the hint ["512"] against healthy backends: Falcon is
    selected, and the reply is the 200 one with the reason
    ['payload_tight']. *)
Lemma numeric_string_hint_witness :
  payloadTight stubRuntime (VStr "512") = true /\
  (exists t2,
     selectSigScheme stubRuntime defaultEnv healthyWorld (VStr "512") VUndefined [] =
       (Normal Falcon, t2)) /\
  exists result t,
    handleSelectAke stubRuntime defaultEnv healthyWorld hint512 [] = (Reply200 result, t) /\
    schemeSelected result = Falcon /\ reason result = "payload_tight".
Proof.
  split; [reflexivity |].
  edestruct (numeric_string_hint_selects_falcon stubRuntime defaultEnv healthyWorld
               hint512 [])
    as (Hselect & Hresult & _);
    [reflexivity | reflexivity | lazy; reflexivity |].
  split; [eexists; exact Hselect |].
  edestruct Hresult as (result & Hreply & Hscheme & Hreason);
    [lazy; reflexivity | lazy; reflexivity | lazy; reflexivity | lazy; reflexivity
     | reflexivity |].
  exists result. eexists. split; [exact Hreply | split; assumption].
Defined.




(** * Further properties *)

(** ** Candidate lists and probing *)

Lemma firstReachable_prefix (world : World) (bases : list string) (t t1 : Trace)
    (r : option string) :
  firstReachable world bases t = (Normal r, t1) ->
  exists probed rest,
    bases = (probed ++ rest)%list /\
    t1 = (t ++ map healthCall probed)%list /\
    match r with
    | Some b => exists pre, probed = (pre ++ [b])%list
    | None => rest = []
    end.
Proof.
  intro H. destruct (firstReachable_run world bases t) as (r' & t' & Hrun & Hr).
  rewrite H in Hrun. inversion Hrun; subst r' t'.
  destruct r as [b |].
  - destruct Hr as (pre & post & -> & _ & _ & ->).
    exists (pre ++ [b])%list, post. rewrite <- app_assoc. simpl. eauto.
  - destruct Hr as [_ ->]. exists bases, []. now rewrite app_nil_r.
Qed.

Lemma firstReachable_total (world : World) (bases : list string) (t : Trace) :
  exists r t1, firstReachable world bases t = (Normal r, t1).
Proof.
  destruct (firstReachable_run world bases t) as (r & t1 & H & _). eauto.
Qed.

Lemma firstReachable_isBase (world : World) (l : list (option string)) (t t1 : Trace)
    (r : option string) :
  firstReachable world (filterBoolean l) t = (Normal r, t1) ->
  isBase r = match r with Some _ => true | None => false end.
Proof.
  intro H. destruct r as [b |]; [| reflexivity].
  apply firstReachable_member, filterBoolean_nonempty in H.
  destruct b; [congruence | reflexivity].
Qed.

(** The search in the words of the specification. *)
Lemma firstReachable_searched (world : World) (bases : list string) (t : Trace) :
  exists r probed,
    firstReachable world bases t = (Normal r, (t ++ map healthCall probed)%list) /\
    searched world t bases r probed.
Proof.
  destruct (firstReachable_run world bases t) as (r & t1 & Hrun & Hr).
  exists r. destruct r as [b |].
  - destruct Hr as (pre & post & Heq & Hnone & Hb & ->).
    exists (pre ++ [b])%list. split; [exact Hrun |]. exists pre, post. auto.
  - destruct Hr as [Hnone ->]. exists bases. split; [exact Hrun | now split].
Qed.

Section Health.

Variable env : Env.
Variable world : World.

(** The four searches of the route, one after the other. *)
Lemma handleHealth_run (t : Trace) :
  exists kb db fb rb t1 t2 t3 t4,
    firstReachable world (KYBER_BASES env) t = (Normal kb, t1) /\
    firstReachable world (DILITHIUM_BASES env) t1 = (Normal db, t2) /\
    firstReachable world (FALCON_BASES env) t2 = (Normal fb, t3) /\
    firstReachable world (KEYROTATION_BASES env) t3 = (Normal rb, t4) /\
    handleHealth env world t =
      (Normal {| healthStatus :=
                   if isBase kb && (isBase db || isBase fb) then "ok" else "degraded";
                 kyber := backendOf kb; dilithium := backendOf db;
                 falcon := backendOf fb; rotation := backendOf rb |}, t4).
Proof.
  destruct (firstReachable_total world (KYBER_BASES env) t) as (kb & t1 & Hk).
  destruct (firstReachable_total world (DILITHIUM_BASES env) t1) as (db & t2 & Hd).
  destruct (firstReachable_total world (FALCON_BASES env) t2) as (fb & t3 & Hf).
  destruct (firstReachable_total world (KEYROTATION_BASES env) t3) as (rb & t4 & Hr).
  exists kb, db, fb, rb, t1, t2, t3, t4. repeat split; try assumption.
  unfold handleHealth, bind. now rewrite Hk, Hd, Hf, Hr.
Qed.

(** The four searches of the route in the words of the specification:
    each one starts after the probes of the one before. *)
Lemma handleHealth_searched (t : Trace) :
  exists kb db fb rb pk pd pf pr,
    searched world t (KYBER_BASES env) kb pk /\
    searched world (t ++ map healthCall pk)%list (DILITHIUM_BASES env) db pd /\
    searched world (t ++ map healthCall (pk ++ pd))%list (FALCON_BASES env) fb pf /\
    searched world (t ++ map healthCall (pk ++ pd ++ pf))%list (KEYROTATION_BASES env) rb pr /\
    handleHealth env world t =
      (Normal {| healthStatus :=
                   if found kb && (found db || found fb) then "ok" else "degraded";
                 kyber := {| reachable := found kb; base := kb |};
                 dilithium := {| reachable := found db; base := db |};
                 falcon := {| reachable := found fb; base := fb |};
                 rotation := {| reachable := found rb; base := rb |} |},
       t ++ map healthCall (pk ++ pd ++ pf ++ pr))%list.
Proof.
  destruct (firstReachable_searched world (KYBER_BASES env) t) as (kb & pk & Hk & Hsk).
  destruct (firstReachable_searched world (DILITHIUM_BASES env) (t ++ map healthCall pk)%list)
    as (db & pd & Hd & Hsd).
  destruct (firstReachable_searched world (FALCON_BASES env)
              (t ++ map healthCall (pk ++ pd))%list) as (fb & pf & Hf & Hsf).
  destruct (firstReachable_searched world (KEYROTATION_BASES env)
              (t ++ map healthCall (pk ++ pd ++ pf))%list) as (rb & pr & Hr & Hsr).
  exists kb, db, fb, rb, pk, pd, pf, pr. repeat (split; [assumption |]).
  rewrite !map_app, !app_assoc in *.
  unfold handleHealth, bind. rewrite Hk, Hd, Hf, Hr. unfold ret, backendOf.
  now rewrite (firstReachable_isBase _ _ _ _ _ Hk), (firstReachable_isBase _ _ _ _ _ Hd),
    (firstReachable_isBase _ _ _ _ _ Hf), (firstReachable_isBase _ _ _ _ _ Hr).
Qed.

(** X1. [GET /health] always answers with a report, after four searches
    made one after the other: of the Kyber candidates, then of the
    Dilithium, the Falcon and the rotation ones.  The status is ['ok']
    exactly when the Kyber search found a candidate that answered its
    probe and the Dilithium or the Falcon search did, ['degraded']
    otherwise, whatever the rotation service does; for each backend
    [reachable] says whether its search found a candidate, and [base] is
    that candidate, which answered its probe when it was made. *)
Theorem health_report_consistent (t : Trace) :
  exists report kb db fb rb pk pd pf pr,
    handleHealth env world t =
      (Normal report, t ++ map healthCall (pk ++ pd ++ pf ++ pr))%list /\
    searched world t (KYBER_BASES env) kb pk /\
    searched world (t ++ map healthCall pk)%list (DILITHIUM_BASES env) db pd /\
    searched world (t ++ map healthCall (pk ++ pd))%list (FALCON_BASES env) fb pf /\
    searched world (t ++ map healthCall (pk ++ pd ++ pf))%list (KEYROTATION_BASES env) rb pr /\
    (healthStatus report = "ok" <->
     found kb = true /\ (found db = true \/ found fb = true)) /\
    (healthStatus report <> "ok" -> healthStatus report = "degraded") /\
    Forall (fun entry : Backend * option string =>
              reachable (fst entry) = found (snd entry) /\
              base (fst entry) = snd entry)
      [(kyber report, kb); (dilithium report, db); (falcon report, fb);
       (rotation report, rb)] /\
    Forall (fun entry : option string * list string =>
              forall s, fst entry = Some s ->
                In s (snd entry) /\ s <> "" /\ exists u, answersAt world u s = true)
      [(kb, KYBER_BASES env); (db, DILITHIUM_BASES env); (fb, FALCON_BASES env);
       (rb, KEYROTATION_BASES env)].
Proof.
  destruct (handleHealth_searched t)
    as (kb & db & fb & rb & pk & pd & pf & pr & Hk & Hd & Hf & Hr & Hrun).
  eexists. exists kb, db, fb, rb, pk, pd, pf, pr.
  split; [exact Hrun |]. repeat (split; [assumption |]). simpl.
  split; [| split; [| split]].
  - destruct (found kb), (found db), (found fb); simpl; split;
      try discriminate; intuition congruence.
  - destruct (found kb && (found db || found fb)); [congruence | reflexivity].
  - repeat (apply Forall_cons; [simpl; split; reflexivity |]). apply Forall_nil.
  - assert (Hone : forall l r u probed,
                searched world u (filterBoolean l) r probed ->
                forall s, r = Some s ->
                  In s (filterBoolean l) /\ s <> "" /\
                  exists u', answersAt world u' s = true).
    { intros l r u probed H s ->. destruct H as (pre & post & Heq & _ & _ & Hs).
      assert (Hin : In s (filterBoolean l)) by (rewrite Heq; apply in_elt).
      split; [exact Hin | split; [exact (filterBoolean_nonempty _ _ Hin) | eauto]]. }
    repeat (apply Forall_cons; [simpl; eapply Hone; eassumption |]). apply Forall_nil.
Qed.

(** X2. [GET /health] makes liveness probes only: of the Kyber candidates,
    then the Dilithium, the Falcon and the rotation ones.  Each list is
    probed in its order up to and including its first candidate that
    answers its probe, the candidates before it not having answered
    theirs, or to its end when no candidate answers; so at least one
    candidate of every backend is probed, whatever the others answered. *)
Theorem health_probes_in_order (t : Trace) :
  exists pk pd pf pr,
    snd (handleHealth env world t) =
      (t ++ map healthCall (pk ++ pd ++ pf ++ pr))%list /\
    Forall (fun entry : Trace * list string * list string =>
              let '(start, bases, probed) := entry in
              (exists rest, bases = (probed ++ rest)%list) /\ probed <> [] /\
              (forall pre b, probed = (pre ++ [b])%list ->
                 noneAnswers world start pre = true) /\
              ((exists pre b,
                  probed = (pre ++ [b])%list /\
                  answersAt world (start ++ map healthCall pre)%list b = true) \/
               (probed = bases /\ noneAnswers world start bases = true)))
      [(t, KYBER_BASES env, pk);
       ((t ++ map healthCall pk)%list, DILITHIUM_BASES env, pd);
       ((t ++ map healthCall (pk ++ pd))%list, FALCON_BASES env, pf);
       ((t ++ map healthCall (pk ++ pd ++ pf))%list, KEYROTATION_BASES env, pr)].
Proof.
  destruct (handleHealth_searched t)
    as (kb & db & fb & rb & pk & pd & pf & pr & Hk & Hd & Hf & Hr & Hrun).
  exists pk, pd, pf, pr. rewrite Hrun. split; [reflexivity |].
  assert (Hone : forall bases r u probed,
              bases <> [] -> searched world u bases r probed ->
              (exists rest, bases = (probed ++ rest)%list) /\ probed <> [] /\
              (forall pre b, probed = (pre ++ [b])%list ->
                 noneAnswers world u pre = true) /\
              ((exists pre b,
                  probed = (pre ++ [b])%list /\
                  answersAt world (u ++ map healthCall pre)%list b = true) \/
               (probed = bases /\ noneAnswers world u bases = true))).
  { intros bases r u probed Hbases H. destruct r as [b |].
    - destruct H as (pre & post & -> & -> & Hnone & Hb).
      split; [exists post; now rewrite <- app_assoc |].
      split; [now destruct pre |]. split; [| left; eauto].
      intros pre' b' Heq. apply app_inj_tail in Heq. now destruct Heq as [<- _].
    - destruct H as [-> Hnone].
      split; [exists []; now rewrite app_nil_r |]. split; [exact Hbases |].
      split; [| right; now split].
      intros pre b ->. revert u Hnone. clear. induction pre as [| x pre IH]; intros u H.
      + reflexivity.
      + simpl in *. apply andb_true_iff in H. destruct H as [-> H]. simpl.
        now apply IH. }
  destruct (bases_not_nil env) as (Hk' & Hd' & Hf' & Hr').
  repeat (apply Forall_cons; [eapply Hone; eassumption |]). apply Forall_nil.
Qed.

(** X3. The repository's health test cannot fail against this route: for
    every report the route produces, [testHealthSemantics] applied to the
    200 reply with that body passes. *)
Theorem health_test_passes (rt : Runtime) (t : Trace) :
  exists report t',
    handleHealth env world t = (Normal report, t') /\
    testHealthSemantics rt
      {| respOk := true; respStatus := 200; respJson := healthJSON report |} =
    Normal TestPassed.
Proof.
  destruct (handleHealth_run t)
    as (kb & db & fb & rb & t1 & t2 & t3 & t4 & Hk & Hd & Hf & Hr & Hrun).
  eexists. exists t4. split; [exact Hrun |].
  rewrite (firstReachable_isBase _ _ _ _ _ Hk), (firstReachable_isBase _ _ _ _ _ Hd),
    (firstReachable_isBase _ _ _ _ _ Hf).
  assert (Hne : forall l r u u' s,
              firstReachable world (filterBoolean l) u = (Normal r, u') ->
              r = Some s -> s <> "").
  { intros l r u u' s H ->. apply firstReachable_member in H.
    exact (filterBoolean_nonempty _ _ H). }
  destruct kb as [[| ? ?] |]; [elim (Hne _ _ _ _ _ Hk eq_refl); reflexivity | |];
    (destruct db as [[| ? ?] |]; [elim (Hne _ _ _ _ _ Hd eq_refl); reflexivity | |]);
    (destruct fb as [[| ? ?] |]; [elim (Hne _ _ _ _ _ Hf eq_refl); reflexivity | |]);
    reflexivity.
Qed.

End Health.

(** ** Verification errors *)

Lemma includes_substring (s p : string) :
  includes s p = true <-> exists pre post, s = pre ++ p ++ post.
Proof.
  split.
  - induction s as [| c s IH]; simpl; unfold startsWith; intro H.
    + destruct (stripPrefix p "") as [rest |] eqn:Hp; [| discriminate].
      apply stripPrefix_app in Hp. exists "", rest. exact Hp.
    + destruct (stripPrefix p (String c s)) as [rest |] eqn:Hp.
      * apply stripPrefix_app in Hp. exists "", rest. exact Hp.
      * simpl in H. destruct (IH H) as (pre & post & ->).
        now exists (String c pre), post.
  - intros (pre & post & ->). induction pre as [| c pre IH].
    + simpl. destruct p as [| a p]; simpl.
      * now destruct post.
      * unfold startsWith. simpl. rewrite Ascii.eqb_refl, stripPrefix_self. reflexivity.
    + simpl. rewrite IH. apply orb_true_r.
Qed.

Lemma toLowerCase_app (a b : string) :
  toLowerCase (a ++ b) = toLowerCase a ++ toLowerCase b.
Proof. induction a as [| c a IH]; simpl; [reflexivity | now rewrite IH]. Qed.

(** X4. [isSignatureVerificationError] is a case-insensitive substring
    test: it holds exactly when the message, in lower case, contains one of
    the four phrases; so it holds for every message that contains a phrase
    in any mix of cases, anywhere, and it does not look at the error's
    name. *)
Theorem verification_error_is_substring_test (err : JsError) :
  (isSignatureVerificationError err = true <->
   exists phrase pre post,
     In phrase verificationPhrases /\
     toLowerCase (errMessage err) = pre ++ phrase ++ post) /\
  (forall pre mid post,
     In (toLowerCase mid) verificationPhrases ->
     isSignatureVerificationError (mkError (errName err) (pre ++ mid ++ post)) = true) /\
  (forall otherName,
     isSignatureVerificationError (mkError otherName (errMessage err)) =
     isSignatureVerificationError err).
Proof.
  assert (Hiff : forall e,
            isSignatureVerificationError e = true <->
            exists phrase pre post,
              In phrase verificationPhrases /\
              toLowerCase (errMessage e) = pre ++ phrase ++ post).
  { intro e. unfold isSignatureVerificationError. cbv zeta.
    rewrite !orb_true_iff, !includes_substring. unfold verificationPhrases. split.
    - intros [[[H | H] | H] | H]; destruct H as (pre & post & H);
        eexists; exists pre, post; (split; [| exact H]); simpl; tauto.
    - intros (phrase & pre & post & Hin & H). simpl in Hin.
      destruct Hin as [<- | [<- | [<- | [<- | []]]]]; eauto 8. }
  split; [apply Hiff | split].
  - intros pre mid post Hin. apply Hiff. simpl.
    exists (toLowerCase mid), (toLowerCase pre), (toLowerCase post).
    split; [exact Hin | now rewrite !toLowerCase_app].
  - reflexivity.
Qed.

Section Rejection.

Variable rt : Runtime.
Variable world : World.

Lemma exchangeJSON_logs (c : Call) (t : Trace) :
  snd (exchangeJSON rt world c t) = (t ++ [c])%list.
Proof.
  unfold exchangeJSON, bind, fetch, text.
  destruct (world t c) as [r | kind e]; [| reflexivity].
  destruct (body r) as [txt | e]; [| reflexivity].
  destruct (negb (ok r)); [| reflexivity].
  unfold ret, converted.
  now destruct (ToString rt (or_ (optProp (parseLoosely txt) "error")
                               (VStr (url c ++ " -> " ++ integerToString (status r))))).
Qed.

(** X5. A verify-and-encapsulate reply with a status outside 200..299
    whose JSON body has an [error] string with the verification wording
    makes the loop drop the context, remember that error and go on with the
    next strategy; the call is logged once. *)
Theorem rejected_signature_moves_to_next_strategy
    (scheme : Scheme) (sigBase : string) (baseSignerLevel : value)
    (getContext : M SigningContext) (rest : list (M SigningContext))
    (st : LoopState) (t t1 : Trace) (ctx : SigningContext)
    (r : Response) (j : value) (message : string) :
  let submit := encapsulateVerified rt world scheme sigBase baseSignerLevel in
  let call := mkCall POST (sigBase ++ "/orchestrator/encapsulate-verified")
                (Some (viaJSON (VObj (encapsulatePayload scheme baseSignerLevel ctx)))) in
  getContext t = (Normal ctx, t1) ->
  incomplete ctx = false ->
  world t1 call = Responded r ->
  ok r = false ->
  body r = Delivered (JsonText j) ->
  optProp j "error" = VStr message ->
  isSignatureVerificationError (Error_ message) = true ->
  submit ctx t1 = (Thrown (Error_ message), (t1 ++ [call])%list) /\
  strategyLoop submit (getContext :: rest) st t =
    strategyLoop submit rest (withLastError st (Error_ message)) (t1 ++ [call])%list.
Proof.
  cbv zeta. intros Hctx Hcomplete Hworld Hok Hbody Herror Hverification.
  assert (Hsubmit :
            encapsulateVerified rt world scheme sigBase baseSignerLevel ctx t1 =
            (Thrown (Error_ message),
             (t1 ++ [mkCall POST (sigBase ++ "/orchestrator/encapsulate-verified")
                       (Some (viaJSON (VObj (encapsulatePayload scheme baseSignerLevel
                                               ctx))))])%list)).
  { unfold encapsulateVerified, postJSON, exchangeJSON, bind, fetch, text.
    rewrite Hworld, Hbody. simpl. rewrite Hok, Herror. simpl.
    destruct message; [discriminate Hverification | reflexivity]. }
  split; [exact Hsubmit |].
  rewrite strategyLoop_step. unfold attemptOf.
  now rewrite Hctx, Hcomplete, Hsubmit, Hverification.
Qed.

End Rejection.

(** ** The loop over several strategies *)

(** X6. The loop over [strategies ++ later] is the loop over [strategies]
    followed, only if those were all tried without a context passing, by
    the loop over [later] with the error kept so far.  Once a context has
    passed verification or a fatal error was thrown, no later strategy is
    run and none of its calls is made. *)
Theorem strategyLoop_app (submit : SigningContext -> M value)
    (strategies later : list (M SigningContext)) (st : LoopState) (t : Trace) :
  strategyLoop submit (strategies ++ later)%list st t =
  match chainEnd submit strategies (lastSigError st) t with
  | Exhausted last t' =>
      strategyLoop submit later
        {| encapRes := encapRes st; ctxForDecap := ctxForDecap st; lastSigError := last |}
        t'
  | Stopped _ _ | Passed _ _ _ _ => strategyLoop submit strategies st t
  end.
Proof.
  revert st t. induction strategies as [| g rest IH]; intros st t.
  - simpl. now destruct st.
  - change ((g :: rest) ++ later)%list with (g :: (rest ++ later))%list.
    rewrite !strategyLoop_step. simpl chainEnd.
    destruct (attemptOf submit g t) as [e t1 | ctx t1 | err t2 | err t2 | res ctx t2];
      try reflexivity; rewrite IH; simpl;
      match goal with
      | |- context [chainEnd submit rest ?l ?u] => destruct (chainEnd submit rest l u)
      end; reflexivity.
Qed.

(** ** The strategies *)

Lemma readFirst_value (v : value) (names : list string) (t : Trace) :
  isNullish v = false ->
  readFirst v names t = (Normal (firstTruthy (map (prop v) names)), t).
Proof.
  intro Hv. induction names as [| name rest IH]; [reflexivity |].
  destruct rest as [| name' rest'].
  - simpl. unfold read. now rewrite Hv.
  - change (readFirst v (name :: name' :: rest') t)
      with (bind (read v name)
              (fun x => if ToBoolean x then ret x else readFirst v (name' :: rest')) t).
    unfold bind, read. rewrite Hv. cbv beta iota delta [ret].
    change (firstTruthy (map (prop v) (name :: name' :: rest')))
      with (if ToBoolean (prop v name) then prop v name
            else firstTruthy (map (prop v) (name' :: rest'))).
    destruct (ToBoolean (prop v name)); [reflexivity | exact IH].
Qed.

Lemma firstTruthy_falsy (operands : list value) :
  ToBoolean (firstTruthy operands) = false <-> forallb (fun x => negb (ToBoolean x)) operands = true.
Proof.
  induction operands as [| x rest IH]; [simpl; tauto |].
  destruct rest as [| y rest'].
  - simpl. destruct (ToBoolean x); simpl; intuition congruence.
  - change (firstTruthy (x :: y :: rest'))
      with (if ToBoolean x then x else firstTruthy (y :: rest')).
    change (forallb (fun x0 => negb (ToBoolean x0)) (x :: y :: rest'))
      with (negb (ToBoolean x) && forallb (fun x0 => negb (ToBoolean x0)) (y :: rest')).
    destruct (ToBoolean x) eqn:Hx; simpl; [rewrite Hx; intuition congruence | exact IH].
Qed.

Lemma forallb_over_map (A B : Type) (f : B -> bool) (g : A -> B) (l : list A) :
  forallb f (map g l) = forallb (fun x => f (g x)) l.
Proof. induction l as [| x l IH]; simpl; [reflexivity | now rewrite IH]. Qed.

Section Strategies.

Variable rt : Runtime.
Variable world : World.
Variable scheme : Scheme.
Variable sigBase : string.
Variables initialKyberPublicKey initialKyberSecretKey : value.
Variables baseServiceSignerPublicKey baseSignerLevel baseSignerKid : value.

(** X7. The direct and the bootstrap strategy make one call each.  When
    it fails the strategy fails with its error; when it returns [null] the
    strategy fails with a TypeError; otherwise the signature of the context
    is the first truthy one of [signature], [signatureBase64], [sig],
    [signatureB64], in that order, and when none is truthy the strategy
    fails with '... produced no signature'. *)
Theorem direct_and_bootstrap_signature (t : Trace) :
  let directCall :=
    postJSON rt world (sigBase ++ signEndpoint scheme)
      [("messageBase64", initialKyberPublicKey); ("messageB64", initialKyberPublicKey);
       ("message", initialKyberPublicKey); ("level", baseSignerLevel)] in
  let bootstrapCall := postJSON rt world (sigBase ++ "/orchestrator/bootstrap") [] in
  let direct :=
    directStrategy rt world scheme sigBase initialKyberPublicKey initialKyberSecretKey
      baseServiceSignerPublicKey baseSignerLevel baseSignerKid in
  let bootstrap :=
    bootstrapStrategy rt world sigBase initialKyberPublicKey initialKyberSecretKey
      baseServiceSignerPublicKey baseSignerLevel baseSignerKid in
  let outcome (strategy : M SigningContext) (call : M value) (message : string) : Prop :=
    match call t with
    | (Thrown e, t1) => strategy t = (Thrown e, t1)
    | (Normal resp, t1) =>
        if isNullish resp
        then strategy t = (Thrown (TypeError_read resp "signature"), t1)
        else
          let sig := firstTruthy (map (prop resp) directAliases) in
          if forallb (fun name => negb (ToBoolean (prop resp name))) directAliases
          then strategy t = (Thrown (Error_ message), t1)
          else exists ctx,
                 strategy t = (Normal ctx, t1) /\ signature ctx = sig /\
                 ToBoolean (signature ctx) = true
    end in
  outcome direct directCall "direct signing produced no signature" /\
  outcome bootstrap bootstrapCall "bootstrap produced no signature".
Proof.
  cbv zeta.
  assert (Hall : forall resp,
            forallb (fun name => negb (ToBoolean (prop resp name))) directAliases =
            negb (ToBoolean (firstTruthy (map (prop resp) directAliases)))).
  { intro resp. pose proof (firstTruthy_falsy (map (prop resp) directAliases)) as H.
    rewrite forallb_over_map in H.
    destruct (ToBoolean (firstTruthy (map (prop resp) directAliases)));
      destruct (forallb _ directAliases); simpl; intuition congruence. }
  split.
  - unfold directStrategy, bind.
    destruct (postJSON _ _ _ _ t) as [[resp | e] t1]; [| reflexivity].
    destruct (isNullish resp) eqn:Hnull.
    + simpl. unfold bind, read. now rewrite Hnull.
    + fold directAliases. rewrite (readFirst_value _ _ _ Hnull), Hall.
      destruct (ToBoolean (firstTruthy (map (prop resp) directAliases))) eqn:Hsig;
        simpl; [| reflexivity].
      eexists. split; [reflexivity |]. simpl. auto.
  - unfold bootstrapStrategy, bind.
    destruct (postJSON _ _ _ _ t) as [[resp | e] t1]; [| reflexivity].
    destruct (isNullish resp) eqn:Hnull.
    + simpl. unfold bind, read. now rewrite Hnull.
    + fold directAliases. rewrite (readFirst_value _ _ _ Hnull), Hall.
      destruct (ToBoolean (firstTruthy (map (prop resp) directAliases))) eqn:Hsig;
        simpl; [| reflexivity].
      eexists. split; [reflexivity |]. simpl. auto.
Qed.

End Strategies.

Lemma readFirst_logs_nothing (v : value) (names : list string) (t : Trace) :
  snd (readFirst v names t) = t.
Proof.
  induction names as [| name rest IH]; [reflexivity |].
  destruct rest as [| name' rest'].
  - simpl. unfold read. now destruct (isNullish v).
  - change (readFirst v (name :: name' :: rest') t)
      with (bind (read v name)
              (fun x => if ToBoolean x then ret x else readFirst v (name' :: rest')) t).
    unfold bind, read. destruct (isNullish v); [reflexivity |].
    cbv beta iota delta [ret].
    destruct (ToBoolean (prop v name)); [reflexivity | exact IH].
Qed.

Lemma or_truthy_r (a b : value) : ToBoolean b = true -> ToBoolean (or_ a b) = true.
Proof. intro H. unfold or_. now destruct (ToBoolean a) eqn:Ha. Qed.

Section Rotation.

Variable rt : Runtime.
Variable world : World.
Variable scheme : Scheme.
Variable sigBase : string.
Variables initialKyberPublicKey initialKyberSecretKey : value.
Variables baseServiceSignerPublicKey baseSignerLevel baseSignerKid : value.
Variable rotationAlg : string.

(** X8. The calls of the rotation strategy.  When the query for the
    current key succeeds, the strategy goes straight to [/sign] and never
    rotates.  When it fails, the strategy rotates and queries again; if the
    rotation or the second query fails, the strategy fails with that error
    and [/sign] is never called. *)
Theorem rotation_call_sequence (rotationBase : string) (t : Trace) :
  let currentCall :=
    mkCall GET (rotationBase ++ "/orchestrator/keys/current?alg=" ++
                encodeURIComponent rotationAlg) None in
  let rotateCall :=
    mkCall POST (rotationBase ++ "/keys/rotate")
      (Some (viaJSON (VObj [("alg", VStr rotationAlg); ("level", baseSignerLevel)]))) in
  let signCall :=
    mkCall POST (rotationBase ++ "/sign")
      (Some (viaJSON (VObj [("alg", VStr rotationAlg); ("level", baseSignerLevel);
                            ("messageB64", initialKyberPublicKey);
                            ("messageBase64", initialKyberPublicKey)]))) in
  let run :=
    rotationStrategy rt world initialKyberPublicKey initialKyberSecretKey
      baseServiceSignerPublicKey baseSignerLevel baseSignerKid rotationAlg rotationBase t in
  match fst (exchangeJSON rt world currentCall t) with
  | Normal _ => snd run = (t ++ [currentCall; signCall])%list
  | Thrown _ =>
      match fst (exchangeJSON rt world rotateCall (t ++ [currentCall])%list) with
      | Thrown e => run = (Thrown e, (t ++ [currentCall; rotateCall])%list)
      | Normal _ =>
          match fst (exchangeJSON rt world currentCall
                       (t ++ [currentCall; rotateCall])%list) with
          | Thrown e =>
              run = (Thrown e, (t ++ [currentCall; rotateCall; currentCall])%list)
          | Normal _ =>
              snd run = (t ++ [currentCall; rotateCall; currentCall; signCall])%list
          end
      end
  end.
Proof.
  cbv zeta.
  assert (Hsplit : forall c u, exists r, exchangeJSON rt world c u = (r, (u ++ [c])%list)).
  { intros c u. exists (fst (exchangeJSON rt world c u)).
    rewrite <- (exchangeJSON_logs rt world c u).
    now destruct (exchangeJSON rt world c u). }
  assert (Hsign : forall (k : value -> M SigningContext) c u,
            (forall v u', snd (k v u') = u') ->
            snd (bind (exchangeJSON rt world c) k u) = (u ++ [c])%list).
  { intros k c u Hk. unfold bind. destruct (Hsplit c u) as [[v | e] ->];
      [apply Hk | reflexivity]. }
  assert (Htail : forall current v u',
            snd (bind (readFirst v ["signatureB64"; "signatureBase64"; "signature"; "sig"])
                   (fun sig =>
                      if negb (ToBoolean sig)
                      then throw (Error_ "rotation signing produced no signature")
                      else
                        ret {| source := "rotation";
                               signature := sig;
                               signerPublicKey :=
                                 or_ (hd VUndefined
                                        (filter longString
                                           [prop v "signerPublicKey"; prop v "publicKey";
                                            optProp current "publicKey";
                                            optProp current "publicKeyB64";
                                            optProp current "publicKeyBase64";
                                            optProp current "signerPublicKey";
                                            optProp current "falconPublicKey";
                                            optProp current "dilithiumPublicKey";
                                            optProp current "pub"; optProp current "pk"]))
                                   baseServiceSignerPublicKey;
                               signerLevel := baseSignerLevel;
                               signerKid :=
                                 or_ (prop v "kid")
                                   (or_ (prop v "keyId")
                                      (or_ (optProp current "kid")
                                         (or_ (optProp current "keyId") baseSignerKid)));
                               kyberPublicKey := initialKyberPublicKey;
                               kyberSecretKey := initialKyberSecretKey;
                               isCompressed :=
                                 booleanOrUndefined (prop v "isCompressed") |}) u') = u').
  { intros current v u'. unfold bind.
    pose proof (readFirst_logs_nothing v
                  ["signatureB64"; "signatureBase64"; "signature"; "sig"] u') as Hread.
    destruct (readFirst v _ u') as [[sig | e] u'']; simpl in Hread; subst u'';
      [| reflexivity].
    now destruct (negb (ToBoolean sig)). }
  set (currentCall := mkCall GET (rotationBase ++ "/orchestrator/keys/current?alg=" ++
                                  encodeURIComponent rotationAlg) None).
  set (rotateCall := mkCall POST (rotationBase ++ "/keys/rotate")
                       (Some (viaJSON (VObj [("alg", VStr rotationAlg);
                                             ("level", baseSignerLevel)])))).
  destruct (Hsplit currentCall t) as [r1 H1].
  destruct (Hsplit rotateCall (t ++ [currentCall])%list) as [r2 H2].
  destruct (Hsplit currentCall (t ++ [currentCall; rotateCall])%list) as [r3 H3].
  rewrite H1, H2, H3. cbn [fst].
  assert (Hstart :
            forall k : value -> M SigningContext,
              bind (tryCatch (exchangeJSON rt world currentCall)
                      (fun _ => bind (exchangeJSON rt world rotateCall)
                                  (fun _ => exchangeJSON rt world currentCall))) k t =
              match r1 with
              | Normal current => k current (t ++ [currentCall])%list
              | Thrown _ =>
                  match r2 with
                  | Thrown e => (Thrown e, (t ++ [currentCall; rotateCall])%list)
                  | Normal _ =>
                      match r3 with
                      | Thrown e =>
                          (Thrown e, (t ++ [currentCall; rotateCall; currentCall])%list)
                      | Normal current =>
                          k current (t ++ [currentCall; rotateCall; currentCall])%list
                      end
                  end
              end).
  { intro k. unfold bind at 1, tryCatch. rewrite H1.
    destruct r1 as [current | e1]; [reflexivity |].
    unfold bind. rewrite H2. rewrite <- !app_assoc in *. cbn [app] in *.
    destruct r2 as [rotated | e2]; [| reflexivity].
    rewrite H3. rewrite <- ?app_assoc. cbn [app].
    now destruct r3. }
  destruct r1 as [current | e1]; [| destruct r2 as [rotated | e2];
                                    [destruct r3 as [current | e3] |]];
    unfold rotationStrategy; cbv zeta; unfold getJSON; unfold postJSON at 1;
    fold currentCall; fold rotateCall; rewrite Hstart; try reflexivity;
    cbv beta; unfold postJSON; (rewrite Hsign; [| apply Htail]);
    now rewrite <- app_assoc.
Qed.

(** X9. Every context a strategy returns has a signature, and an
    [isCompressed] that is a boolean or [undefined].  Its signer key and
    its two Kyber keys fall back to the signer metadata and to the
    generated keypair, so when those three are present no strategy returns
    an incomplete context. *)
Theorem strategy_contexts_are_well_formed (rotationBase : option string)
    (strategy : M SigningContext) (t t1 : Trace) (ctx : SigningContext) :
  In strategy
    (signatureStrategies rt world scheme sigBase initialKyberPublicKey
       initialKyberSecretKey baseServiceSignerPublicKey baseSignerLevel baseSignerKid
       rotationAlg rotationBase) ->
  strategy t = (Normal ctx, t1) ->
  ToBoolean (signature ctx) = true /\
  (isBoolean (isCompressed ctx) = true \/ isCompressed ctx = VUndefined) /\
  (ToBoolean baseServiceSignerPublicKey = true ->
   ToBoolean initialKyberPublicKey = true ->
   ToBoolean initialKyberSecretKey = true ->
   incomplete ctx = false).
Proof.
  assert (Hflag : forall v, isBoolean (booleanOrUndefined v) = true \/
                            booleanOrUndefined v = VUndefined).
  { intro v. unfold booleanOrUndefined. destruct (isBoolean v) eqn:Hv; auto. }
  intros Hin Hrun. unfold signatureStrategies in Hin. apply in_app_or in Hin.
  destruct Hin as [Hin | [<- | [<- | []]]].
  - destruct (isBase rotationBase); [| contradiction].
    destruct rotationBase as [b |]; [| contradiction].
    destruct Hin as [<- | []].
    unfold rotationStrategy, bind in Hrun. cbv zeta in Hrun.
    destruct (tryCatch _ _ t) as [[current | e] u1]; [| discriminate].
    destruct (postJSON _ _ _ _ u1) as [[signResp | e] u2]; [| discriminate].
    destruct (readFirst signResp _ u2) as [[sig | e] u3]; [| discriminate].
    destruct (ToBoolean sig) eqn:Hsig; simpl in Hrun; [| discriminate].
    inversion Hrun; subst. simpl. repeat split; auto.
    intros Hk Hp Hs. unfold incomplete. simpl.
    now rewrite Hsig, (or_truthy_r _ _ Hk), Hp, Hs.
  - unfold directStrategy, bind in Hrun.
    destruct (postJSON _ _ _ _ t) as [[signResp | e] u2]; [| discriminate].
    destruct (readFirst signResp _ u2) as [[sig | e] u3]; [| discriminate].
    destruct (ToBoolean sig) eqn:Hsig; simpl in Hrun; [| discriminate].
    inversion Hrun; subst. simpl. repeat split; auto.
    intros Hk Hp Hs. unfold incomplete. simpl.
    rewrite Hsig, Hp, Hs.
    now rewrite (or_truthy_r _ _ (or_truthy_r _ _ (or_truthy_r _ _ (or_truthy_r _ _ Hk)))).
  - unfold bootstrapStrategy, bind in Hrun.
    destruct (postJSON _ _ _ _ t) as [[signResp | e] u2]; [| discriminate].
    destruct (readFirst signResp _ u2) as [[sig | e] u3]; [| discriminate].
    destruct (ToBoolean sig) eqn:Hsig; simpl in Hrun; [| discriminate].
    inversion Hrun; subst. simpl. repeat split; auto.
    intros Hk Hp Hs. unfold incomplete. simpl.
    rewrite Hsig, (or_truthy_r _ _ Hp), (or_truthy_r _ _ Hs).
    now rewrite (or_truthy_r _ _ (or_truthy_r _ _ (or_truthy_r _ _ (or_truthy_r _ _ Hk)))).
Qed.

End Rotation.

(** ** The rotation algorithm identifier in the rotation calls *)

Lemma derive_is_listed (scheme : Scheme) (levelHint : value) :
  In (deriveRotationAlgorithm scheme levelHint) rotationAlgorithms.
Proof.
  assert (Hdefault :
            In (match scheme with Dilithium => "dilithium-l3" | Falcon => "falcon-l5" end)
              rotationAlgorithms)
    by (destruct scheme; simpl; tauto).
  assert (Hlevel : forall name d,
             name = "falcon" \/ name = "dilithium" -> levelDigit d = true ->
             In (name ++ "-l" ++ String d EmptyString) rotationAlgorithms).
  { intros name d Hname Hd. apply levelDigit_cases in Hd.
    destruct Hname as [-> | ->]; destruct Hd as [-> | [-> | [-> | [-> | ->]]]];
      simpl; tauto. }
  assert (Hscheme : schemeName scheme = "falcon" \/ schemeName scheme = "dilithium")
    by (destruct scheme; auto).
  destruct levelHint as [| | b | [| | | q] | s | items | fields]; try exact Hdefault.
  - unfold deriveRotationAlgorithm. cbv zeta.
    generalize (Z.min 5 (Z.max 1 (Math_round q))),
      (Z.le_min_l 5 (Z.max 1 (Math_round q))), (Z.le_max_l 1 (Math_round q)),
      (Z.min_glb 5 (Z.max 1 (Math_round q)) 1).
    intros lvl Hmax Hone Hmin.
    assert (Hq : (lvl = 1 \/ lvl = 2 \/ lvl = 3 \/ lvl = 4 \/ lvl = 5)%Z) by lia.
    destruct Hq as [-> | [-> | [-> | [-> | ->]]]];
      destruct scheme; vm_compute; tauto.
  - unfold deriveRotationAlgorithm. cbv zeta.
    destruct (regexMatch explicitPattern (toLowerCase (trim s))) as [caps |] eqn:Hexp.
    + apply regexMatch_somewhere in Hexp.
      destruct Hexp as (pre & rest & tail & _ & M).
      apply explicit_shape in M.
      destruct M as (name & sep & l & d & Hname & _ & _ & Hd & _ & -> & ->).
      now apply Hlevel.
    + pose proof (numeric_first (toLowerCase (trim s))) as Hnum.
      destruct (regexMatch numericPattern (toLowerCase (trim s))) as [caps |].
      * destruct Hnum as (d & pre & post & Hd & _ & _ & ->). now apply Hlevel.
      * exact Hdefault.
Qed.

(** X10. Whatever the level hint, the identifier that
    [deriveRotationAlgorithm] returns is one of the ten of the rotation
    service, and [encodeURIComponent] leaves it as it is: the query string
    of the current-key call is [?alg=] followed by the identifier itself. *)
Theorem rotation_algorithm_needs_no_escaping (scheme : Scheme) (levelHint : value) :
  In (deriveRotationAlgorithm scheme levelHint) rotationAlgorithms /\
  encodeURIComponent (deriveRotationAlgorithm scheme levelHint) =
    deriveRotationAlgorithm scheme levelHint.
Proof.
  pose proof (derive_is_listed scheme levelHint) as H. split; [exact H |].
  revert H. generalize (deriveRotationAlgorithm scheme levelHint). intros alg H.
  simpl in H. repeat (destruct H as [<- | H]; [reflexivity |]). destruct H.
Qed.

(** X11. An identifier that [deriveRotationAlgorithm] returned is read
    back as itself, whatever the scheme it is read for: the scheme named in
    the hint wins over the selected one. *)
Theorem derived_algorithm_is_a_fixed_point (scheme other : Scheme) (levelHint : value) :
  deriveRotationAlgorithm other (VStr (deriveRotationAlgorithm scheme levelHint)) =
    deriveRotationAlgorithm scheme levelHint.
Proof.
  pose proof (derive_is_listed scheme levelHint) as H.
  revert H. generalize (deriveRotationAlgorithm scheme levelHint). intros alg H.
  simpl in H.
  repeat (destruct H as [<- | H]; [destruct other; vm_compute; reflexivity |]).
  destruct H.
Qed.

(** ** Replies of [POST /select/ake] *)

Section Replies.

Variable rt : Runtime.
Variable env : Env.
Variable world : World.

(** What a 200 reply says about the selector's run. *)
Lemma reply200_run (reqBody : value) (t0 t : Trace) (result : AkeResult) :
  handleSelectAke rt env world reqBody t0 = (Reply200 result, t) ->
  let b := nullish_ reqBody (VObj []) in
  exists d f t2,
    searchedBoth world (DILITHIUM_BASES env) (FALCON_BASES env) t0 d f t2 /\
    decided (decisionOrder rt (found d) (found f) (prop b "payloadHintBytes")
               (prop b "policyPreferredSig")) = Normal (schemeSelected result) /\
    reasonText rt (prop b "payloadHintBytes") (prop b "policyPreferredSig") =
      Some (reason result).
Proof.
  intro Hreply. cbv zeta. unfold handleSelectAke in Hreply.
  destruct (selectAke rt env world reqBody t0) as [[result' | e] t'] eqn:Hrun;
    [| discriminate].
  inversion Hreply; subst result' t'.
  apply selectAke_result in Hrun. cbv zeta in Hrun.
  destruct Hrun as (t1' & Hscheme & Hreason).
  destruct (selectSigScheme_run rt env world
              (prop (nullish_ reqBody (VObj [])) "payloadHintBytes")
              (prop (nullish_ reqBody (VObj [])) "policyPreferredSig") t0)
    as (d & f & t2 & _ & Hboth & Hsel).
  rewrite Hsel in Hscheme. injection Hscheme as Hs Ht.
  exists d, f, t2. split; [exact Hboth | split; [| exact Hreason]].
  unfold decidedOrThrown in Hs.
  destruct (preferredReachable _ (found d) (found f)); [exact Hs |].
  destruct (ToNumber rt _); [exact Hs | discriminate Hs].
Qed.

(** A search none of whose candidates ever answers probes them all and
    finds nothing. *)
Lemma searchedSometime_none (bases : list string) (r : option string)
    (probed : list string) :
  (forall t b, In b bases -> answersAt world t b = false) ->
  searchedSometime world bases r probed -> r = None /\ probed = bases.
Proof.
  intros Hdown H. destruct r as [b |].
  - destruct (searchedSometime_facts _ _ _ _ H) as (_ & _ & Hb).
    destruct (Hb b eq_refl) as (Hin & u & Hu). rewrite (Hdown u b Hin) in Hu.
    discriminate Hu.
  - destruct H as [-> _]. now split.
Qed.

(** X12. While no Dilithium and no Falcon candidate answers, the request
    ends in the 502 reply after one liveness probe of each of these
    candidates and nothing else: the KEM backend is not contacted at all.
    The two lists are probed side by side, each in its order, the first
    Dilithium candidate first and the first Falcon candidate second.  The
    detail is 'No signature service reachable', unless the payload hint
    cannot be converted to a number, which makes it the message of the
    TypeError. *)
Theorem no_signature_backend_fails_before_kem (reqBody : value) (t0 : Trace) :
  (forall t b, In b (DILITHIUM_BASES env ++ FALCON_BASES env)%list ->
               answersAt world t b = false) ->
  exists probes more,
    handleSelectAke rt env world reqBody t0 =
      (Reply502 "select_ake_failed"
         (if unconvertible (prop (nullish_ reqBody (VObj [])) "payloadHintBytes")
          then "Cannot convert object to primitive value"
          else "No signature service reachable"),
       (t0 ++ map healthCall probes)%list) /\
    Merge (DILITHIUM_BASES env) (FALCON_BASES env) probes /\
    probes = (firstn 1 (DILITHIUM_BASES env) ++ firstn 1 (FALCON_BASES env) ++ more)%list.
Proof.
  intro Hdown. unfold handleSelectAke. rewrite selectAke_stages. cbv zeta.
  destruct (selectSigScheme_run rt env world
              (prop (nullish_ reqBody (VObj [])) "payloadHintBytes")
              (prop (nullish_ reqBody (VObj [])) "policyPreferredSig") t0)
    as (d & f & t2 & _ & Hboth & ->).
  apply searchedBoth_probes in Hboth.
  destruct Hboth as (pd & pf & probes & more & -> & Hm & Hd & Hf & Hfirst).
  apply searchedSometime_none in Hd;
    [| intros t' b Hb; apply Hdown, in_or_app; now left].
  apply searchedSometime_none in Hf;
    [| intros t' b Hb; apply Hdown, in_or_app; now right].
  destruct Hd as [-> ->]. destruct Hf as [-> ->].
  exists probes, more. split; [| now split].
  assert (Hnone : forall hint pref,
             preferredReachable pref false false = None /\
             decisionOrder rt false false hint pref = None).
  { intros hint pref. unfold decisionOrder, preferredReachable.
    rewrite andb_false_r.
    destruct pref as [| | b | n | name | items | fields]; try (split; reflexivity).
    destruct (name =? "falcon"); [split; reflexivity |].
    now destruct (name =? "dilithium"). }
  unfold decidedOrThrown. simpl found.
  destruct (Hnone (prop (nullish_ reqBody (VObj [])) "payloadHintBytes")
              (prop (nullish_ reqBody (VObj [])) "policyPreferredSig")) as [-> ->].
  pose proof (ToNumber_unconvertible rt
                (prop (nullish_ reqBody (VObj [])) "payloadHintBytes")) as Hconv.
  destruct (ToNumber rt _) as [n |].
  - destruct (unconvertible _); [| reflexivity].
    destruct Hconv as [_ Hconv]. discriminate (Hconv eq_refl).
  - destruct Hconv as [Hconv _]. now rewrite (Hconv eq_refl).
Qed.

(** X13. A request that prefers a scheme by its name gets, in every 200
    reply, the reason ['policy:<name>'], whatever its payload hint; and
    when a candidate of the preferred backend answered the selector's
    probes, the reply names the preferred scheme. *)
Theorem policy_preference_overrides_payload_hint (reqBody : value) (preferred : Scheme)
    (t0 t : Trace) (result : AkeResult) :
  prop (nullish_ reqBody (VObj [])) "policyPreferredSig" = VStr (schemeName preferred) ->
  handleSelectAke rt env world reqBody t0 = (Reply200 result, t) ->
  exists d f t2,
    searchedBoth world (DILITHIUM_BASES env) (FALCON_BASES env) t0 d f t2 /\
    reason result = "policy:" ++ schemeName preferred /\
    (found (match preferred with Dilithium => d | Falcon => f end) = true ->
     schemeSelected result = preferred).
Proof.
  intros Hpref Hreply. apply reply200_run in Hreply. cbv zeta in Hreply.
  destruct Hreply as (d & f & t2 & Hboth & Hscheme & Hreason).
  rewrite Hpref in Hscheme, Hreason.
  exists d, f, t2. repeat split; try assumption.
  - destruct preferred;
      [change (Some ("policy:" ++ schemeName Dilithium) = Some (reason result)) in Hreason
      | change (Some ("policy:" ++ schemeName Falcon) = Some (reason result)) in Hreason];
      congruence.
  - intro Hup. unfold decisionOrder, preferredReachable in Hscheme.
    destruct preferred; simpl in Hscheme; rewrite Hup in Hscheme;
      simpl in Hscheme; congruence.
Qed.

(** X14. A request without a preference whose payload hint is absent or
    not at most 1024 gets, in every 200 reply, the reason
    ['default_or_health']; the scheme is Dilithium when one of its
    candidates answered the selector's probes, and Falcon otherwise, one of
    whose candidates then answered. *)
Theorem default_selection_prefers_dilithium (reqBody : value) (t0 t : Trace)
    (result : AkeResult) :
  let b := nullish_ reqBody (VObj []) in
  ToBoolean (prop b "policyPreferredSig") = false ->
  ToBoolean (prop b "payloadHintBytes") = false \/
  le_num rt (prop b "payloadHintBytes") (ofZ 1024) <> Some true ->
  handleSelectAke rt env world reqBody t0 = (Reply200 result, t) ->
  exists d f t2,
    searchedBoth world (DILITHIUM_BASES env) (FALCON_BASES env) t0 d f t2 /\
    reason result = "default_or_health" /\
    schemeSelected result = (if found d then Dilithium else Falcon) /\
    (found d = false -> found f = true).
Proof.
  cbv zeta. intros Hpref Hhint Hreply. apply reply200_run in Hreply.
  cbv zeta in Hreply.
  destruct Hreply as (d & f & t2 & Hboth & Hscheme & Hreason).
  exists d, f, t2. repeat split; try assumption.
  - unfold reasonText in Hreason. rewrite Hpref in Hreason.
    destruct (ToBoolean (prop _ "payloadHintBytes")); [| congruence].
    destruct Hhint as [Hhint | Hhint]; [discriminate Hhint |].
    destruct (le_num rt _ _) as [[|] |]; simpl in Hreason; congruence.
  - unfold decisionOrder in Hscheme.
    rewrite (falsy_preference _ _ _ Hpref) in Hscheme.
    destruct (payloadTight rt _) eqn:Htight in Hscheme.
    + destruct (payloadTight_truthy rt _ Htight) as (H1 & H2 & _).
      destruct Hhint; congruence.
    + simpl in Hscheme. destruct (found d); [simpl in Hscheme; congruence |].
      destruct (found f); simpl in Hscheme; congruence.
  - intro Hdown. unfold decisionOrder in Hscheme.
    rewrite (falsy_preference _ _ _ Hpref), Hdown, andb_comm in Hscheme.
    destruct (found f); [reflexivity | discriminate].
Qed.

(** X15. The reason ['default_or_health'] is never wrong: a 200 reply
    that carries it was decided by the default rule, with no preference
    and no tight payload hint in the request. *)
Theorem default_reason_means_default_rule (reqBody : value) (t0 t : Trace)
    (result : AkeResult) :
  let b := nullish_ reqBody (VObj []) in
  handleSelectAke rt env world reqBody t0 = (Reply200 result, t) ->
  reason result = "default_or_health" ->
  exists d f t2,
    searchedBoth world (DILITHIUM_BASES env) (FALCON_BASES env) t0 d f t2 /\
    decisionOrder rt (found d) (found f) (prop b "payloadHintBytes")
      (prop b "policyPreferredSig") = Some (schemeSelected result, DefaultRule) /\
    ToBoolean (prop b "policyPreferredSig") = false /\
    payloadTight rt (prop b "payloadHintBytes") = false.
Proof.
  cbv zeta. intros Hreply Hdefault. apply reply200_run in Hreply.
  cbv zeta in Hreply.
  destruct Hreply as (d & f & t2 & Hboth & Hscheme & Hreason).
  rewrite Hdefault in Hreason. unfold reasonText in Hreason.
  destruct (ToBoolean (prop _ "policyPreferredSig")) eqn:Hpref.
  { destruct (ToString rt _); simpl in Hreason; [| discriminate Hreason].
    inversion Hreason. }
  assert (Htight : payloadTight rt (prop (nullish_ reqBody (VObj [])) "payloadHintBytes")
                   = false).
  { destruct (payloadTight rt _) eqn:Htight; [| reflexivity].
    destruct (payloadTight_truthy rt _ Htight) as (H1 & H2 & _).
    rewrite H1, H2 in Hreason. simpl in Hreason. inversion Hreason. }
  exists d, f, t2. repeat split; try assumption.
  unfold decisionOrder in *.
  rewrite (falsy_preference _ _ _ Hpref), Htight in *. simpl in *.
  destruct (found d); [simpl in Hscheme; congruence |].
  destruct (found f); simpl in Hscheme; congruence.
Qed.

(** X16. A non-empty override from the environment is the first candidate
    of its backend: when it answers, it is the base that is used, after a
    single probe.  For the rotation service [KEYROTATION_BASE] comes before
    [ROTATION_BASE], which counts only when the former is unset or empty. *)
Theorem configured_base_is_tried_first (u : string) (t : Trace) :
  u <> "" ->
  answersAt world t u = true ->
  let chosen bases :=
    firstReachable world bases t = (Normal (Some u), (t ++ [healthCall u])%list) in
  (KYBER_BASE env = Some u -> chosen (KYBER_BASES env)) /\
  (DILITHIUM_BASE env = Some u -> chosen (DILITHIUM_BASES env)) /\
  (FALCON_BASE env = Some u -> chosen (FALCON_BASES env)) /\
  (KEYROTATION_BASE env = Some u -> chosen (KEYROTATION_BASES env)) /\
  (KEYROTATION_BASE env = None \/ KEYROTATION_BASE env = Some "" ->
   ROTATION_BASE env = Some u -> chosen (KEYROTATION_BASES env)).
Proof.
  intros Hu Hup. cbv zeta.
  assert (Hfirst : forall rest,
             firstReachable world (u :: rest) t =
             (Normal (Some u), (t ++ [healthCall u])%list)).
  { intro rest. rewrite firstReachable_cons. now rewrite Hup. }
  destruct u as [| c u]; [congruence |].
  repeat split.
  - intro H. unfold KYBER_BASES. rewrite H. apply Hfirst.
  - intro H. unfold DILITHIUM_BASES. rewrite H. apply Hfirst.
  - intro H. unfold FALCON_BASES. rewrite H. apply Hfirst.
  - intro H. unfold KEYROTATION_BASES. rewrite H. apply Hfirst.
  - intros [H | H] H'; unfold KEYROTATION_BASES; rewrite H, H'; apply Hfirst.
Qed.

End Replies.

(** ** The number of calls of a request *)

Lemma addsAtMost_ret (A : Type) (n : nat) (a : A) : addsAtMost n (ret a).
Proof. intro t. exists []. split; [now rewrite app_nil_r | simpl; lia]. Qed.

Lemma addsAtMost_throw (A : Type) (n : nat) (e : JsError) : addsAtMost n (@throw A e).
Proof. intro t. exists []. split; [now rewrite app_nil_r | simpl; lia]. Qed.

Lemma addsAtMost_weaken (A : Type) (n n' : nat) (m : M A) :
  (n <= n')%nat -> addsAtMost n m -> addsAtMost n' m.
Proof.
  intros Hn Hm t. destruct (Hm t) as (added & Ht & Hlen).
  exists added. split; [exact Ht | lia].
Qed.

Lemma addsAtMost_bind (A B : Type) (n k : nat) (m : M A) (f : A -> M B) :
  addsAtMost n m -> (forall a, addsAtMost k (f a)) -> addsAtMost (n + k) (bind m f).
Proof.
  intros Hm Hf t. unfold bind. destruct (Hm t) as (added & Ht & Hlen).
  destruct (m t) as [[a | e] t1]; simpl in Ht; subst t1.
  - destruct (Hf a (t ++ added)%list) as (more & Ht & Hmore).
    exists (added ++ more)%list. rewrite Ht, app_assoc, length_app.
    split; [reflexivity | lia].
  - exists added. split; [reflexivity | lia].
Qed.

Lemma addsAtMost_tryCatch (A : Type) (n k : nat) (m : M A) (h : JsError -> M A) :
  addsAtMost n m -> (forall e, addsAtMost k (h e)) -> addsAtMost (n + k) (tryCatch m h).
Proof.
  intros Hm Hh t. unfold tryCatch. destruct (Hm t) as (added & Ht & Hlen).
  destruct (m t) as [[a | e] t1]; simpl in Ht; subst t1.
  - exists added. split; [reflexivity | lia].
  - destruct (Hh e (t ++ added)%list) as (more & Ht & Hmore).
    exists (added ++ more)%list. rewrite Ht, app_assoc, length_app.
    split; [reflexivity | lia].
Qed.

Lemma addsAtMost_attempt (A : Type) (n : nat) (m : M A) :
  addsAtMost n m -> addsAtMost n (attempt m).
Proof.
  intros Hm t. unfold attempt. destruct (Hm t) as (added & Ht & Hlen).
  exists added. destruct (m t) as [c t1]. auto.
Qed.

Lemma addsAtMost_read (n : nat) (v : value) (name : string) : addsAtMost n (read v name).
Proof.
  unfold read. destruct (isNullish v); [apply addsAtMost_throw | apply addsAtMost_ret].
Qed.

Lemma addsAtMost_readFirst (n : nat) (v : value) (names : list string) :
  addsAtMost n (readFirst v names).
Proof.
  intro t. exists []. rewrite app_nil_r. split; [| simpl; lia].
  apply readFirst_logs_nothing.
Qed.

Lemma filterBoolean_length (l : list (option string)) :
  (List.length (filterBoolean l) <= List.length l)%nat.
Proof.
  induction l as [| [[| c s] |] l IH]; simpl; lia.
Qed.

Section Calls.

Variable rt : Runtime.
Variable env : Env.
Variable world : World.

Lemma addsAtMost_exchangeJSON (c : Call) : addsAtMost 1 (exchangeJSON rt world c).
Proof.
  intro t. exists [c]. split; [apply exchangeJSON_logs | simpl; lia].
Qed.

Lemma addsAtMost_fetch (c : Call) : addsAtMost 1 (fetch world c).
Proof.
  intro t. exists [c]. unfold fetch.
  destruct (world t c); (split; [reflexivity | simpl; lia]).
Qed.

Lemma addsAtMost_json (n : nat) (res : Response) : addsAtMost n (json res).
Proof.
  unfold json, text.
  destruct (body res) as [[| j | raw parseError] | e];
    intro t; exists []; (split; [now rewrite app_nil_r | simpl; lia]).
Qed.

Lemma addsAtMost_firstReachable (bases : list string) :
  addsAtMost (List.length bases) (firstReachable world bases).
Proof.
  intro t. destruct (firstReachable_total world bases t) as (r & t1 & Hrun).
  destruct (firstReachable_prefix world bases t t1 r Hrun) as (probed & rest & -> & -> & _).
  exists (map healthCall probed). rewrite Hrun. split; [reflexivity |].
  rewrite length_map, length_app. lia.
Qed.

Lemma addsAtMost_candidates (l : list (option string)) :
  addsAtMost (List.length l) (firstReachable world (filterBoolean l)).
Proof.
  eapply addsAtMost_weaken; [apply filterBoolean_length | apply addsAtMost_firstReachable].
Qed.

(** The loop makes, for each strategy, the calls of the strategy and at
    most one submission. *)
Lemma addsAtMost_strategyLoop (submit : SigningContext -> M value) (n k : nat)
    (strategies : list (M SigningContext)) :
  (forall ctx, addsAtMost k (submit ctx)) ->
  Forall (addsAtMost n) strategies ->
  forall st, addsAtMost (List.length strategies * (n + k))
               (strategyLoop submit strategies st).
Proof.
  intros Hsubmit Hall. induction Hall as [| getContext rest Hfirst Hrest IH]; intro st.
  - apply addsAtMost_ret.
  - cbn [strategyLoop List.length]. 
    replace (S (List.length rest) * (n + k))%nat
      with (n + (k + List.length rest * (n + k)))%nat by lia.
    apply addsAtMost_bind; [now apply addsAtMost_attempt |].
    intros [ctx | e];
      [| eapply addsAtMost_weaken; [| apply IH]; lia].
    destruct (incomplete ctx);
      [eapply addsAtMost_weaken; [| apply IH]; lia |].
    apply addsAtMost_bind; [apply addsAtMost_attempt, Hsubmit |].
    intros [res | err]; [apply addsAtMost_ret |].
    destruct (isSignatureVerificationError err); [apply IH | apply addsAtMost_throw].
Qed.

Lemma addsAtMost_rotationStrategy
    (initialKyberPublicKey initialKyberSecretKey : value)
    (baseServiceSignerPublicKey baseSignerLevel baseSignerKid : value)
    (rotationAlg rotationBase : string) :
  addsAtMost 4
    (rotationStrategy rt world initialKyberPublicKey initialKyberSecretKey
       baseServiceSignerPublicKey baseSignerLevel baseSignerKid rotationAlg rotationBase).
Proof.
  unfold rotationStrategy. cbv zeta.
  apply (addsAtMost_bind _ _ 3 1).
  - apply (addsAtMost_tryCatch _ 1 2); [apply addsAtMost_exchangeJSON |].
    intros _. apply (addsAtMost_bind _ _ 1 1); [apply addsAtMost_exchangeJSON |].
    intros _. apply addsAtMost_exchangeJSON.
  - intro current. apply (addsAtMost_bind _ _ 1 0); [apply addsAtMost_exchangeJSON |].
    intro signResp. apply (addsAtMost_bind _ _ 0 0); [apply addsAtMost_readFirst |].
    intro sig. destruct (negb (ToBoolean sig));
      [apply addsAtMost_throw | apply addsAtMost_ret].
Qed.

Lemma addsAtMost_directStrategy (scheme : Scheme) (sigBase : string)
    (initialKyberPublicKey initialKyberSecretKey : value)
    (baseServiceSignerPublicKey baseSignerLevel baseSignerKid : value) :
  addsAtMost 1
    (directStrategy rt world scheme sigBase initialKyberPublicKey initialKyberSecretKey
       baseServiceSignerPublicKey baseSignerLevel baseSignerKid).
Proof.
  unfold directStrategy.
  apply (addsAtMost_bind _ _ 1 0); [apply addsAtMost_exchangeJSON |].
  intro signResp. apply (addsAtMost_bind _ _ 0 0); [apply addsAtMost_readFirst |].
  intro sig. destruct (negb (ToBoolean sig));
    [apply addsAtMost_throw | apply addsAtMost_ret].
Qed.

Lemma addsAtMost_bootstrapStrategy (sigBase : string)
    (initialKyberPublicKey initialKyberSecretKey : value)
    (baseServiceSignerPublicKey baseSignerLevel baseSignerKid : value) :
  addsAtMost 1
    (bootstrapStrategy rt world sigBase initialKyberPublicKey initialKyberSecretKey
       baseServiceSignerPublicKey baseSignerLevel baseSignerKid).
Proof.
  unfold bootstrapStrategy.
  apply (addsAtMost_bind _ _ 1 0); [apply addsAtMost_exchangeJSON |].
  intro signResp. apply (addsAtMost_bind _ _ 0 0); [apply addsAtMost_readFirst |].
  intro sig. destruct (negb (ToBoolean sig));
    [apply addsAtMost_throw | apply addsAtMost_ret].
Qed.

(** The chain of the handler: at most four calls of the rotation strategy,
    one of the direct one, one of the bootstrap one, and one submission
    after each. *)
Lemma addsAtMost_signingChain (scheme : Scheme) (sigBase : string)
    (initialKyberPublicKey initialKyberSecretKey : value)
    (baseServiceSignerPublicKey baseSignerLevel baseSignerKid : value)
    (rotationAlg : string) (rotationBase : option string) :
  addsAtMost 9
    (signingChain (encapsulateVerified rt world scheme sigBase baseSignerLevel)
       (signatureStrategies rt world scheme sigBase initialKyberPublicKey
          initialKyberSecretKey baseServiceSignerPublicKey baseSignerLevel
          baseSignerKid rotationAlg rotationBase)).
Proof.
  assert (Hsubmit : forall ctx,
             addsAtMost 1 (encapsulateVerified rt world scheme sigBase baseSignerLevel ctx))
    by (intro ctx; apply addsAtMost_exchangeJSON).
  assert (Hlater : forall st,
             addsAtMost 4
               (strategyLoop (encapsulateVerified rt world scheme sigBase baseSignerLevel)
                  [directStrategy rt world scheme sigBase initialKyberPublicKey
                     initialKyberSecretKey baseServiceSignerPublicKey baseSignerLevel
                     baseSignerKid;
                   bootstrapStrategy rt world sigBase initialKyberPublicKey
                     initialKyberSecretKey baseServiceSignerPublicKey baseSignerLevel
                     baseSignerKid] st)).
  { intro st.
    refine (addsAtMost_strategyLoop _ 1 1 [_; _] Hsubmit _ st).
    repeat (apply Forall_cons;
            [first [apply addsAtMost_directStrategy | apply addsAtMost_bootstrapStrategy] |]).
    apply Forall_nil. }
  unfold signingChain. apply (addsAtMost_bind _ _ 9 0).
  - unfold signatureStrategies.
    destruct (isBase rotationBase);
      [| eapply addsAtMost_weaken; [| apply Hlater]; lia].
    destruct rotationBase as [b |];
      [| eapply addsAtMost_weaken; [| apply Hlater]; lia].
    cbn [app strategyLoop].
    apply (addsAtMost_bind _ _ 4 5);
      [apply addsAtMost_attempt, addsAtMost_rotationStrategy |].
    intros [ctx | e];
      [| eapply addsAtMost_weaken; [| apply Hlater]; lia].
    destruct (incomplete ctx);
      [eapply addsAtMost_weaken; [| apply Hlater]; lia |].
    apply (addsAtMost_bind _ _ 1 4); [apply addsAtMost_attempt, Hsubmit |].
    intros [res | err]; [apply addsAtMost_ret |].
    destruct (isSignatureVerificationError err); [apply Hlater | apply addsAtMost_throw].
  - intro st. unfold guardLoop.
    destruct (negb (ToBoolean (encapRes st))), (ctxForDecap st);
      first [apply addsAtMost_ret | apply addsAtMost_throw].
Qed.

(** After the keypair call come at most 14 calls. *)
Lemma signAndEncapsulate_calls (scheme : Scheme) (kyberBase sigBase : string)
    (level : value) (t : Trace) :
  exists rest,
    snd (signAndEncapsulate rt env world scheme kyberBase sigBase level t) =
      (t ++ mkCall POST (kyberBase ++ "/kyber/generate-keypair") (Some (VObj []))
         :: rest)%list /\
    (List.length rest <= 14)%nat.
Proof.
  unfold signAndEncapsulate. unfold bind at 1. unfold postJSON at 1.
  change (viaJSON (VObj [])) with (VObj []).
  pose proof (exchangeJSON_logs rt world
                (mkCall POST (kyberBase ++ "/kyber/generate-keypair") (Some (VObj []))) t)
    as Hlog.
  destruct (exchangeJSON rt world _ t) as [[keys | e] t1]; simpl in Hlog; subst t1;
    [| exists []; split; [reflexivity | simpl; lia]].
  assert (Hrest : addsAtMost 14
            (initialKyberPublicKey <- destructure keys "publicKey" ;;
             signerInfo <- (res <- fetch world
                                     (mkCall GET (sigBase ++ "/orchestrator/signer") None) ;;
                            json res) ;;
             baseServiceSignerPublicKey <-
               readFirst signerInfo
                 ["signerPublicKey"; "falconSignerPublicKey"; "dilithiumSignerPublicKey";
                  "publicKey"] ;;
             rotationBase <- firstReachable world (KEYROTATION_BASES env) ;;
             verified <- signingChain
                           (encapsulateVerified rt world scheme sigBase
                              (nullish_ (nullish_ (nullish_ level (prop signerInfo "level"))
                                           (prop signerInfo "alg"))
                                 (prop signerInfo "algorithm")))
                           (signatureStrategies rt world scheme sigBase
                              initialKyberPublicKey (prop keys "secretKey")
                              baseServiceSignerPublicKey
                              (nullish_ (nullish_ (nullish_ level (prop signerInfo "level"))
                                           (prop signerInfo "alg"))
                                 (prop signerInfo "algorithm"))
                              (or_ (prop signerInfo "kid") (prop signerInfo "keyId"))
                              (deriveRotationAlgorithm scheme
                                 (nullish_ (nullish_ (nullish_ level
                                                        (prop signerInfo "level"))
                                              (prop signerInfo "alg"))
                                    (prop signerInfo "algorithm")))
                              rotationBase) ;;
             ret (nullish_ (nullish_ (nullish_ level (prop signerInfo "level"))
                              (prop signerInfo "alg"))
                    (prop signerInfo "algorithm"),
                  or_ (prop signerInfo "kid") (prop signerInfo "keyId"), verified))).
  { apply (addsAtMost_bind _ _ 0 14).
    { unfold destructure. destruct (isNullish keys);
        [apply addsAtMost_throw | apply addsAtMost_ret]. }
    intro initialKyberPublicKey. apply (addsAtMost_bind _ _ 1 13).
    { apply (addsAtMost_bind _ _ 1 0); [apply addsAtMost_fetch |].
      intro res. apply addsAtMost_json. }
    intro signerInfo. apply (addsAtMost_bind _ _ 0 13); [apply addsAtMost_readFirst |].
    intro baseServiceSignerPublicKey.
    apply (addsAtMost_bind _ _ 4 9); [apply (addsAtMost_candidates [_; _; _; _]) |].
    intro rotationBase.
    apply (addsAtMost_bind _ _ 9 0); [apply addsAtMost_signingChain |].
    intro verified. apply addsAtMost_ret. }
  destruct (Hrest (t ++ [mkCall POST (kyberBase ++ "/kyber/generate-keypair")
                           (Some (VObj []))])%list) as (rest & Hrun & Hlen).
  exists rest. split; [| exact Hlen].
  cbv zeta. rewrite <- app_assoc in Hrun. exact Hrun.
Qed.

Lemma addsAtMost_signAndEncapsulate (scheme : Scheme) (kyberBase sigBase : string)
    (level : value) :
  addsAtMost 15 (signAndEncapsulate rt env world scheme kyberBase sigBase level).
Proof.
  intro t. destruct (signAndEncapsulate_calls scheme kyberBase sigBase level t)
    as (rest & Hrun & Hlen).
  eexists. split; [exact Hrun | simpl; lia].
Qed.

Lemma addsAtMost_decapsulateAndCompare (scheme : Scheme) (kyberBase : string)
    (payloadHintBytes policyPreferredSig baseSignerLevel baseSignerKid : value)
    (encapsulated : value) (ctx : SigningContext) :
  addsAtMost 1
    (decapsulateAndCompare rt world scheme kyberBase payloadHintBytes policyPreferredSig
       baseSignerLevel baseSignerKid encapsulated ctx).
Proof.
  unfold decapsulateAndCompare.
  apply (addsAtMost_bind _ _ 1 0); [apply addsAtMost_exchangeJSON |].
  intro decapRes. apply (addsAtMost_bind _ _ 0 0); [apply addsAtMost_read |].
  intro decapSecret. apply (addsAtMost_bind _ _ 0 0); [| intro why; apply addsAtMost_ret].
  intro t. exists []. rewrite reasonOf_run, app_nil_r. split; [reflexivity | simpl; lia].
Qed.

Lemma addsAtMost_selectSigScheme (payloadHintBytes policyPreferredSig : value) :
  addsAtMost 8 (selectSigScheme rt env world payloadHintBytes policyPreferredSig).
Proof.
  intro t.
  destruct (selectSigScheme_run rt env world payloadHintBytes policyPreferredSig t)
    as (d & f & t2 & _ & Hboth & ->).
  destruct (selector_probes env world _ _ _ _ Hboth) as (sel & more & -> & _ & _ & _ & Hlen).
  exists sel. split; [reflexivity |].
  assert (Hd : (List.length (DILITHIUM_BASES env) <= 4)%nat)
    by (unfold DILITHIUM_BASES; apply (filterBoolean_length [_; _; _; _])).
  assert (Hf : (List.length (FALCON_BASES env) <= 4)%nat)
    by (unfold FALCON_BASES; apply (filterBoolean_length [_; _; _; _])).
  lia.
Qed.

(** X17. A request never takes a call back from the log, and it makes at
    most 32 calls: 8 probes of the selector, 4 of the Kyber candidates,
    4 of the candidates of the selected scheme, the keypair and the signer
    calls, 4 probes of the rotation candidates, 9 calls of the strategies
    and their submissions, and the decapsulation. *)
Theorem select_ake_makes_at_most_32_calls (reqBody : value) (t0 : Trace) :
  exists added,
    snd (handleSelectAke rt env world reqBody t0) = (t0 ++ added)%list /\
    (List.length added <= 32)%nat.
Proof.
  assert (Hrun : addsAtMost 32 (selectAke rt env world reqBody)).
  { unfold selectAke. cbv zeta.
    apply (addsAtMost_bind _ _ 8 24); [apply addsAtMost_selectSigScheme |].
    intro scheme.
    apply (addsAtMost_bind _ _ 4 20); [apply (addsAtMost_candidates [_; _; _; _]) |].
    intros [[| c kyberBase] |]; try apply addsAtMost_throw.
    apply (addsAtMost_bind _ _ 4 16).
    { destruct scheme; apply (addsAtMost_candidates [_; _; _; _]). }
    intros [[| c' sigBase] |]; try apply addsAtMost_throw.
    apply (addsAtMost_bind _ _ 15 1); [apply addsAtMost_signAndEncapsulate |].
    intros [[lvl kid] [enc ctx]]. apply addsAtMost_decapsulateAndCompare. }
  destruct (Hrun t0) as (added & Ht & Hlen). exists added.
  unfold handleSelectAke. destruct (selectAke rt env world reqBody t0) as [[r | e] t1]; auto.
Qed.

End Calls.

(** ** The signer call *)

(** X18. The signer call reads the JSON body of whatever response it
    gets: its status is not looked at, unlike in [getJSON] and [postJSON],
    which return the body of the same response only when its status is in
    200..299. *)
Theorem signer_reply_is_read_whatever_its_status (rt : Runtime) (world : World)
    (c : Call) (t : Trace) (r : Response) (j : value) :
  world t c = Responded r ->
  body r = Delivered (JsonText j) ->
  bind (fetch world c) json t = (Normal j, (t ++ [c])%list) /\
  (fst (exchangeJSON rt world c t) = Normal j <-> ok r = true).
Proof.
  intros Hworld Hbody. split.
  - unfold bind, fetch, json, text. rewrite Hworld, Hbody. reflexivity.
  - unfold exchangeJSON, bind, fetch, text. rewrite Hworld, Hbody. simpl.
    destruct (ok r); simpl; [split; congruence |].
    unfold converted.
    match goal with
    | |- context [match ?o with Some _ => _ | None => _ end] => destruct o
    end; simpl; split; discriminate.
Qed.

(** ** [GET /health] against [POST /select/ake] *)

Lemma firstReachable_stationary (world : World) (bases : list string) (t t' : Trace) :
  stationary world ->
  fst (firstReachable world bases t) = fst (firstReachable world bases t').
Proof.
  intro Hs. revert t t'. induction bases as [| b rest IH]; intros t t'; [reflexivity |].
  rewrite !firstReachable_cons. unfold answersAt. rewrite (Hs t t').
  destruct (world t' (healthCall b)); [reflexivity | apply IH].
Qed.

Lemma decisionOrder_needs_a_backend (rt : Runtime) (dReach fReach : bool)
    (hint pref : value) (scheme : Scheme) (rule : Rule) :
  decisionOrder rt dReach fReach hint pref = Some (scheme, rule) ->
  (match scheme with Dilithium => dReach | Falcon => fReach end) = true.
Proof.
  unfold decisionOrder, preferredReachable.
  destruct pref as [| | b | n | name | items | fields];
    try solve [destruct (payloadTight rt hint), dReach, fReach; simpl; intro H;
               inversion H; reflexivity].
  destruct (name =? "falcon"); [| destruct (name =? "dilithium")];
    destruct (payloadTight rt hint), dReach, fReach; simpl; intro H;
    inversion H; reflexivity.
Qed.

Lemma decisionOrder_finds_a_backend (rt : Runtime) (dReach fReach : bool)
    (hint pref : value) :
  dReach || fReach = true ->
  exists scheme rule, decisionOrder rt dReach fReach hint pref = Some (scheme, rule).
Proof.
  unfold decisionOrder, preferredReachable. intro H.
  destruct pref as [| | b | n | name | items | fields];
    try solve [destruct (payloadTight rt hint), dReach, fReach; simpl in *;
               try discriminate; eauto].
  destruct (name =? "falcon"); [| destruct (name =? "dilithium")];
    destruct (payloadTight rt hint), dReach, fReach; simpl in *;
    try discriminate; eauto.
Qed.

(** The selector's outcome is the one of the decision order, or the
    TypeError of a hint that cannot be converted when the preference does
    not decide. *)
Lemma decidedOrThrown_cases (rt : Runtime) (dReach fReach : bool) (hint pref : value) :
  decidedOrThrown rt dReach fReach hint pref =
    decided (decisionOrder rt dReach fReach hint pref) \/
  (decidedOrThrown rt dReach fReach hint pref = Thrown TypeError_convert /\
   unconvertible hint = true /\ preferredReachable pref dReach fReach = None).
Proof.
  unfold decidedOrThrown.
  pose proof (ToNumber_unconvertible rt hint) as Hconv.
  destruct (preferredReachable pref dReach fReach); [now left |].
  destruct (ToNumber rt hint); [now left |].
  right. repeat split. now apply Hconv.
Qed.

Section HealthAndSelection.

Variable rt : Runtime.
Variable env : Env.
Variable world : World.
Hypothesis world_stationary : stationary world.

(** The searches of the two routes find the same bases. *)
Lemma same_search (bases : list string) (t t' t1 t1' : Trace) (r r' : option string) :
  firstReachable world bases t = (Normal r, t1) ->
  firstReachable world bases t' = (Normal r', t1') ->
  r = r'.
Proof.
  intros H H'. pose proof (firstReachable_stationary world bases t t' world_stationary) as E.
  rewrite H, H' in E. simpl in E. congruence.
Qed.

Lemma probes_are_liveness_probes (bases : list string) (t t1 : Trace) (r : option string) :
  incl bases (KYBER_BASES env ++ DILITHIUM_BASES env ++ FALCON_BASES env)%list ->
  firstReachable world bases t = (Normal r, t1) ->
  exists added, t1 = (t ++ added)%list /\ Forall (livenessProbe env) added.
Proof.
  intros Hincl H. apply firstReachable_probes in H. destruct H as (probed & -> & Hp).
  exists (map healthCall probed). split; [reflexivity |].
  apply Forall_forall. intros c Hc. apply in_map_iff in Hc.
  destruct Hc as (b & <- & Hb). exists b. split; [apply Hincl, Hp, Hb | reflexivity].
Qed.

(** Where the answers do not change, a search finds the first candidate
    that answers, whenever its probes are made and whatever runs beside
    it. *)
Lemma answersAt_stationary (t : Trace) (b : string) :
  answersAt world t b = answersAt world [] b.
Proof. unfold answersAt. now rewrite (world_stationary t []). Qed.

Lemma firstReachable_find (bases : list string) (t t1 : Trace) (r : option string) :
  firstReachable world bases t = (Normal r, t1) ->
  r = find (answersAt world []) bases.
Proof.
  revert t. induction bases as [| b rest IH]; intro t.
  - simpl. unfold ret. congruence.
  - rewrite firstReachable_cons, answersAt_stationary. simpl.
    destruct (answersAt world [] b); [congruence | apply IH].
Qed.

Lemma searchedSometime_find (bases : list string) (r : option string)
    (probed : list string) :
  searchedSometime world bases r probed -> r = find (answersAt world []) bases.
Proof.
  assert (Hdown : forall l rest,
             Forall (fun x => exists u, answersAt world u x = false) l ->
             find (answersAt world []) (l ++ rest) = find (answersAt world []) rest).
  { intros l rest H. induction H as [| x l (u & Hx) _ IH]; [reflexivity |].
    simpl. rewrite answersAt_stationary in Hx. now rewrite Hx. }
  destruct r as [b |]; simpl.
  - intros (pre & post & -> & _ & Hpre & u & Hb).
    rewrite (Hdown _ _ Hpre). simpl.
    rewrite answersAt_stationary in Hb. now rewrite Hb.
  - intros [_ H]. rewrite <- (app_nil_r bases). now rewrite (Hdown _ _ H).
Qed.

(** The two searches of the selector find what the searches of the health
    route found, and make probes of signature candidates only. *)
Lemma selector_against_health (t0 t2 u u' v v' : Trace) (d f db fb : option string) :
  searchedBoth world (DILITHIUM_BASES env) (FALCON_BASES env) t0 d f t2 ->
  firstReachable world (DILITHIUM_BASES env) u = (Normal db, u') ->
  firstReachable world (FALCON_BASES env) v = (Normal fb, v') ->
  d = db /\ f = fb /\
  exists sel, t2 = (t0 ++ sel)%list /\ Forall (livenessProbe env) sel.
Proof.
  intros Hboth Hd Hf.
  destruct (selector_probes env world _ _ _ _ Hboth) as (sel & more & -> & Hsel & _).
  apply searchedBoth_probes in Hboth.
  destruct Hboth as (pd & pf & probes & more' & _ & _ & Hsd & Hsf & _).
  apply searchedSometime_find in Hsd, Hsf.
  apply firstReachable_find in Hd, Hf.
  split; [congruence | split; [congruence |]].
  exists sel. split; [reflexivity |].
  eapply Forall_impl; [| exact Hsel].
  intros c (b & Hb & ->). exists b. split; [apply in_or_app; now right | reflexivity].
Qed.

(** X19. While the backends answer a call the same way whenever it is
    made, a ['degraded'] health report means that every request fails,
    whatever the order in which the selector's probes settle: the reply is
    the 502 one, for Kyber, for the signature services or, when the
    payload hint cannot be converted to a number, with the message of the
    TypeError; and the request made liveness probes only. *)
Theorem degraded_health_means_request_fails (t t' : Trace) (report : HealthReport)
    (reqBody : value) (t0 : Trace) :
  handleHealth env world t = (Normal report, t') ->
  healthStatus report = "degraded" ->
  exists detail added,
    handleSelectAke rt env world reqBody t0 =
      (Reply502 "select_ake_failed" detail, (t0 ++ added)%list) /\
    (detail = "Kyber unreachable" \/ detail = "No signature service reachable" \/
     (detail = "Cannot convert object to primitive value" /\
      unconvertible (prop (nullish_ reqBody (VObj [])) "payloadHintBytes") = true)) /\
    Forall (livenessProbe env) added.
Proof.
  intros Hhealth Hstatus.
  destruct (handleHealth_run env world t)
    as (kb & db & fb & rb & u1 & u2 & u3 & u4 & Hk & Hd & Hf & Hr & Hrun).
  rewrite Hrun in Hhealth. inversion Hhealth; subst report t'. simpl in Hstatus.
  destruct (isBase kb && (isBase db || isBase fb)) eqn:Hok; [discriminate |].
  rewrite (firstReachable_isBase _ _ _ _ _ Hk), (firstReachable_isBase _ _ _ _ _ Hd),
    (firstReachable_isBase _ _ _ _ _ Hf) in Hok.
  change (found kb && (found db || found fb) = false) in Hok.
  unfold handleSelectAke. rewrite selectAke_stages. cbv zeta.
  destruct (selectSigScheme_run rt env world
              (prop (nullish_ reqBody (VObj [])) "payloadHintBytes")
              (prop (nullish_ reqBody (VObj [])) "policyPreferredSig") t0)
    as (d & f & t2 & _ & Hboth & ->).
  destruct (selector_against_health _ _ _ _ _ _ _ _ _ _ Hboth Hd Hf)
    as (-> & -> & sel & -> & Hsel).
  destruct (decidedOrThrown_cases rt (found db) (found fb)
              (prop (nullish_ reqBody (VObj [])) "payloadHintBytes")
              (prop (nullish_ reqBody (VObj [])) "policyPreferredSig"))
    as [-> | (-> & Hhint & _)].
  - destruct (decisionOrder rt (found db) (found fb) _ _) as [[scheme rule] |] eqn:Hrule;
      simpl.
    + destruct (firstReachable_total world (KYBER_BASES env) (t0 ++ sel)%list)
        as (kb' & t3 & Hk').
      rewrite Hk'. rewrite (same_search _ _ _ _ _ _ _ Hk' Hk) in *.
      destruct (probes_are_liveness_probes (KYBER_BASES env) _ _ _
                  ltac:(intros x Hx; apply in_or_app; now left) Hk')
        as (pk & -> & Hpk).
      assert (Hreach : found db || found fb = true).
      { apply decisionOrder_needs_a_backend in Hrule.
        destruct scheme; rewrite Hrule; [reflexivity | apply orb_true_r]. }
      rewrite Hreach, andb_true_r in Hok.
      destruct kb as [kyberBase |]; [discriminate |].
      exists "Kyber unreachable", (sel ++ pk)%list.
      split; [now rewrite !app_assoc | split; [now left |]].
      apply Forall_app. now split.
    + exists "No signature service reachable", sel.
      split; [reflexivity | split; [right; now left | exact Hsel]].
  - exists "Cannot convert object to primitive value", sel.
    split; [reflexivity | split; [right; right; now split | exact Hsel]].
Qed.

(** X20. While the backends answer a call the same way whenever it is
    made, an ['ok'] health report means that every request finds its
    backends, whatever the order in which the selector's probes settle:
    after its probes comes the keypair call to the Kyber base of the
    report.  The one exception is a request whose preference does not name
    a backend the report has as reachable and whose payload hint cannot be
    converted to a number: it ends after the selector's probes in the 502
    reply with the message of the TypeError. *)
Theorem ok_health_means_backends_are_found (t t' : Trace) (report : HealthReport)
    (reqBody : value) (t0 : Trace) :
  handleHealth env world t = (Normal report, t') ->
  healthStatus report = "ok" ->
  let b := nullish_ reqBody (VObj []) in
  let undecidable :=
    match preferredReachable (prop b "policyPreferredSig")
            (reachable (dilithium report)) (reachable (falcon report)) with
    | Some _ => false
    | None => unconvertible (prop b "payloadHintBytes")
    end in
  exists kyberBase probes,
    base (kyber report) = Some kyberBase /\
    Forall (livenessProbe env) probes /\
    if undecidable
    then handleSelectAke rt env world reqBody t0 =
           (Reply502 "select_ake_failed" "Cannot convert object to primitive value",
            (t0 ++ probes)%list)
    else exists rest,
           snd (handleSelectAke rt env world reqBody t0) =
             (t0 ++ probes
                 ++ mkCall POST (kyberBase ++ "/kyber/generate-keypair") (Some (VObj []))
                 :: rest)%list.
Proof.
  intros Hhealth Hstatus.
  destruct (handleHealth_run env world t)
    as (kb & db & fb & rb & u1 & u2 & u3 & u4 & Hk & Hd & Hf & Hr & Hrun).
  rewrite Hrun in Hhealth. inversion Hhealth; subst report t'. simpl in Hstatus.
  cbv zeta. cbn [reachable dilithium falcon kyber base backendOf].
  destruct (isBase kb && (isBase db || isBase fb)) eqn:Hok; [| discriminate].
  rewrite (firstReachable_isBase _ _ _ _ _ Hk), (firstReachable_isBase _ _ _ _ _ Hd),
    (firstReachable_isBase _ _ _ _ _ Hf) in *.
  apply andb_true_iff in Hok. destruct Hok as [Hkb Hsig].
  destruct kb as [kyberBase |]; [| discriminate].
  unfold handleSelectAke. rewrite selectAke_stages. cbv zeta.
  destruct (selectSigScheme_run rt env world
              (prop (nullish_ reqBody (VObj [])) "payloadHintBytes")
              (prop (nullish_ reqBody (VObj [])) "policyPreferredSig") t0)
    as (d & f & t2 & _ & Hboth & ->).
  destruct (selector_against_health _ _ _ _ _ _ _ _ _ _ Hboth Hd Hf)
    as (-> & -> & sel & -> & Hsel).
  change (match db with Some _ => true | None => false end) with (found db) in *.
  change (match fb with Some _ => true | None => false end) with (found fb) in *.
  destruct (decidedOrThrown_cases rt (found db) (found fb)
              (prop (nullish_ reqBody (VObj [])) "payloadHintBytes")
              (prop (nullish_ reqBody (VObj [])) "policyPreferredSig"))
    as [Hdecided | (-> & Hhint & ->)].
  2:{ exists kyberBase, sel. rewrite Hhint. repeat split; assumption. }
  rewrite Hdecided.
  assert (Hnot : match preferredReachable
                         (prop (nullish_ reqBody (VObj [])) "policyPreferredSig")
                         (found db) (found fb) with
                 | Some _ => false
                 | None => unconvertible (prop (nullish_ reqBody (VObj []))
                                            "payloadHintBytes")
                 end = false).
  { unfold decidedOrThrown in Hdecided.
    pose proof (ToNumber_unconvertible rt
                  (prop (nullish_ reqBody (VObj [])) "payloadHintBytes")) as Hconv.
    destruct (preferredReachable _ (found db) (found fb)); [reflexivity |].
    destruct (ToNumber rt _) as [n |].
    - destruct (unconvertible _); [| reflexivity].
      destruct Hconv as [_ Hconv]. discriminate (Hconv eq_refl).
    - destruct (decisionOrder_finds_a_backend rt _ _
                  (prop (nullish_ reqBody (VObj [])) "payloadHintBytes")
                  (prop (nullish_ reqBody (VObj [])) "policyPreferredSig") Hsig)
        as (scheme & rule & Hrule).
      rewrite Hrule in Hdecided. discriminate Hdecided. }
  rewrite Hnot.
  destruct (decisionOrder_finds_a_backend rt _ _
              (prop (nullish_ reqBody (VObj [])) "payloadHintBytes")
              (prop (nullish_ reqBody (VObj [])) "policyPreferredSig") Hsig)
    as (scheme & rule & Hrule).
  rewrite Hrule. simpl. apply decisionOrder_needs_a_backend in Hrule.
  destruct (firstReachable_total world (KYBER_BASES env) (t0 ++ sel)%list)
    as (kb' & t3 & Hk').
  rewrite Hk'. rewrite (same_search _ _ _ _ _ _ _ Hk' Hk) in *.
  destruct (probes_are_liveness_probes (KYBER_BASES env) _ _ _
              ltac:(intros x Hx; apply in_or_app; now left) Hk')
    as (pk & -> & Hpk).
  destruct (firstReachable_total world (signatureBases env scheme)
              ((t0 ++ sel) ++ pk)%list) as (sb & t4 & Hs).
  rewrite Hs.
  assert (Hsb : sb = match scheme with Dilithium => db | Falcon => fb end)
    by (destruct scheme; [exact (same_search _ _ _ _ _ _ _ Hs Hd)
                         | exact (same_search _ _ _ _ _ _ _ Hs Hf)]).
  destruct (probes_are_liveness_probes (signatureBases env scheme) _ _ _
              ltac:(intros x Hx; apply in_or_app; right; apply in_or_app;
                    destruct scheme; [now left | now right]) Hs)
    as (ps & -> & Hps).
  assert (Hup : found sb = true) by (rewrite Hsb; now destruct scheme).
  destruct sb as [sigBase |]; [| discriminate].
  destruct (signAndEncapsulate_calls rt env world scheme kyberBase sigBase
              (prop (nullish_ reqBody (VObj [])) "level")
              (((t0 ++ sel) ++ pk) ++ ps)%list) as (rest & Hkeys & _).
  assert (Hprobes : Forall (livenessProbe env) ((sel ++ pk) ++ ps)%list)
    by (repeat (apply Forall_app; split); assumption).
  exists kyberBase, ((sel ++ pk) ++ ps)%list.
  split; [reflexivity | split; [exact Hprobes |]].
  destruct (signAndEncapsulate rt env world scheme kyberBase sigBase _ _)
    as [[[[lvl kid] [enc ctx]] | e] t5]; simpl in Hkeys; subst t5.
  - destruct (addsAtMost_decapsulateAndCompare rt world scheme kyberBase
                (prop (nullish_ reqBody (VObj [])) "payloadHintBytes")
                (prop (nullish_ reqBody (VObj [])) "policyPreferredSig")
                lvl kid enc ctx
                ((((t0 ++ sel) ++ pk) ++ ps)
                   ++ mkCall POST (kyberBase ++ "/kyber/generate-keypair")
                        (Some (VObj [])) :: rest)%list) as (last & Hlast & _).
    exists (rest ++ last)%list.
    destruct (decapsulateAndCompare _ _ _ _ _ _ _ _ _ _ _) as [[result | e] t6];
      simpl in *; subst t6; rewrite <- !app_assoc; reflexivity.
  - exists rest. simpl. now rewrite <- !app_assoc.
Qed.

End HealthAndSelection.

(** ** The verify-and-encapsulate call *)

Lemma lookup_absent (name : string) (fields : list (string * value)) :
  ~ In name (map fst fields) -> lookup name fields = VUndefined.
Proof.
  induction fields as [| [k x] rest IH]; [reflexivity |]. simpl. intro H.
  destruct (k =? name) eqn:Hk; [apply String.eqb_eq in Hk; tauto | apply IH; tauto].
Qed.

(** What the receiver of a JSON body finds under a name: properties that
    were [undefined] are gone. *)
Lemma prop_viaJSON (name : string) (fields : list (string * value)) :
  NoDup (map fst fields) ->
  prop (viaJSON (VObj fields)) name =
  if isUndefined (lookup name fields) then VUndefined else viaJSON (lookup name fields).
Proof.
  simpl. induction fields as [| [k x] rest IH]; [reflexivity |].
  intro Hkeys. inversion Hkeys as [| k' keys Hk Hrest]; subst.
  specialize (IH Hrest). simpl lookup at 2 3.
  destruct (isUndefined x) eqn:Hx.
  - destruct (k =? name) eqn:Hname.
    + apply String.eqb_eq in Hname. subst name. rewrite Hx.
      rewrite IH, (lookup_absent _ _ Hk). reflexivity.
    + exact IH.
  - simpl. destruct (k =? name); [now rewrite Hx | exact IH].
Qed.

(** X21. The body of the verify-and-encapsulate call, as the backend
    reads it: the signer key is there under [signerPublicKey] and under the
    name of the selected scheme, never under the name of the other scheme;
    the signature is there under its three names; the key id is there
    under its three names when the context has one, and under none of them
    otherwise. *)
Theorem encapsulate_body_names_one_scheme (scheme : Scheme) (baseSignerLevel : value)
    (ctx : SigningContext) :
  let body := viaJSON (VObj (encapsulatePayload scheme baseSignerLevel ctx)) in
  let sent v := if isUndefined v then VUndefined else viaJSON v in
  prop body (match scheme with
             | Falcon => "dilithiumSignerPublicKey"
             | Dilithium => "falconSignerPublicKey"
             end) = VUndefined /\
  Forall (fun name => prop body name = sent (signerPublicKey ctx))
    ["signerPublicKey";
     match scheme with
     | Falcon => "falconSignerPublicKey"
     | Dilithium => "dilithiumSignerPublicKey"
     end] /\
  Forall (fun name => prop body name = sent (signature ctx))
    ["signature"; "signatureBase64"; "signatureB64"] /\
  Forall (fun name =>
            prop body name =
            if ToBoolean (signerKid ctx) then viaJSON (signerKid ctx) else VUndefined)
    ["signerKid"; "kid"; "keyId"].
Proof.
  cbv zeta.
  assert (Hkeys : NoDup (map fst (encapsulatePayload scheme baseSignerLevel ctx))).
  { unfold encapsulatePayload. destruct (ToBoolean (signerKid ctx)); simpl;
      repeat (apply NoDup_cons; [simpl; intuition discriminate |]); apply NoDup_nil. }
  assert (Hkid : ToBoolean (signerKid ctx) = true -> isUndefined (signerKid ctx) = false)
    by (destruct (signerKid ctx); simpl; congruence).
  split; [| split; [| split]];
    repeat (apply Forall_cons; [| try apply Forall_nil]);
    rewrite (prop_viaJSON _ _ Hkeys); unfold encapsulatePayload;
    destruct scheme; destruct (ToBoolean (signerKid ctx)) eqn:Hk; simpl;
    try reflexivity; now rewrite Hkid.
Qed.

(** ** What the chain returns *)

Lemma chainEnd_passed (submit : SigningContext -> M value)
    (strategies : list (M SigningContext)) :
  forall last t res ctx last' t',
    chainEnd submit strategies last t = Passed res ctx last' t' ->
    incomplete ctx = false /\
    exists getContext u u',
      In getContext strategies /\
      getContext u = (Normal ctx, u') /\
      submit ctx u' = (Normal res, t').
Proof.
  induction strategies as [| g rest IH]; intros last t res ctx last' t' H;
    [discriminate |].
  simpl in H. unfold attemptOf in H.
  destruct (g t) as [[ctx0 | e] t1] eqn:Hg.
  - destruct (incomplete ctx0) eqn:Hc.
    + destruct (IH _ _ _ _ _ _ H) as (Hi & g' & u & u' & Hin & Hrun & Hsub).
      split; [exact Hi |]. exists g', u, u'. simpl. auto.
    + destruct (submit ctx0 t1) as [[res0 | err] t2] eqn:Hs.
      * inversion H; subst. split; [exact Hc |]. exists g, t, t1. simpl. auto.
      * destruct (isSignatureVerificationError err); [| discriminate].
        destruct (IH _ _ _ _ _ _ H) as (Hi & g' & u & u' & Hin & Hrun & Hsub).
        split; [exact Hi |]. exists g', u, u'. simpl. auto.
  - destruct (IH _ _ _ _ _ _ H) as (Hi & g' & u & u' & Hin & Hrun & Hsub).
    split; [exact Hi |]. exists g', u, u'. simpl. auto.
Qed.

(** X22. What the chain returns was produced by the loop: the context is
    the one a strategy of the list returned, it has its four fields, and
    the encapsulation result is the truthy value that the submission of
    this very context returned, the last call of the chain. *)
Theorem chain_result_comes_from_a_strategy (submit : SigningContext -> M value)
    (strategies : list (M SigningContext)) (t t' : Trace) (res : value)
    (ctx : SigningContext) :
  signingChain submit strategies t = (Normal (res, ctx), t') ->
  ToBoolean res = true /\
  incomplete ctx = false /\
  exists getContext u u',
    In getContext strategies /\
    getContext u = (Normal ctx, u') /\
    submit ctx u' = (Normal res, t').
Proof.
  rewrite signingChain_end.
  destruct (chainEnd submit strategies None t) as [last u | err u | res0 ctx0 last u] eqn:Hend;
    try discriminate.
  destruct (ToBoolean res0) eqn:Hres; [| discriminate].
  intro H. inversion H; subst. split; [exact Hres |].
  exact (chainEnd_passed _ _ _ _ _ _ _ _ Hend).
Qed.

(** ** Instances *)

Lemma byUrl_stationary (table : list (string * Outcome)) : stationary (byUrl table).
Proof. intros t t' c. reflexivity. Qed.

Lemma rejected_signature_witness :
  exists call,
    strategyLoop
      (encapsulateVerified stubRuntime rejectingWorld Falcon falconBase (VStr "Falcon-1024"))
      [ret fullContext] initialState [] =
    strategyLoop
      (encapsulateVerified stubRuntime rejectingWorld Falcon falconBase (VStr "Falcon-1024"))
      [] (withLastError initialState (Error_ "Signature verification failed")) [call].
Proof.
  eexists.
  edestruct (rejected_signature_moves_to_next_strategy stubRuntime rejectingWorld Falcon
               falconBase (VStr "Falcon-1024") (ret fullContext) [] initialState [] []
               fullContext (mkResponse 400 (Delivered (JsonText rejection)) eq_refl)
               rejection "Signature verification failed") as [_ H];
    [reflexivity | reflexivity | lazy; reflexivity | reflexivity | reflexivity
     | reflexivity | vm_compute; reflexivity | exact H].
Defined.

Lemma strategy_context_witness :
  exists ctx t1,
    falconDirect [] = (Normal ctx, t1) /\ incomplete ctx = false.
Proof.
  eexists. eexists. split; [lazy; reflexivity |].
  edestruct (strategy_contexts_are_well_formed stubRuntime healthyWorld Falcon falconBase
               (VStr "PK0") (VStr "SK0") (VStr "SPK-F") (VStr "Falcon-1024") VUndefined
               "falcon-l1" None falconDirect []) as (_ & _ & H);
    [simpl; left; reflexivity | lazy; reflexivity | apply H; reflexivity].
Defined.

Lemma no_signature_backend_witness :
  exists probes more,
    handleSelectAke stubRuntime defaultEnv signersDownWorld (VObj []) [] =
      (Reply502 "select_ake_failed" "No signature service reachable",
       ([] ++ map healthCall probes)%list) /\
    Merge (DILITHIUM_BASES defaultEnv) (FALCON_BASES defaultEnv) probes /\
    probes = (firstn 1 (DILITHIUM_BASES defaultEnv) ++
              firstn 1 (FALCON_BASES defaultEnv) ++ more)%list.
Proof.
  refine (no_signature_backend_fails_before_kem stubRuntime defaultEnv signersDownWorld
            (VObj []) [] _).
  intros t b Hb. simpl in Hb.
  repeat (destruct Hb as [<- | Hb]; [reflexivity |]). destruct Hb.
Defined.

Lemma policy_preference_witness :
  exists result t,
    handleSelectAke stubRuntime defaultEnv healthyWorld prefersDilithiumOnTinyPayload [] =
      (Reply200 result, t) /\
    reason result = "policy:dilithium" /\ schemeSelected result = Dilithium.
Proof.
  eexists. eexists. split; [lazy; reflexivity |].
  edestruct (policy_preference_overrides_payload_hint stubRuntime defaultEnv healthyWorld
               prefersDilithiumOnTinyPayload Dilithium [])
    as (d & f & t2 & Hboth & Hreason & Hscheme);
    [reflexivity | lazy; reflexivity |].
  split; [exact Hreason |]. apply Hscheme.
  apply searchedBoth_probes in Hboth.
  destruct Hboth as (pd & pf & probes & more & _ & _ & Hd & _).
  apply (found_when_answering healthyWorld _ _ _ "http://localhost:8081" Hd);
    [vm_compute; tauto | reflexivity].
Defined.

Lemma default_selection_witness :
  exists result t,
    handleSelectAke stubRuntime defaultEnv healthyWorld largePayload [] =
      (Reply200 result, t) /\
    reason result = "default_or_health" /\ schemeSelected result = Dilithium.
Proof.
  eexists. eexists. split; [lazy; reflexivity |].
  edestruct (default_selection_prefers_dilithium stubRuntime defaultEnv healthyWorld
               largePayload [])
    as (d & f & t2 & Hboth & Hreason & Hscheme & _);
    [reflexivity | right; vm_compute; discriminate | lazy; reflexivity |].
  split; [exact Hreason |]. rewrite Hscheme.
  apply searchedBoth_probes in Hboth.
  destruct Hboth as (pd & pf & probes & more & _ & _ & Hd & _).
  now rewrite (found_when_answering healthyWorld _ _ _ "http://localhost:8081" Hd
                 ltac:(vm_compute; tauto) ltac:(reflexivity)).
Defined.

Lemma default_reason_witness :
  exists result t d f,
    handleSelectAke stubRuntime defaultEnv healthyWorld largePayload [] =
      (Reply200 result, t) /\
    decisionOrder stubRuntime (found d) (found f) (VNum (ofZ 4096)) VUndefined =
      Some (schemeSelected result, DefaultRule).
Proof.
  eexists. eexists.
  edestruct (default_reason_means_default_rule stubRuntime defaultEnv healthyWorld
               largePayload [])
    as (d & f & t2 & _ & Hrule & _);
    [lazy; reflexivity | reflexivity |].
  exists d, f. split; [lazy; reflexivity | exact Hrule].
Defined.

Lemma configured_base_witness :
  firstReachable overrideWorld (KYBER_BASES overrideEnv) [] =
    (Normal (Some configuredKyber), ([] ++ [healthCall configuredKyber])%list).
Proof.
  destruct (configured_base_is_tried_first overrideEnv overrideWorld configuredKyber [])
    as (H & _); [discriminate | reflexivity | apply H; reflexivity].
Defined.

Lemma signer_reply_witness :
  bind (fetch signerErrorWorld signerCall) json [] =
    (Normal signerError, ([] ++ [signerCall])%list) /\
  (fst (exchangeJSON stubRuntime signerErrorWorld signerCall []) = Normal signerError <->
   false = true).
Proof.
  apply (signer_reply_is_read_whatever_its_status stubRuntime signerErrorWorld signerCall []
           (mkResponse 400 (Delivered (JsonText signerError)) eq_refl) signerError);
    reflexivity.
Defined.

Lemma degraded_health_witness :
  exists detail added,
    handleSelectAke stubRuntime defaultEnv kemDownWorld (VObj []) [] =
      (Reply502 "select_ake_failed" detail, ([] ++ added)%list) /\
    (detail = "Kyber unreachable" \/ detail = "No signature service reachable" \/
     (detail = "Cannot convert object to primitive value" /\
      unconvertible (prop (nullish_ (VObj []) (VObj [])) "payloadHintBytes") = true)) /\
    Forall (livenessProbe defaultEnv) added.
Proof.
  eapply (degraded_health_means_request_fails stubRuntime defaultEnv kemDownWorld
            (byUrl_stationary _) []);
    [lazy; reflexivity | reflexivity].
Defined.

Lemma ok_health_witness :
  exists kyberBase probes,
    Some "http://localhost:8080" = Some kyberBase /\
    Forall (livenessProbe defaultEnv) probes /\
    exists rest,
      snd (handleSelectAke stubRuntime defaultEnv healthyWorld (VObj []) []) =
        ([] ++ probes
            ++ mkCall POST (kyberBase ++ "/kyber/generate-keypair") (Some (VObj []))
            :: rest)%list.
Proof.
  edestruct (ok_health_means_backends_are_found stubRuntime defaultEnv healthyWorld
               (byUrl_stationary _) [])
    with (reqBody := VObj []) (t0 := @nil Call)
    as (kyberBase & probes & Hbase & Hprobes & Hrun);
    [lazy; reflexivity | reflexivity |].
  exists kyberBase, probes. split; [exact Hbase | split; [exact Hprobes | exact Hrun]].
Defined.

Lemma chain_result_witness :
  exists res ctx t',
    signingChain falconSubmit [ret fullContext] [] = (Normal (res, ctx), t') /\
    ToBoolean res = true /\ incomplete ctx = false.
Proof.
  eexists. eexists. eexists. split; [lazy; reflexivity |].
  edestruct (chain_result_comes_from_a_strategy falconSubmit [ret fullContext] [])
    as (Hres & Hctx & _); [lazy; reflexivity |].
  split; [exact Hres | exact Hctx].
Defined.
